(** * The xv6 kernel log: per-CPU ring buffers, formatting, snapshot, query

    A shallow embedding of [klog.h], [klog.c], [klogdev.c] and of
    [sys_getklog] (from [sysproc.c]).  Machine integers are [Z] with the
    wrap-around written out; a C array is the map from its indices to its
    cells, and the arrays whose bounds matter carry the list of the indices
    that were accessed. *)

From Stdlib Require Import ZArith List Lia Bool Permutation Sorted String Ascii.
Import ListNotations.
Local Open Scope Z_scope.

(** ** Machine integers *)

Module Int.

(** Conversion to [uint]. *)
Definition u32 (z : Z) : Z := z mod 2 ^ 32.

(** Conversion to [int] (two's complement). *)
Definition s32 (z : Z) : Z := (z + 2 ^ 31) mod 2 ^ 32 - 2 ^ 31.

End Int.
Import Int.

(** ** Arrays *)

Module Arr.

(** [a[k] = v] *)
Definition upd {A : Type} (a : Z -> A) (k : Z) (v : A) : Z -> A :=
  fun x => if x =? k then v else a x.

(** The cells [lo], [lo+1], ..., [lo+n-1] of [a]. *)
Definition slice {A : Type} (a : Z -> A) (lo : Z) (n : nat) : list A :=
  map (fun k => a (lo + Z.of_nat k)) (List.seq 0 n).

(** An array together with the indices at which it was read or written,
    most recent first. *)
Record traced (A : Type) : Type := mkTraced { mem : Z -> A; acc : list Z }.
Arguments mkTraced {A} _ _.
Arguments mem {A} _ _.
Arguments acc {A} _.

Definition fresh {A : Type} (a : Z -> A) : traced A := mkTraced a [].

Definition tread {A : Type} (b : traced A) (k : Z) : A * traced A :=
  (mem b k, mkTraced (mem b) (k :: acc b)).

Definition twrite {A : Type} (b : traced A) (k : Z) (v : A) : traced A :=
  mkTraced (upd (mem b) k v) (k :: acc b).

End Arr.
Import Arr.

(** ** Loops *)

(** [for (i = lo; n more iterations; i++) s = body i s] *)
Fixpoint loop_from {S : Type} (n : nat) (i : Z) (body : Z -> S -> S) (s : S) : S :=
  match n with
  | O => s
  | Datatypes.S n' => loop_from n' (i + 1) body (body i s)
  end.

(** [for (i = lo; i < hi; i++) s = body i s], for a body that leaves [i] and
    [hi] alone. *)
Definition for_range {S : Type} (lo hi : Z) (body : Z -> S -> S) (s : S) : S :=
  loop_from (Z.to_nat (hi - lo)) lo body s.

(** ** klog.h *)

(** [struct klog_entry] *)
Record klog_entry : Type := mkEntry {
  seq : Z;            (* uint: global sequence number *)
  timestamp_hi : Z;   (* uint *)
  timestamp_lo : Z;   (* uint *)
  cpu : Z;            (* uint *)
  pid : Z;            (* uint *)
  level : Z;          (* uint *)
  msg : Z -> Z        (* char msg[64] *)
}.

Definition KLOG_BUF_SIZE : Z := 256.

Definition KLOG_DEBUG : Z := 0.
Definition KLOG_INFO : Z := 1.
Definition KLOG_WARN : Z := 2.
Definition KLOG_ERROR : Z := 3.

(** Modelled from the spec: [spinlock.h] and [spinlock.c] are not part of the
    sources.  A lock is its held flag; [acquire] sets it and [release]
    clears it. *)
Record spinlock : Type := mkLock { locked : bool }.

Definition initlock : spinlock := mkLock false.
Definition acquire (l : spinlock) : spinlock := mkLock true.
Definition release (l : spinlock) : spinlock := mkLock false.

(** [struct klog_cpu_buf] *)
Record klog_cpu_buf : Type := mkBuf {
  lock : spinlock;
  entries : Z -> klog_entry;   (* struct klog_entry entries[KLOG_BUF_SIZE] *)
  head : Z;                    (* uint: next write position *)
  dropped : Z                  (* uint *)
}.

Definition set_lock (l : klog_cpu_buf) (k : spinlock) : klog_cpu_buf :=
  mkBuf k (entries l) (head l) (dropped l).
Definition set_entries (l : klog_cpu_buf) (e : Z -> klog_entry) : klog_cpu_buf :=
  mkBuf (lock l) e (head l) (dropped l).
Definition set_head (l : klog_cpu_buf) (h : Z) : klog_cpu_buf :=
  mkBuf (lock l) (entries l) h (dropped l).
Definition set_dropped (l : klog_cpu_buf) (d : Z) : klog_cpu_buf :=
  mkBuf (lock l) (entries l) (head l) d.

(** *** Layout of [struct klog_entry] (i386: [uint] is 4 bytes, 4-aligned) *)

Module Layout.

Inductive ctype : Type :=
| Tuint
| Tchar
| Tarray (t : ctype) (n : Z).

Fixpoint sizeof (t : ctype) : Z :=
  match t with
  | Tuint => 4
  | Tchar => 1
  | Tarray t n => n * sizeof t
  end.

Fixpoint alignof (t : ctype) : Z :=
  match t with
  | Tuint => 4
  | Tchar => 1
  | Tarray t _ => alignof t
  end.

Definition align_up (off a : Z) : Z := (off + a - 1) / a * a.

(** Offsets of the fields laid out from [off] on, and the first free byte. *)
Fixpoint offsets (off : Z) (fs : list (string * ctype)) : list (string * Z) * Z :=
  match fs with
  | [] => ([], off)
  | (name, t) :: fs' =>
      let o := align_up off (alignof t) in
      let (rest, fin) := offsets (o + sizeof t) fs' in
      ((name, o) :: rest, fin)
  end.

Definition struct_align (fs : list (string * ctype)) : Z :=
  fold_right (fun f a => Z.max (alignof (snd f)) a) 1 fs.

Definition sizeof_struct (fs : list (string * ctype)) : Z :=
  align_up (snd (offsets 0 fs)) (struct_align fs).

Definition klog_entry_fields : list (string * ctype) :=
  [ ("seq", Tuint); ("timestamp_hi", Tuint); ("timestamp_lo", Tuint);
    ("cpu", Tuint); ("pid", Tuint); ("level", Tuint);
    ("msg", Tarray Tchar 64) ]%string.

(** [sizeof(struct klog_entry)] *)
Definition sizeof_klog_entry : Z := sizeof_struct klog_entry_fields.

(** The four bytes of a [uint], least significant first (x86). *)
Definition le32 (v : Z) : list Z :=
  [ v mod 256; (v / 256) mod 256; (v / 65536) mod 256; (v / 16777216) mod 256 ].

(** The bytes of a [struct klog_entry] as they lie in memory, which is what
    [copyout] transfers. *)
Definition bytes_of_entry (e : klog_entry) : list Z :=
  le32 (seq e) ++ le32 (timestamp_hi e) ++ le32 (timestamp_lo e) ++
  le32 (cpu e) ++ le32 (pid e) ++ le32 (level e) ++ slice (msg e) 0 64.

End Layout.
Import Layout.

(** ** klog.c: message formatting *)

(** A character is its code; [ch "a"] is ['a']. *)
Definition ch (c : ascii) : Z := Z.of_N (N_of_ascii c).

(** The characters of a string literal.  A C string is held as the list of
    the characters at its address; the list ending, or a zero in it, is the
    terminator. *)
Fixpoint cstr (s : string) : list Z :=
  match s with
  | EmptyString => []
  | String c s' => ch c :: cstr s'
  end.

(** One word of the variadic argument area: the 32-bit value [*ap], and the
    characters stored at that address should the word be used as a
    [char*]. *)
Record varg : Type := mkArg { word : Z; pointee : list Z }.

(** [uint *ap]: the words from [ap] on. [ap 0] is [*ap]. *)
Definition va_list : Type := nat -> varg.

(** [ap++] *)
Definition va_next (ap : va_list) : va_list := fun n => ap (Datatypes.S n).

(** [char tmp[16]] with its fill index [i] is held as the list of
    [tmp[i-1]], ..., [tmp[0]]; [room] is [sizeof(tmp) - i]. *)
Fixpoint int_digits (room : nat) (val : Z) (tmp : list Z) : list Z :=
  match room with
  | O => tmp
  | Datatypes.S room' =>
      if val >? 0
      then int_digits room' (val / 10) ((ch "0" + val mod 10) :: tmp)
      else tmp
  end.

Definition digits : list Z := cstr "0123456789abcdef".

Fixpoint hex_digits (room : nat) (val : Z) (tmp : list Z) : list Z :=
  match room with
  | O => tmp
  | Datatypes.S room' =>
      if val >? 0
      then hex_digits room' (Z.shiftr val 4)
             (nth (Z.to_nat (Z.land val 15)) digits 0 :: tmp)
      else tmp
  end.

(** [while(i > 0 && j < size-1) buf[j++] = tmp[--i];] on the buffer that
    starts at index [base] of [b]. *)
Fixpoint emit (tmp : list Z) (base size j : Z) (b : traced Z) : traced Z * Z :=
  match tmp with
  | [] => (b, j)
  | c :: tmp' =>
      if j <? size - 1
      then emit tmp' base size (j + 1) (twrite b (base + j) c)
      else (b, j)
  end.

(** [snprintf_int(buf + base, size, val)]; the negation of the least [int]
    wraps, as on x86. *)
Definition snprintf_int (b : traced Z) (base size val : Z) : traced Z * Z :=
  if size <=? 0 then (b, 0)
  else
    let neg := val <? 0 in
    let val := if neg then s32 (- val) else val in
    let tmp := if val =? 0 then [ch "0"] else int_digits 16 val [] in
    let '(b, j) :=
      if neg && (0 <? size - 1) then (twrite b (base + 0) (ch "-"), 1) else (b, 0) in
    let '(b, j) := emit tmp base size j b in
    (twrite b (base + j) 0, j).

(** [snprintf_hex(buf + base, size, val)] *)
Definition snprintf_hex (b : traced Z) (base size val : Z) : traced Z * Z :=
  if size <=? 2 then (b, 0)
  else
    let b := twrite b (base + 0) (ch "0") in
    let b := twrite b (base + 1) (ch "x") in
    let tmp := if val =? 0 then [ch "0"] else hex_digits 16 val [] in
    let '(b, j) := emit tmp base size 2 b in
    (twrite b (base + j) 0, j).

(** [for(; *s && i < sizeof(buf)-1; s++) buf[i++] = *s;] *)
Fixpoint copy_str (s : list Z) (i : Z) (b : traced Z) : Z * traced Z :=
  match s with
  | [] => (i, b)
  | c :: s' =>
      if (c =? 0) || negb (u32 i <? 63) then (i, b)
      else copy_str s' (i + 1) (twrite b i c)
  end.

(** The formatting loop of [klog_printf_internal]:
    [for(; *fmt && i < sizeof(buf)-1; fmt++) { ... }]. *)
Fixpoint format_loop (fmt : list Z) (ap : va_list) (i : Z) (b : traced Z)
  : Z * traced Z :=
  match fmt with
  | [] => (i, b)
  | c :: fmt1 =>
      if (c =? 0) || negb (u32 i <? 63) then (i, b)
      else if negb (c =? ch "%") then format_loop fmt1 ap (i + 1) (twrite b i c)
      else
        match fmt1 with
        | [] => (i, b)
        | d :: fmt2 =>
            if d =? 0 then (i, b)
            else if d =? ch "d" then
              let '(b, n) :=
                snprintf_int b i (s32 (u32 (64 - i))) (s32 (word (ap 0%nat))) in
              format_loop fmt2 (va_next ap) (i + n) b
            else if d =? ch "x" then
              let '(b, n) :=
                snprintf_hex b i (s32 (u32 (64 - i))) (word (ap 0%nat)) in
              format_loop fmt2 (va_next ap) (i + n) b
            else if d =? ch "s" then
              let s := if word (ap 0%nat) =? 0 then cstr "(null)"
                       else pointee (ap 0%nat) in
              let '(i, b) := copy_str s i b in
              format_loop fmt2 (va_next ap) i b
            else if d =? ch "%" then
              format_loop fmt2 ap (i + 1) (twrite b i (ch "%"))
            else
              format_loop fmt2 ap (i + 2) (twrite (twrite b i (ch "%")) (i + 1) d)
        end
  end.

(** The message-formatting step: [i = 0; for(...){...} buf[i] = 0;] on the
    local [char buf[64]], whose initial content is [stack].  Returns the
    final [i] and the buffer with the indices written. *)
Definition format_msg (stack : Z -> Z) (fmt : list Z) (ap : va_list)
  : Z * traced Z :=
  let '(i, b) := format_loop fmt ap 0 (fresh stack) in
  (i, twrite b i 0).

(** [for(i = 0; i < sizeof(entry->msg)-1 && buf[i]; i++) entry->msg[i] = buf[i];]
    with [room] = 63 - i. *)
Fixpoint copy_msg (room : nat) (i : Z) (buf m : Z -> Z) : Z * (Z -> Z) :=
  match room with
  | O => (i, m)
  | Datatypes.S room' =>
      if buf i =? 0 then (i, m)
      else copy_msg room' (i + 1) buf (upd m i (buf i))
  end.

(** ** klog.c: state *)

Record kstate : Type := mkState {
  cpu_logs : Z -> klog_cpu_buf;   (* static struct klog_cpu_buf cpu_logs[NCPU] *)
  global_seq : Z;                 (* static uint global_seq *)
  seq_lock : spinlock
}.

Definition set_cpu (st : kstate) (c : Z) (l : klog_cpu_buf) : kstate :=
  mkState (upd (cpu_logs st) c l) (global_seq st) (seq_lock st).
Definition set_global_seq (st : kstate) (s : Z) : kstate :=
  mkState (cpu_logs st) s (seq_lock st).
Definition set_seq_lock (st : kstate) (k : spinlock) : kstate :=
  mkState (cpu_logs st) (global_seq st) k.

(** What one call of the logger finds around it: the executing CPU, the pid
    of the current process if there is one, the cycle counter, and the
    content of the stack where [buf] is placed. *)
Record env : Type := mkEnv {
  cpuid : Z;
  myproc : option Z;
  tsc_hi : Z;
  tsc_lo : Z;
  stack : Z -> Z
}.

(** [next_seq] *)
Definition next_seq (st : kstate) : Z * kstate :=
  let st := set_seq_lock st (acquire (seq_lock st)) in
  let s := global_seq st in
  let st := set_global_seq st (u32 (global_seq st + 1)) in
  (s, set_seq_lock st (release (seq_lock st))).

(** ** klog.c: operations *)

Section Klog.

(** [param.h] and [mmu.h] are not part of the sources: the number of CPUs
    and the page size are parameters. *)
Variable NCPU : Z.
Variable PGSIZE : Z.

(** [klog_printf_internal(level, fmt, ap)].  [pushcli]/[popcli] only mask
    interrupts and are left out. *)
Definition klog_printf_internal (st : kstate) (e : env) (level : Z)
    (fmt : list Z) (ap : va_list) : kstate :=
  let cpu_id := cpuid e in
  if (cpu_id <? 0) || (cpu_id >=? NCPU) then st
  else
    let pid := match myproc e with Some p => p | None => 0 end in
    let '(_, b) := format_msg (stack e) fmt ap in
    let buf := mem b in
    (* acquire(&log->lock) *)
    let log := cpu_logs st cpu_id in
    let st := set_cpu st cpu_id (set_lock log (acquire (lock log))) in
    let log := cpu_logs st cpu_id in
    let idx := head log mod KLOG_BUF_SIZE in
    let entry := entries log idx in
    let '(s, st) := next_seq st in
    let log := cpu_logs st cpu_id in
    let '(i, m) := copy_msg 63 0 buf (msg entry) in
    let entry :=
      mkEntry s (tsc_hi e) (tsc_lo e) (u32 cpu_id) (u32 pid) (u32 level)
              (upd m i 0) in
    let log := set_entries log (upd (entries log) idx entry) in
    let log := set_head log (u32 (head log + 1)) in
    (* release(&log->lock) *)
    set_cpu st cpu_id (set_lock log (release (lock log))).

(** [klog_printf(fmt, ...)] *)
Definition klog_printf (st : kstate) (e : env) (fmt : list Z) (ap : va_list)
  : kstate :=
  klog_printf_internal st e KLOG_INFO fmt ap.

(** [klog_printf_level(level, fmt, ...)] *)
Definition klog_printf_level (st : kstate) (e : env) (level : Z)
    (fmt : list Z) (ap : va_list) : kstate :=
  klog_printf_internal st e level fmt ap.

Definition init_cpu (i : Z) (st : kstate) : kstate :=
  let log := cpu_logs st i in
  let log := set_lock log initlock in
  let log := set_head log 0 in
  let log := set_dropped log 0 in
  set_cpu st i log.

(** [klog_init]; [e] and [ap] are what its call of [klog_printf] finds. *)
Definition klog_init (st : kstate) (e : env) (ap : va_list) : kstate :=
  let st := set_seq_lock st initlock in
  let st := for_range 0 NCPU init_cpu st in
  klog_printf st e (cstr "klog: logging subsystem initialized") ap.

(** The copy loop of [klog_snapshot]:
    [for(i = start; i < end && count < max_entries; i++)], with [n] the
    distance from [i] to [end]. *)
Fixpoint copy_entries (n : nat) (i : Z) (log : klog_cpu_buf) (max_entries : Z)
    (b : traced klog_entry) (count : Z) : traced klog_entry * Z :=
  match n with
  | O => (b, count)
  | Datatypes.S n' =>
      if count <? max_entries then
        let idx := i mod KLOG_BUF_SIZE in
        copy_entries n' (i + 1) log max_entries
                     (twrite b count (entries log idx)) (count + 1)
      else (b, count)
  end.

(** The body of the loop over the CPUs in [klog_snapshot]. *)
Definition snapshot_cpu (max_entries : Z) (cpu_id : Z)
    (s : kstate * traced klog_entry * Z) : kstate * traced klog_entry * Z :=
  let '(st, b, count) := s in
  let log := cpu_logs st cpu_id in
  let st := set_cpu st cpu_id (set_lock log (acquire (lock log))) in
  let log := cpu_logs st cpu_id in
  let '(start, end_) :=
    if head log >? KLOG_BUF_SIZE
    then (u32 (head log - KLOG_BUF_SIZE), head log)
    else (0, head log) in
  let '(b, count) :=
    copy_entries (Z.to_nat (end_ - start)) start log max_entries b count in
  let st := set_cpu st cpu_id (set_lock log (release (lock log))) in
  (st, b, count).

(** The body of the inner loop of the sort. *)
Definition sort_step (j : Z) (b : traced klog_entry) : traced klog_entry :=
  let '(x, b) := tread b j in
  let '(y, b) := tread b (j + 1) in
  if seq x >? seq y then
    let '(t, b) := tread b j in
    let '(y, b) := tread b (j + 1) in
    let b := twrite b j y in
    twrite b (j + 1) t
  else b.

(** [for(j = 0; j < count - i - 1; j++)]: [j] and [i] are [uint], [count]
    is [int], so the bound is computed in [uint]. *)
Definition sort_pass (count : Z) (i : Z) (b : traced klog_entry)
  : traced klog_entry :=
  for_range 0 (u32 (count - i - 1)) sort_step b.

(** [for(i = 0; i < count - 1; i++)] *)
Definition bubble_sort (count : Z) (b : traced klog_entry)
  : traced klog_entry :=
  for_range 0 (u32 (count - 1)) (sort_pass count) b.

(** [klog_snapshot(buf, max_entries)]: the state afterwards, the
    destination array with the indices accessed, and the count returned. *)
Definition klog_snapshot (st : kstate) (buf : Z -> klog_entry)
    (max_entries : Z) : kstate * traced klog_entry * Z :=
  let '(st, b, count) :=
    for_range 0 NCPU (snapshot_cpu max_entries) (st, fresh buf, 0) in
  (st, bubble_sort count b, count).

Definition clear_cpu (cpu_id : Z) (st : kstate) : kstate :=
  let log := cpu_logs st cpu_id in
  let st := set_cpu st cpu_id (set_lock log (acquire (lock log))) in
  let log := cpu_logs st cpu_id in
  let log := set_head log 0 in
  let log := set_dropped log 0 in
  set_cpu st cpu_id (set_lock log (release (lock log))).

(** [klog_clear] *)
Definition klog_clear (st : kstate) : kstate :=
  for_range 0 NCPU clear_cpu st.

Definition dropped_cpu (cpu_id : Z) (s : kstate * Z) : kstate * Z :=
  let '(st, total) := s in
  let log := cpu_logs st cpu_id in
  let st := set_cpu st cpu_id (set_lock log (acquire (lock log))) in
  let log := cpu_logs st cpu_id in
  let total := u32 (total + dropped log) in
  (set_cpu st cpu_id (set_lock log (release (lock log))), total).

(** [klog_get_dropped] *)
Definition klog_get_dropped (st : kstate) : kstate * Z :=
  for_range 0 NCPU dropped_cpu (st, 0).

(** ** klogdev.c and sysproc.c: the boundaries *)

(** Modelled from the spec: [copyout] ([vm.c]) is not part of the sources.
    [copyout(pgdir, va, p, len)] delivers [len] bytes at the user address
    [va], or fails; [ok va len] tells which.  What was delivered is kept
    as the list of the transfers, oldest first. *)
Definition delivery : Type := (Z * list Z)%type.

Definition copyout (ok : Z -> Z -> bool) (va : Z) (bytes : list Z) (len : Z)
  : option delivery :=
  if ok va len then Some (va, firstn (Z.to_nat len) bytes) else None.

(** The copy loop of [klogdev_read]:
    [for(i = 0; i < count && copied + sizeof(struct klog_entry) <= n; i++)]. *)
Fixpoint klogdev_copy (room : nat) (ok : Z -> Z -> bool) (entries : Z -> klog_entry)
    (dst n : Z) (i copied : Z) (out : list delivery) : Z * list delivery :=
  match room with
  | O => (copied, out)
  | Datatypes.S room' =>
      if u32 (copied + sizeof_klog_entry) <=? u32 n then
        match copyout ok (u32 (dst + copied)) (bytes_of_entry (entries i))
                      sizeof_klog_entry with
        | None => (-1, out)
        | Some d =>
            klogdev_copy room' ok entries dst n (i + 1)
                         (s32 (copied + sizeof_klog_entry)) (out ++ [d])
        end
      else (copied, out)
  end.

(** [klogdev_read(ip, dst, n)]; [entries] is the content of the stack where
    the local array is placed. *)
Definition klogdev_read (st : kstate) (ok : Z -> Z -> bool)
    (entries : Z -> klog_entry) (dst n : Z) : kstate * Z * list delivery :=
  let '(st, b, count) := klog_snapshot st entries 64 in
  let '(r, out) := klogdev_copy (Z.to_nat count) ok (mem b) dst n 0 0 [] in
  (st, r, out).

(** [klogdev_write] *)
Definition klogdev_write (buf n : Z) : Z := -1.

(** The copy loop of [sys_getklog]: [for(i = 0; i < count; i++)]. *)
Fixpoint getklog_copy (room : nat) (ok : Z -> Z -> bool) (kbuf : Z -> klog_entry)
    (buf_addr : Z) (i : Z) (out : list delivery) : bool * list delivery :=
  match room with
  | O => (true, out)
  | Datatypes.S room' =>
      match copyout ok (u32 (u32 buf_addr + u32 (i * sizeof_klog_entry)))
                    (bytes_of_entry (kbuf i)) sizeof_klog_entry with
      | None => (false, out)
      | Some d => getklog_copy room' ok kbuf buf_addr (i + 1) (out ++ [d])
      end
  end.

(** [sys_getklog].  [arg0] and [arg1] are what [argint] fetches ([None]
    when it fails), [sz] is [curproc->sz], [page] is the page [kalloc]
    returns ([None] for 0), read as an array of entries. *)
Definition sys_getklog (st : kstate) (arg0 arg1 : option Z) (sz : Z)
    (page : option (Z -> klog_entry)) (ok : Z -> Z -> bool)
  : kstate * Z * list delivery :=
  match arg0 with
  | None => (st, -1, [])
  | Some buf_addr =>
  match arg1 with
  | None => (st, -1, [])
  | Some max_entries =>
      if (max_entries <=? 0) || (max_entries >? 1024) then (st, -1, [])
      else if (buf_addr <? 0) || (u32 buf_addr >=? sz) then (st, -1, [])
      else if u32 (u32 buf_addr + u32 (max_entries * sizeof_klog_entry)) >? sz
      then (st, -1, [])
      else
        match page with
        | None => (st, -1, [])
        | Some kbuf =>
            let max_fit := s32 (u32 PGSIZE / sizeof_klog_entry) in
            let max_entries :=
              if max_entries >? max_fit then max_fit else max_entries in
            let '(st, b, count) := klog_snapshot st kbuf max_entries in
            let '(fine, out) :=
              getklog_copy (Z.to_nat count) ok (mem b) buf_addr 0 [] in
            if fine then (st, count, out) else (st, -1, out)
        end
  end
  end.

End Klog.

(** ** Sequences of operations *)

(** One call of [klog_printf_level], with what it finds around it. *)
Record call : Type := mkCall {
  c_env : env;
  c_level : Z;
  c_fmt : list Z;
  c_ap : va_list
}.

Definition record (NCPU : Z) (st : kstate) (c : call) : kstate :=
  klog_printf_level NCPU st (c_env c) (c_level c) (c_fmt c) (c_ap c).

(** The state after the calls, in call order. *)
Definition run (NCPU : Z) (st : kstate) (calls : list call) : kstate :=
  fold_left (record NCPU) calls st.

(** The record a call produces: the entry found, right after the call, in
    the slot the call wrote.  A call on a CPU number outside the table
    produces none. *)
Definition stamped (NCPU : Z) (st : kstate) (c : call) : option klog_entry :=
  let cpu_id := cpuid (c_env c) in
  if (cpu_id <? 0) || (cpu_id >=? NCPU) then None
  else
    Some (entries (cpu_logs (record NCPU st c) cpu_id)
                  (head (cpu_logs st cpu_id) mod KLOG_BUF_SIZE)).

(** The records produced by the calls, in call order. *)
Fixpoint produced (NCPU : Z) (st : kstate) (calls : list call) : list klog_entry :=
  match calls with
  | [] => []
  | c :: calls' =>
      match stamped NCPU st c with
      | Some e => e :: produced NCPU (record NCPU st c) calls'
      | None => produced NCPU (record NCPU st c) calls'
      end
  end.

(** The operations of the subsystem. *)
Inductive op : Type :=
| OpRecord (c : call)
| OpSnapshot (buf : Z -> klog_entry) (max_entries : Z)
| OpClear
| OpGetDropped.

Definition apply_op (NCPU : Z) (st : kstate) (o : op) : kstate :=
  match o with
  | OpRecord c => record NCPU st c
  | OpSnapshot buf max_entries => fst (fst (klog_snapshot NCPU st buf max_entries))
  | OpClear => klog_clear NCPU st
  | OpGetDropped => fst (klog_get_dropped NCPU st)
  end.

(** ** The rendering the specification describes

    The template is rendered against the arguments with four substitutions:
    integer, hexadecimal with prefix, text, and a literal percent sign; an
    unrecognized directive is copied through.  Nothing bounds the length
    here. *)

Module Render.

(** The digits of [n > 0] in base [base], most significant first. *)
Fixpoint positional (fuel : nat) (base : Z) (glyph : Z -> Z) (n : Z)
    (suffix : list Z) : list Z :=
  match fuel with
  | O => suffix
  | Datatypes.S fuel' =>
      if n <=? 0 then suffix
      else positional fuel' base glyph (n / base) (glyph (n mod base) :: suffix)
  end.

Definition numeral (base : Z) (glyph : Z -> Z) (n : Z) : list Z :=
  if n =? 0 then [glyph 0]
  else positional (Datatypes.S (Z.to_nat (Z.log2 n))) base glyph n [].

Definition dec_glyph (d : Z) : Z := ch "0" + d.
Definition hex_glyph (d : Z) : Z := if d <? 10 then ch "0" + d else ch "a" + (d - 10).

Definition integer (v : Z) : list Z :=
  if v <? 0 then ch "-" :: numeral 10 dec_glyph (- v) else numeral 10 dec_glyph v.

Definition hexadecimal (v : Z) : list Z :=
  ch "0" :: ch "x" :: numeral 16 hex_glyph v.

(** The characters of a C string: those before the first zero. *)
Fixpoint text (s : list Z) : list Z :=
  match s with
  | [] => []
  | c :: s' => if c =? 0 then [] else c :: text s'
  end.

Definition text_of (a : varg) : list Z :=
  if word a =? 0 then cstr "(null)" else text (pointee a).

Fixpoint render (fmt : list Z) (ap : va_list) : list Z :=
  match fmt with
  | [] => []
  | c :: fmt1 =>
      if c =? 0 then []
      else if negb (c =? ch "%") then c :: render fmt1 ap
      else
        match fmt1 with
        | [] => []
        | d :: fmt2 =>
            if d =? 0 then []
            else if d =? ch "d" then
              integer (s32 (word (ap 0%nat))) ++ render fmt2 (va_next ap)
            else if d =? ch "x" then
              hexadecimal (word (ap 0%nat)) ++ render fmt2 (va_next ap)
            else if d =? ch "s" then
              text_of (ap 0%nat) ++ render fmt2 (va_next ap)
            else if d =? ch "%" then ch "%" :: render fmt2 ap
            else ch "%" :: d :: render fmt2 ap
        end
  end.

(** Whether a hexadecimal directive of the template begins exactly when
    [pos] characters have been rendered. *)
Fixpoint hex_at (pos : Z) (fmt : list Z) (ap : va_list) : bool :=
  match fmt with
  | [] => false
  | c :: fmt1 =>
      if c =? 0 then false
      else if negb (c =? ch "%") then hex_at (pos - 1) fmt1 ap
      else
        match fmt1 with
        | [] => false
        | d :: fmt2 =>
            if d =? 0 then false
            else if d =? ch "d" then
              hex_at (pos - Z.of_nat (List.length (integer (s32 (word (ap 0%nat))))))
                     fmt2 (va_next ap)
            else if d =? ch "x" then
              (pos =? 0)
              || hex_at (pos - Z.of_nat (List.length (hexadecimal (word (ap 0%nat)))))
                        fmt2 (va_next ap)
            else if d =? ch "s" then
              hex_at (pos - Z.of_nat (List.length (text_of (ap 0%nat))))
                     fmt2 (va_next ap)
            else if d =? ch "%" then hex_at (pos - 1) fmt2 ap
            else hex_at (pos - 2) fmt2 ap
        end
  end.

(** Whether an integer directive of the template is given the least
    [int]. *)
Fixpoint int_min_arg (fmt : list Z) (ap : va_list) : bool :=
  match fmt with
  | [] => false
  | c :: fmt1 =>
      if c =? 0 then false
      else if negb (c =? ch "%") then int_min_arg fmt1 ap
      else
        match fmt1 with
        | [] => false
        | d :: fmt2 =>
            if d =? 0 then false
            else if d =? ch "d" then
              (s32 (word (ap 0%nat)) =? - 2 ^ 31) || int_min_arg fmt2 (va_next ap)
            else if (d =? ch "x") || (d =? ch "s") then
              int_min_arg fmt2 (va_next ap)
            else int_min_arg fmt2 ap
        end
  end.

End Render.

(** ** Concrete states and calls *)

Module Ex.

Definition NCPU : Z := 8.
Definition PGSIZE : Z := 4096.

Definition zero_entry : klog_entry := mkEntry 0 0 0 0 0 0 (fun _ => 0).

Definition blank_buf : klog_cpu_buf := mkBuf initlock (fun _ => zero_entry) 0 0.

(** Memory before [klog_init]. *)
Definition boot : kstate := mkState (fun _ => blank_buf) 0 initlock.

Definition no_args : va_list := fun _ => mkArg 0 [].
Definition args_of (l : list varg) : va_list := fun n => nth n l (mkArg 0 []).

Definition on_cpu (c : Z) : env := mkEnv c None 0 0 (fun _ => 0).

Definition say (c : Z) (text : string) : call :=
  mkCall (on_cpu c) KLOG_INFO (cstr text) no_args.

(** 300 calls on CPU 0. *)
Definition calls300 : list call := repeat (say 0 "tick") 300.

(** Ten records on CPU 0, then ten on CPU 1. *)
Definition two_cores : kstate :=
  run NCPU boot (repeat (say 0 "zero") 10 ++ repeat (say 1 "one") 10).

(** Ten records on CPU 1 first, then ten on CPU 0. *)
Definition two_cores' : kstate :=
  run NCPU boot (repeat (say 1 "one") 10 ++ repeat (say 0 "zero") 10).

Definition a62 : string :=
  "aaaaaaaaaaaaaaaaaaaaaaaaaaaaaaaaaaaaaaaaaaaaaaaaaaaaaaaaaaaaaa".

Definition b80 : string :=
  "01234567890123456789012345678901234567890123456789012345678901234567890123456789".

(** Three calls on two CPUs. *)
Definition calls3 : list call := [say 0 "a"; say 1 "b"; say 0 "c"].

(** Records that overwrite, then a snapshot, a clear and a drop count. *)
Definition busy : list op :=
  map OpRecord calls300
  ++ [OpSnapshot (fun _ => zero_entry) 64; OpClear; OpGetDropped;
      OpRecord (say 1 "again")].

Definition all_ok : Z -> Z -> bool := fun _ _ => true.

(** A call whose text argument is 80 characters long. *)
Definition long_fmt : list Z := cstr "pid %d says %s".
Definition long_args : va_list := args_of [mkArg 1234 []; mkArg 4096 (cstr b80)].

End Ex.


(** ** Notions used in the statements *)

(** Two arrays with the same first [n] cells. *)
Definition agree {A : Type} (n : Z) (f g : Z -> A) : Prop :=
  forall k, 0 <= k < n -> f k = g k.

(** The ring of a CPU: cursor, drop counter and stored entries. *)
Definition same_ring (l l' : klog_cpu_buf) : Prop :=
  head l' = head l /\ dropped l' = dropped l /\ entries l' = entries l.

Definition same_rings (st st' : kstate) : Prop :=
  forall c, same_ring (cpu_logs st c) (cpu_logs st' c).

(** First position the snapshot copies from a ring. *)
Definition window_start (l : klog_cpu_buf) : Z :=
  if head l >? KLOG_BUF_SIZE then u32 (head l - KLOG_BUF_SIZE) else 0.

(** The loop over the CPUs in [klog_snapshot]. *)
Definition collect (NCPU : Z) (st : kstate) (b : traced klog_entry) (max : Z)
  : kstate * traced klog_entry * Z :=
  for_range 0 NCPU (snapshot_cpu max) (st, b, 0).

(** The effect of one step of the sort on the cells. *)
Definition bubble (j : Z) (a : Z -> klog_entry) : Z -> klog_entry :=
  if seq (a j) >? seq (a (j + 1))
  then upd (upd a j (a (j + 1))) (j + 1) (a j)
  else a.

(** Ascending sequence numbers. *)
Definition seq_le (x y : klog_entry) : Prop := seq x <= seq y.

(** The entries of a ring the snapshot regards as valid, oldest first. *)
Definition valid_entries (l : klog_cpu_buf) : list klog_entry :=
  map (fun k => entries l ((window_start l + Z.of_nat k) mod KLOG_BUF_SIZE))
      (List.seq 0 (Z.to_nat (head l - window_start l))).

(** The valid entries of all CPUs in CPU order, cut at the budget. *)
Definition budgeted (NCPU : Z) (st : kstate) (max : Z) : list klog_entry :=
  firstn (Z.to_nat max)
         (flat_map (fun c => valid_entries (cpu_logs st (Z.of_nat c)))
                   (List.seq 0 (Z.to_nat NCPU))).

(** The passes of the sort, seen on the cells alone. *)
Definition pass_cells (count i : Z) (a : Z -> klog_entry) : Z -> klog_entry :=
  for_range 0 (u32 (count - i - 1)) bubble a.

Definition sort_cells (count : Z) (a : Z -> klog_entry) : Z -> klog_entry :=
  for_range 0 (u32 (count - 1)) (pass_cells count) a.

(** Adjacent cells of [a] below [n] are in ascending sequence order. *)
Definition ascending (n : Z) (a : Z -> klog_entry) : Prop :=
  forall k, 0 <= k -> k + 1 < n -> seq (a k) <= seq (a (k + 1)).

(** The CPU numbers of the table. *)
Definition valid_cpu (NCPU : Z) (c : Z) : Prop := 0 <= c < NCPU.

(** No CPU of the table has counted a drop. *)
Definition no_drops (NCPU : Z) (st : kstate) : Prop :=
  forall c, valid_cpu NCPU c -> dropped (cpu_logs st c) = 0.

(** The states reached from [klog_init] by the operations. *)
Definition reached (NCPU : Z) (st0 : kstate) (e : env) (ap : va_list)
    (ops : list op) : kstate :=
  fold_left (apply_op NCPU) ops (klog_init NCPU st0 e ap).

(** Every access to the traced array fell below [n]. *)
Definition within {A : Type} (n : Z) (b : traced A) : Prop :=
  forall x, In x (acc b) -> 0 <= x < n.

(** Records as they are delivered: the [k]-th of the first [m] cells of [a],
    as bytes, at the address [base k]. *)
Definition wire_records (base : Z -> Z) (a : Z -> klog_entry) (m : nat)
  : list delivery :=
  map (fun k => (base (Z.of_nat k), bytes_of_entry (a (Z.of_nat k)))) (List.seq 0 m).

(** The number of entries [sys_getklog] asks of the snapshot. *)
Definition effective_max (PGSIZE max_entries : Z) : Z :=
  let max_fit := s32 (u32 PGSIZE / sizeof_klog_entry) in
  if max_entries >? max_fit then max_fit else max_entries.

(** The user address of the [k]-th record in [sys_getklog]. *)
Definition getklog_addr (buf_addr k : Z) : Z :=
  u32 (u32 buf_addr + u32 (k * sizeof_klog_entry)).

(** The conditions under which the query is refused or cannot deliver. *)
Definition getklog_fails (NCPU PGSIZE : Z) (st : kstate) (buf_addr max_entries sz : Z)
    (page : option (Z -> klog_entry)) (ok : Z -> Z -> bool) : Prop :=
  max_entries <= 0
  \/ 1024 < max_entries
  \/ ~ (0 <= buf_addr /\ buf_addr + max_entries * sizeof_klog_entry <= sz)
  \/ page = None
  \/ exists kbuf k,
       page = Some kbuf
       /\ 0 <= k < snd (klog_snapshot NCPU st kbuf (effective_max PGSIZE max_entries))
       /\ ok (getklog_addr buf_addr k) sizeof_klog_entry = false.

(** The arguments [sys_getklog] accepts: a positive count up to the ceiling,
    and a destination for that many records inside the process. *)
Definition getklog_accepts (buf_addr max_entries sz : Z) : Prop :=
  0 < max_entries <= 1024
  /\ 0 <= buf_addr
  /\ buf_addr + max_entries * sizeof_klog_entry <= sz.

(** The ring [l] holds the records [rs] appended to it since it was empty:
    the cursor counts them, and the record appended at position [p] lies in
    slot [p mod KLOG_BUF_SIZE] for the last [KLOG_BUF_SIZE] positions. *)
Definition ring_holds (l : klog_cpu_buf) (rs : list klog_entry) (d : klog_entry)
  : Prop :=
  head l = Z.of_nat (List.length rs)
  /\ forall p, Z.max 0 (head l - KLOG_BUF_SIZE) <= p < head l ->
               entries l (p mod KLOG_BUF_SIZE) = nth (Z.to_nat p) rs d.

(** The words of the argument area are [uint]s. *)
Definition uint_args (ap : va_list) : Prop :=
  forall n, 0 <= word (ap n) < 2 ^ 32.

(** From the buffer [a] with fill index [i], the text [P] was written up to
    the last visible cell, giving [a'] and [i']: the cells below [i] are
    kept, those from [i] to [i'] (below 63) hold [P], and [P] was written
    whole unless the index reached 63. *)
Definition wrote (a : Z -> Z) (i : Z) (P : list Z) (a' : Z -> Z) (i' : Z) : Prop :=
  i <= i' <= 64
  /\ (forall x, x < i -> a' x = a x)
  /\ (forall x, i <= x < Z.min i' 63 -> a' x = nth (Z.to_nat (x - i)) P 0)
  /\ (i' < 63 -> i' - i = Z.of_nat (List.length P))
  /\ (63 <= i' -> 63 - i <= Z.of_nat (List.length P)).

(** A character other than the terminator. *)
Definition nonzero (c : Z) : Prop := c <> 0.

(** ** Further notions and inputs *)

(** The sum of the drop counters of the CPUs [0 .. n-1]. *)
Definition dropped_sum (st : kstate) (n : nat) : Z :=
  fold_right (fun c total => dropped (cpu_logs st (Z.of_nat c)) + total) 0
             (List.seq 0 n).

Module Ex2.

(** A log whose sequence counter is at its last value. *)
Definition near_wrap : kstate :=
  mkState (fun _ => Ex.blank_buf) (2 ^ 32 - 1) initlock.


(** A call with one decimal argument. *)
Definition pid_fmt : list Z := cstr "pid %d".
Definition pid_args : va_list := Ex.args_of [mkArg 1234 []].

End Ex2.

(** A template whose directives are all among [%d], [%x], [%s] and [%%]. *)
Fixpoint known_directives (fmt : list Z) : bool :=
  match fmt with
  | [] => true
  | c :: fmt1 =>
      if c =? 0 then true
      else if negb (c =? ch "%") then known_directives fmt1
      else
        match fmt1 with
        | [] => true
        | d :: fmt2 =>
            if d =? 0 then true
            else if (d =? ch "d") || (d =? ch "x") || (d =? ch "s") || (d =? ch "%")
                 then known_directives fmt2
                 else false
        end
  end.

(** The accesses of [b'] that [b] had not made lie between [lo] and [hi]. *)
Definition touched {A : Type} (b b' : traced A) (lo hi : Z) : Prop :=
  forall x, In x (acc b') -> In x (acc b) \/ lo <= x <= hi.



(** * Properties *)

(** ** Integers, arrays, loops *)

Lemma u32_small (z : Z) : 0 <= z < 2 ^ 32 -> u32 z = z.
Proof. intros H. unfold u32. apply Z.mod_small. exact H. Qed.

Lemma s32_small (z : Z) : - 2 ^ 31 <= z < 2 ^ 31 -> s32 z = z.
Proof. intros H. unfold s32. rewrite Z.mod_small; lia. Qed.

Lemma u32_range (z : Z) : 0 <= u32 z < 2 ^ 32.
Proof. unfold u32. apply Z.mod_pos_bound. lia. Qed.

Lemma u32_le (z : Z) : 0 <= z -> u32 z <= z.
Proof. intros H. unfold u32. apply Z.mod_le; lia. Qed.

Lemma upd_same {A : Type} (a : Z -> A) (k : Z) (v : A) : upd a k v k = v.
Proof. unfold upd. now rewrite Z.eqb_refl. Qed.

Lemma upd_other {A : Type} (a : Z -> A) (k x : Z) (v : A) :
  x <> k -> upd a k v x = a x.
Proof. intros H. unfold upd. apply Z.eqb_neq in H. now rewrite H. Qed.

Lemma loop_from_succ {S : Type} (n : nat) (i : Z) (body : Z -> S -> S) (s : S) :
  loop_from (Datatypes.S n) i body s = loop_from n (i + 1) body (body i s).
Proof. reflexivity. Qed.

(** An invariant indexed by the loop counter is carried through the loop. *)
Lemma loop_from_inv {S : Type} (P : Z -> S -> Prop) (body : Z -> S -> S) :
  forall (n : nat) (lo : Z) (s : S),
    P lo s ->
    (forall i s, lo <= i < lo + Z.of_nat n -> P i s -> P (i + 1) (body i s)) ->
    P (lo + Z.of_nat n) (loop_from n lo body s).
Proof.
  induction n as [|n IH]; intros lo s H0 Hstep.
  - simpl. now rewrite Z.add_0_r.
  - rewrite loop_from_succ.
    replace (lo + Z.of_nat (Datatypes.S n)) with ((lo + 1) + Z.of_nat n) by lia.
    apply IH.
    + apply Hstep; [lia | exact H0].
    + intros i s' Hi. apply Hstep. lia.
Qed.

(** The same for an invariant that does not mention the counter. *)
Lemma loop_from_keeps {S : Type} (P : S -> Prop) (body : Z -> S -> S) :
  forall (n : nat) (lo : Z) (s : S),
    P s ->
    (forall i s, lo <= i < lo + Z.of_nat n -> P s -> P (body i s)) ->
    P (loop_from n lo body s).
Proof.
  intros n lo s H0 Hstep.
  apply (loop_from_inv (fun _ => P) body n lo s H0 Hstep).
Qed.

Lemma for_range_keeps {S : Type} (P : S -> Prop) (body : Z -> S -> S)
    (lo hi : Z) (s : S) :
  P s ->
  (forall i s, lo <= i < hi -> P s -> P (body i s)) ->
  P (for_range lo hi body s).
Proof.
  intros H0 Hstep. unfold for_range. apply loop_from_keeps; [exact H0|].
  intros i s' Hi. apply Hstep. lia.
Qed.

(** Two loops run side by side keep a relation between their states. *)
Lemma loop_from_rel {S T : Type} (R : S -> T -> Prop)
    (body1 : Z -> S -> S) (body2 : Z -> T -> T) :
  forall (n : nat) (lo : Z) (s : S) (t : T),
    R s t ->
    (forall i s t, lo <= i < lo + Z.of_nat n -> R s t -> R (body1 i s) (body2 i t)) ->
    R (loop_from n lo body1 s) (loop_from n lo body2 t).
Proof.
  induction n as [|n IH]; intros lo s t H0 Hstep; [exact H0|].
  rewrite !loop_from_succ. apply IH.
  - apply Hstep; [lia | exact H0].
  - intros i s' t' Hi. apply Hstep. lia.
Qed.

Lemma agree_slice {A : Type} (n : nat) (f g : Z -> A) :
  agree (Z.of_nat n) f g -> slice f 0 n = slice g 0 n.
Proof.
  intros H. unfold slice. apply map_ext_in. intros k Hk.
  apply in_seq in Hk. apply H. lia.
Qed.

Lemma slice_length {A : Type} (a : Z -> A) (lo : Z) (n : nat) :
  List.length (slice a lo n) = n.
Proof. unfold slice. now rewrite length_map, length_seq. Qed.

Lemma slice_nth {A : Type} (a : Z -> A) (lo : Z) (n k : nat) (d : A) :
  (k < n)%nat -> nth k (slice a lo n) d = a (lo + Z.of_nat k).
Proof.
  intros H. unfold slice.
  rewrite (nth_indep _ d (a (lo + Z.of_nat 0))) by (now rewrite length_map, length_seq).
  rewrite (map_nth (fun k => a (lo + Z.of_nat k))).
  now rewrite seq_nth.
Qed.

(** ** What the snapshot leaves alone *)

Lemma same_ring_refl (l : klog_cpu_buf) : same_ring l l.
Proof. now repeat split. Qed.

Lemma same_rings_refl (st : kstate) : same_rings st st.
Proof. intros c. apply same_ring_refl. Qed.

Lemma same_rings_trans (a b c : kstate) :
  same_rings a b -> same_rings b c -> same_rings a c.
Proof.
  intros H1 H2 k. destruct (H1 k) as (h1 & d1 & e1), (H2 k) as (h2 & d2 & e2).
  repeat split; congruence.
Qed.

Lemma same_rings_sym (a b : kstate) : same_rings a b -> same_rings b a.
Proof.
  intros H k. destruct (H k) as (h & d & e). repeat split; congruence.
Qed.

Lemma set_cpu_lock_rings (st : kstate) (c : Z) (l : klog_cpu_buf) (k : spinlock) :
  same_ring (cpu_logs st c) l ->
  same_rings st (set_cpu st c (set_lock l k)).
Proof.
  intros (h & d & e) x. unfold set_cpu, upd; simpl.
  destruct (x =? c) eqn:E.
  - apply Z.eqb_eq in E. subst x. now repeat split.
  - apply same_ring_refl.
Qed.

Lemma for_range_rel {S T : Type} (R : S -> T -> Prop)
    (body1 : Z -> S -> S) (body2 : Z -> T -> T) (lo hi : Z) (s : S) (t : T) :
  R s t ->
  (forall i s t, lo <= i < hi -> R s t -> R (body1 i s) (body2 i t)) ->
  R (for_range lo hi body1 s) (for_range lo hi body2 t).
Proof.
  intros H0 Hstep. unfold for_range. apply loop_from_rel; [exact H0|].
  intros i s' t' Hi. apply Hstep. lia.
Qed.

Lemma for_range_inv {S : Type} (P : Z -> S -> Prop) (body : Z -> S -> S)
    (lo hi : Z) (s : S) :
  lo <= hi ->
  P lo s ->
  (forall i s, lo <= i < hi -> P i s -> P (i + 1) (body i s)) ->
  P hi (for_range lo hi body s).
Proof.
  intros Hle H0 Hstep. unfold for_range.
  replace hi with (lo + Z.of_nat (Z.to_nat (hi - lo))) at 1 by lia.
  apply loop_from_inv; [exact H0|].
  intros i s' Hi. apply Hstep. lia.
Qed.

Lemma cpu_logs_set_cpu (st : kstate) (c : Z) (l : klog_cpu_buf) :
  cpu_logs (set_cpu st c l) c = l.
Proof. unfold set_cpu; simpl. apply upd_same. Qed.

Lemma cpu_logs_set_cpu_other (st : kstate) (c x : Z) (l : klog_cpu_buf) :
  x <> c -> cpu_logs (set_cpu st c l) x = cpu_logs st x.
Proof. intros H. unfold set_cpu; simpl. now apply upd_other. Qed.

(** *** The copy phase of the snapshot *)

Lemma copy_entries_ext (n : nat) :
  forall i l l' max b count,
    entries l = entries l' ->
    copy_entries n i l max b count = copy_entries n i l' max b count.
Proof.
  induction n as [|n IH]; intros i l l' max b count E; simpl; [reflexivity|].
  destruct (count <? max); [|reflexivity].
  rewrite E. now apply IH.
Qed.

(** [snapshot_cpu] copies from the ring as it found it, and leaves the rings
    as they were. *)
Lemma snapshot_cpu_spec (max c : Z) (st : kstate) (b : traced klog_entry)
    (count : Z) :
  exists st',
    snapshot_cpu max c (st, b, count)
    = (st',
       fst (copy_entries
              (Z.to_nat (head (cpu_logs st c) - window_start (cpu_logs st c)))
              (window_start (cpu_logs st c)) (cpu_logs st c) max b count),
       snd (copy_entries
              (Z.to_nat (head (cpu_logs st c) - window_start (cpu_logs st c)))
              (window_start (cpu_logs st c)) (cpu_logs st c) max b count))
    /\ same_rings st st'
    /\ (forall x, x <> c -> cpu_logs st' x = cpu_logs st x).
Proof.
  unfold snapshot_cpu, window_start. cbv zeta.
  rewrite !cpu_logs_set_cpu.
  set (l := cpu_logs st c).
  set (st1 := set_cpu st c (set_lock l (acquire (lock l)))).
  assert (R1 : same_rings st st1).
  { apply set_cpu_lock_rings. apply same_ring_refl. }
  change (head (set_lock l (acquire (lock l)))) with (head l).
  assert (Hfin : forall k,
             same_rings st (set_cpu st1 c (set_lock (set_lock l (acquire (lock l))) k))
             /\ (forall x, x <> c ->
                   cpu_logs (set_cpu st1 c (set_lock (set_lock l (acquire (lock l))) k)) x
                   = cpu_logs st x)).
  { intros k. split.
    - apply same_rings_trans with st1; [exact R1|].
      apply set_cpu_lock_rings. unfold st1. rewrite cpu_logs_set_cpu.
      now repeat split.
    - intros x Hx. unfold st1. now rewrite !cpu_logs_set_cpu_other. }
  destruct (head l >? KLOG_BUF_SIZE); cbv beta iota;
    rewrite (copy_entries_ext _ _ (set_lock l (acquire (lock l))) l max b count eq_refl);
    destruct (copy_entries _ _ l max b count) as [b' count'];
    (eexists; split; [reflexivity | apply Hfin]).
Qed.

Lemma copy_entries_count (n : nat) :
  forall i l max b count,
    count <= snd (copy_entries n i l max b count)
    /\ (count <= max -> snd (copy_entries n i l max b count) <= max).
Proof.
  induction n as [|n IH]; intros i l max b count; simpl; [lia|].
  destruct (count <? max) eqn:E; simpl; [|lia].
  apply Z.ltb_lt in E.
  specialize (IH (i + 1) l max (twrite b count (entries l (i mod KLOG_BUF_SIZE)))
                 (count + 1)).
  lia.
Qed.

(** Two runs of the copy loop over the same entries fill the same cells with
    the same records. *)
Lemma copy_entries_agree (n : nat) :
  forall i l max b1 b2 count,
    0 <= count ->
    agree count (mem b1) (mem b2) ->
    snd (copy_entries n i l max b1 count) = snd (copy_entries n i l max b2 count)
    /\ agree (snd (copy_entries n i l max b1 count))
             (mem (fst (copy_entries n i l max b1 count)))
             (mem (fst (copy_entries n i l max b2 count))).
Proof.
  induction n as [|n IH]; intros i l max b1 b2 count Hc Ha; simpl.
  - now split.
  - destruct (count <? max); simpl; [|now split].
    apply IH; [lia|].
    intros k Hk. unfold twrite; simpl. unfold upd.
    destruct (k =? count) eqn:E; [reflexivity|].
    apply Z.eqb_neq in E. apply Ha. lia.
Qed.

Section Snapshot.

Variable NCPU : Z.

Lemma klog_snapshot_collect (st : kstate) (buf : Z -> klog_entry) (max : Z) :
  klog_snapshot NCPU st buf max
  = (fst (fst (collect NCPU st (fresh buf) max)),
     bubble_sort (snd (collect NCPU st (fresh buf) max))
                 (snd (fst (collect NCPU st (fresh buf) max))),
     snd (collect NCPU st (fresh buf) max)).
Proof.
  unfold klog_snapshot, collect.
  now destruct (for_range 0 NCPU (snapshot_cpu max) (st, fresh buf, 0)) as [[s b] n].
Qed.

Lemma collect_rings (st : kstate) (b : traced klog_entry) (max : Z) :
  same_rings st (fst (fst (collect NCPU st b max))).
Proof.
  unfold collect.
  apply (for_range_keeps (fun s => same_rings st (fst (fst s)))).
  - apply same_rings_refl.
  - intros i [[s b'] n] _ H.
    destruct (snapshot_cpu_spec max i s b' n) as (s' & E & R & _).
    rewrite E. simpl in *. now apply same_rings_trans with s.
Qed.

Lemma collect_count (st : kstate) (b : traced klog_entry) (max : Z) :
  0 <= snd (collect NCPU st b max)
  /\ (0 <= max -> snd (collect NCPU st b max) <= max).
Proof.
  unfold collect.
  apply (for_range_keeps (fun s => 0 <= snd s /\ (0 <= max -> snd s <= max))).
  - simpl. lia.
  - intros i [[s b'] n] _ H.
    destruct (snapshot_cpu_spec max i s b' n) as (s' & E & R & _).
    rewrite E. simpl in *.
    pose proof (copy_entries_count
                  (Z.to_nat (head (cpu_logs s i) - window_start (cpu_logs s i)))
                  (window_start (cpu_logs s i)) (cpu_logs s i) max b' n).
    lia.
Qed.

(** Two runs of the loop over states with the same rings. *)
Lemma collect_agree (st1 st2 : kstate) (b1 b2 : traced klog_entry) (max : Z) :
  same_rings st1 st2 ->
  snd (collect NCPU st1 b1 max) = snd (collect NCPU st2 b2 max)
  /\ agree (snd (collect NCPU st1 b1 max))
           (mem (snd (fst (collect NCPU st1 b1 max))))
           (mem (snd (fst (collect NCPU st2 b2 max)))).
Proof.
  intros HR. unfold collect, for_range.
  pose (R := fun (s t : kstate * traced klog_entry * Z) =>
               same_rings (fst (fst s)) (fst (fst t))
               /\ snd s = snd t /\ 0 <= snd s
               /\ agree (snd s) (mem (snd (fst s))) (mem (snd (fst t)))).
  assert (H : R (loop_from (Z.to_nat (NCPU - 0)) 0 (snapshot_cpu max) (st1, b1, 0))
                (loop_from (Z.to_nat (NCPU - 0)) 0 (snapshot_cpu max) (st2, b2, 0))).
  { apply loop_from_rel.
    - unfold R; simpl. repeat split; try lia; try apply HR.
      intros k Hk. lia.
    - intros i [[s u] n] [[t v] m] _ (Hr & Hn & H0 & Ha).
      simpl in Hr, Hn, H0, Ha. subst m.
      destruct (snapshot_cpu_spec max i s u n) as (s' & E1 & R1 & _).
      destruct (snapshot_cpu_spec max i t v n) as (t' & E2 & R2 & _).
      rewrite E1, E2. unfold R; simpl.
      destruct (Hr i) as (Hh & _ & He).
      rewrite Hh.
      assert (Hw : window_start (cpu_logs t i) = window_start (cpu_logs s i)).
      { unfold window_start. now rewrite Hh. }
      rewrite Hw.
      rewrite (copy_entries_ext _ _ (cpu_logs t i) (cpu_logs s i) max v n He).
      set (k := Z.to_nat (head (cpu_logs s i) - window_start (cpu_logs s i))).
      set (w := window_start (cpu_logs s i)).
      destruct (copy_entries_agree k w (cpu_logs s i) max u v n H0 Ha) as (Hc & Hg).
      pose proof (copy_entries_count k w (cpu_logs s i) max u n) as Hle.
      split; [|split; [exact Hc | split; [lia | exact Hg]]].
      apply same_rings_trans with s; [now apply same_rings_sym|].
      apply same_rings_trans with t; assumption. }
  destruct H as (_ & Hn & _ & Ha). now split.
Qed.

End Snapshot.

(** ** The sort *)

Lemma slice_S {A : Type} (a : Z -> A) (lo : Z) (n : nat) :
  slice a lo (Datatypes.S n) = a lo :: slice a (lo + 1) n.
Proof.
  unfold slice. simpl. rewrite Z.add_0_r. f_equal.
  rewrite <- seq_shift, map_map. apply map_ext. intros k. f_equal. lia.
Qed.

Lemma slice_one {A : Type} (a : Z -> A) (lo : Z) : slice a lo 1 = [a lo].
Proof. now rewrite slice_S. Qed.

Lemma slice_app {A : Type} (a : Z -> A) (n m : nat) :
  forall lo, slice a lo (n + m) = slice a lo n ++ slice a (lo + Z.of_nat n) m.
Proof.
  induction n as [|n IH]; intros lo.
  - simpl. now rewrite Z.add_0_r.
  - change (Datatypes.S n + m)%nat with (Datatypes.S (n + m)).
    rewrite !slice_S, IH. simpl. do 3 f_equal. lia.
Qed.

Lemma slice_ext {A : Type} (a b : Z -> A) (lo : Z) (n : nat) :
  (forall k, lo <= k < lo + Z.of_nat n -> a k = b k) ->
  slice a lo n = slice b lo n.
Proof.
  intros H. unfold slice. apply map_ext_in. intros k Hk.
  apply in_seq in Hk. apply H. lia.
Qed.

Lemma slice_In {A : Type} (a : Z -> A) (lo : Z) (n : nat) (x : A) :
  In x (slice a lo n) <-> exists k, lo <= k < lo + Z.of_nat n /\ a k = x.
Proof.
  unfold slice. rewrite in_map_iff. split.
  - intros (k & E & Hk). apply in_seq in Hk. exists (lo + Z.of_nat k). split; [lia|exact E].
  - intros (k & Hk & E). exists (Z.to_nat (k - lo)). split.
    + rewrite <- E. f_equal. lia.
    + apply in_seq. lia.
Qed.

(** A step of the sort permutes the cells it is given. *)
Lemma bubble_perm (a : Z -> klog_entry) (j : Z) (L : nat) :
  0 <= j -> j + 1 < Z.of_nat L ->
  Permutation (slice a 0 L) (slice (bubble j a) 0 L).
Proof.
  intros H0 H1. unfold bubble.
  destruct (seq (a j) >? seq (a (j + 1))); [|apply Permutation_refl].
  set (a' := upd (upd a j (a (j + 1))) (j + 1) (a j)).
  replace L with (Z.to_nat j + Datatypes.S (Datatypes.S (L - Z.to_nat j - 2)))%nat by lia.
  rewrite !slice_app, !slice_S.
  replace (0 + Z.of_nat (Z.to_nat j)) with j by lia.
  assert (E1 : slice a' 0 (Z.to_nat j) = slice a 0 (Z.to_nat j)).
  { apply slice_ext. intros k Hk. unfold a'. rewrite !upd_other; [reflexivity|lia..]. }
  assert (E2 : forall n, slice a' (j + 1 + 1) n = slice a (j + 1 + 1) n).
  { intros n. apply slice_ext. intros k Hk. unfold a'.
    rewrite !upd_other; [reflexivity|lia..]. }
  rewrite E1, E2.
  assert (Ej : a' j = a (j + 1)).
  { unfold a'. rewrite upd_other by lia. apply upd_same. }
  assert (Ej1 : a' (j + 1) = a j).
  { unfold a'. apply upd_same. }
  rewrite Ej, Ej1.
  apply Permutation_app_head. apply perm_swap.
Qed.

(** One pass of the sort over the steps [0 .. m-1]: the largest sequence
    number of the cells [0 .. m] ends in cell [m], and nothing outside them
    changes. *)
Lemma pass_spec (a0 : Z -> klog_entry) (m : nat) :
  let a := loop_from m 0 bubble a0 in
  (forall L, (m < L)%nat -> Permutation (slice a0 0 L) (slice a 0 L))
  /\ (forall k, 0 <= k <= Z.of_nat m -> seq (a k) <= seq (a (Z.of_nat m)))
  /\ (forall k, k < 0 \/ Z.of_nat m < k -> a k = a0 k).
Proof.
  intros a. unfold a. clear a.
  pose (P := fun (j : Z) (a : Z -> klog_entry) =>
               (forall L, j < Z.of_nat L -> Permutation (slice a0 0 L) (slice a 0 L))
               /\ (forall k, 0 <= k <= j -> seq (a k) <= seq (a j))
               /\ (forall k, k < 0 \/ j < k -> a k = a0 k)).
  assert (H : P (0 + Z.of_nat m) (loop_from m 0 bubble a0)).
  { apply loop_from_inv.
    - unfold P. repeat split.
      + intros; apply Permutation_refl.
      + intros k Hk. replace k with 0 by lia. lia.
    - intros j a Hj (Hp & Hmax & Hfr). unfold P. repeat split.
      + intros L HL. eapply Permutation_trans; [apply Hp; lia|].
        apply bubble_perm; lia.
      + intros k Hk. unfold bubble.
        destruct (seq (a j) >? seq (a (j + 1))) eqn:E.
        * apply Z.gtb_lt in E. rewrite upd_same.
          destruct (Z.eq_dec k (j + 1)) as [->|N1]; [rewrite upd_same; lia|].
          rewrite upd_other by exact N1.
          destruct (Z.eq_dec k j) as [->|N2]; [rewrite upd_same; lia|].
          rewrite upd_other by exact N2. apply Hmax. lia.
        * assert (seq (a j) <= seq (a (j + 1))).
          { destruct (Z.gtb_spec (seq (a j)) (seq (a (j + 1)))); [discriminate|lia]. }
          destruct (Z.eq_dec k (j + 1)) as [->|N1]; [lia|].
          specialize (Hmax k). lia.
      + intros k Hk. rewrite <- Hfr by lia. unfold bubble.
        destruct (seq (a j) >? seq (a (j + 1))); [|reflexivity].
        rewrite !upd_other; [reflexivity|lia..]. }
  destruct H as (Hp & Hmax & Hfr). repeat split.
  - intros L HL. apply Hp. lia.
  - intros k Hk. apply Hmax. lia.
  - intros k Hk. apply Hfr. lia.
Qed.


(** The steps of the sort stay below [n] whenever [n] is at least 1. *)
Lemma sort_indices (n i j : Z) :
  1 <= n -> 0 <= i < u32 (n - 1) -> 0 <= j < u32 (n - i - 1) ->
  i < n - 1 /\ j + 1 < n.
Proof.
  intros Hn Hi Hj.
  pose proof (u32_le (n - 1)). pose proof (u32_le (n - i - 1)). lia.
Qed.

Lemma sort_step_mem (j : Z) (b : traced klog_entry) :
  mem (sort_step j b) = bubble j (mem b).
Proof.
  unfold sort_step, bubble, tread, twrite; simpl.
  now destruct (seq (mem b j) >? seq (mem b (j + 1))).
Qed.

Lemma sort_pass_mem (count i : Z) (b : traced klog_entry) :
  mem (sort_pass count i b) = pass_cells count i (mem b).
Proof.
  unfold sort_pass, pass_cells.
  apply (for_range_rel (fun (s : traced klog_entry) t => mem s = t)); [reflexivity|].
  intros j s t _ <-. apply sort_step_mem.
Qed.

Lemma bubble_sort_mem (count : Z) (b : traced klog_entry) :
  mem (bubble_sort count b) = sort_cells count (mem b).
Proof.
  unfold bubble_sort, sort_cells.
  apply (for_range_rel (fun (s : traced klog_entry) t => mem s = t)); [reflexivity|].
  intros j s t _ <-. apply sort_pass_mem.
Qed.

Lemma bubble_agree (n j : Z) (a1 a2 : Z -> klog_entry) :
  0 <= j -> j + 1 < n -> agree n a1 a2 -> agree n (bubble j a1) (bubble j a2).
Proof.
  intros H0 H1 Ha k Hk. unfold bubble.
  rewrite <- (Ha j), <- (Ha (j + 1)) by lia.
  destruct (seq (a1 j) >? seq (a1 (j + 1))); [|now apply Ha].
  unfold upd. destruct (k =? j + 1); [reflexivity|].
  destruct (k =? j); [reflexivity|]. now apply Ha.
Qed.

(** The sort of the first [n] cells depends on these cells only. *)
Lemma sort_cells_agree (n : Z) (a1 a2 : Z -> klog_entry) :
  agree n a1 a2 -> agree n (sort_cells n a1) (sort_cells n a2).
Proof.
  intros Ha. destruct (Z_lt_le_dec n 1) as [Hn|Hn].
  - intros k Hk. lia.
  - unfold sort_cells. apply (for_range_rel (agree n)); [exact Ha|].
    intros i s t Hi Hst. unfold pass_cells.
    apply (for_range_rel (agree n)); [exact Hst|].
    intros j s' t' Hj Hst'.
    destruct (sort_indices n i j Hn Hi Hj).
    apply bubble_agree; [lia | lia | exact Hst'].
Qed.

(** Cells already in ascending order are left as they are. *)
Lemma sort_cells_ascending (n : Z) (a : Z -> klog_entry) :
  1 <= n -> ascending n a -> sort_cells n a = a.
Proof.
  intros Hn Hs. unfold sort_cells.
  apply (for_range_keeps (fun s => s = a)); [reflexivity|].
  intros i s Hi ->. unfold pass_cells.
  apply (for_range_keeps (fun s => s = a)); [reflexivity|].
  intros j s Hj ->.
  destruct (sort_indices n i j Hn Hi Hj).
  unfold bubble.
  destruct (Z.gtb_spec (seq (a j)) (seq (a (j + 1)))) as [G|G]; [|reflexivity].
  specialize (Hs j). lia.
Qed.

(** The sort puts the first [n] cells in ascending order of sequence number,
    keeps what they hold, and changes nothing else. *)
Lemma sort_cells_spec (n : nat) (a0 : Z -> klog_entry) :
  (1 <= n)%nat -> Z.of_nat n <= 2 ^ 32 ->
  Permutation (slice a0 0 n) (slice (sort_cells (Z.of_nat n) a0) 0 n)
  /\ ascending (Z.of_nat n) (sort_cells (Z.of_nat n) a0)
  /\ (forall k, k < 0 \/ Z.of_nat n <= k -> sort_cells (Z.of_nat n) a0 k = a0 k).
Proof.
  intros Hn Hb. set (N := Z.of_nat n).
  pose (Q := fun (i : Z) (a : Z -> klog_entry) =>
               Permutation (slice a0 0 n) (slice a 0 n)
               /\ (forall k, N - i <= k -> k + 1 < N -> seq (a k) <= seq (a (k + 1)))
               /\ (forall k k2, 0 <= k < N - i -> N - i <= k2 < N ->
                                seq (a k) <= seq (a k2))
               /\ (forall k, k < 0 \/ N <= k -> a k = a0 k)).
  assert (HM : u32 (N - 1) = N - 1) by (apply u32_small; lia).
  assert (H : Q (u32 (N - 1)) (sort_cells N a0)).
  { unfold sort_cells. apply for_range_inv.
    - rewrite HM. lia.
    - unfold Q. repeat split.
      + apply Permutation_refl.
      + intros; lia.
      + intros; lia.
    - intros i a Hi (Hp & Hs & Hlow & Hfr). rewrite HM in Hi.
      unfold pass_cells, for_range.
      assert (Hm : u32 (N - i - 1) = N - i - 1) by (apply u32_small; lia).
      rewrite Hm, Z.sub_0_r.
      set (m := Z.to_nat (N - i - 1)).
      destruct (pass_spec a m) as (Pp & Pmax & Pfr).
      set (a' := loop_from m 0 bubble a) in *.
      assert (Em : Z.of_nat m = N - i - 1) by (unfold m; lia).
      rewrite Em in *.
      assert (Hin : forall k, 0 <= k <= N - i - 1 ->
                      exists k', 0 <= k' <= N - i - 1 /\ a' k = a k').
      { intros k Hk.
        assert (I : In (a' k) (slice a' 0 (Datatypes.S m))).
        { apply slice_In. exists k. split; [lia|reflexivity]. }
        apply (Permutation_in _ (Permutation_sym (Pp (Datatypes.S m) (Nat.lt_succ_diag_r m)))) in I.
        apply slice_In in I. destruct I as (k' & Hk' & E).
        exists k'. split; [lia|now symmetry]. }
      unfold Q. repeat split.
      + eapply Permutation_trans; [exact Hp|]. apply Pp. unfold m. lia.
      + intros k Hk1 Hk2.
        destruct (Z.eq_dec k (N - i - 1)) as [->|Nk].
        * rewrite (Pfr (N - i - 1 + 1)) by lia.
          destruct (Hin (N - i - 1)) as (k' & Hk' & ->); [lia|].
          apply Hlow; lia.
        * rewrite (Pfr k), (Pfr (k + 1)) by lia. apply Hs; lia.
      + intros k k2 Hk Hk2.
        destruct (Z.eq_dec k2 (N - i - 1)) as [->|Nk].
        * apply Pmax. lia.
        * rewrite (Pfr k2) by lia.
          destruct (Hin k) as (k' & Hk' & ->); [lia|].
          apply Hlow; lia.
      + intros k Hk. rewrite Pfr by lia. apply Hfr. exact Hk. }
  rewrite HM in H. destruct H as (Hp & Hs & Hlow & Hfr).
  repeat split; [exact Hp | | exact Hfr].
  intros k Hk0 Hk1.
  destruct (Z.eq_dec k 0) as [->|Nk].
  - apply Hlow; lia.
  - apply Hs; lia.
Qed.

(** Ascending cells make a sorted list. *)
Lemma ascending_sorted (a : Z -> klog_entry) (n : nat) :
  forall lo,
    (forall k, lo <= k -> k + 1 < lo + Z.of_nat n -> seq (a k) <= seq (a (k + 1))) ->
    Sorted seq_le (slice a lo n).
Proof.
  induction n as [|n IH]; intros lo H.
  - constructor.
  - rewrite slice_S. constructor.
    + apply IH. intros k Hk1 Hk2. apply H; lia.
    + destruct n as [|n]; [constructor|].
      rewrite slice_S. constructor. unfold seq_le. apply H; lia.
Qed.

(** ** The snapshot is read-only *)

Section ReadOnly.

Variable NCPU : Z.

(** C6.  A call of [klog_snapshot] that returns at least one record changes
    no CPU's cursor, drop counter or stored entries; and a second call right
    after it, with the same [max_entries] (into any destination), returns
    the same count and the same records in the same order.  (A call that
    finds no record to return is the input of C9, where the sort leaves the
    destination.) *)
Theorem snapshot_read_only (st : kstate) (buf buf' : Z -> klog_entry) (max : Z) :
  1 <= snd (klog_snapshot NCPU st buf max) ->
  let r1 := klog_snapshot NCPU st buf max in
  let r2 := klog_snapshot NCPU (fst (fst r1)) buf' max in
  (forall c,
      head (cpu_logs (fst (fst r1)) c) = head (cpu_logs st c)
      /\ dropped (cpu_logs (fst (fst r1)) c) = dropped (cpu_logs st c)
      /\ forall idx, entries (cpu_logs (fst (fst r1)) c) idx
                     = entries (cpu_logs st c) idx)
  /\ snd r2 = snd r1
  /\ slice (mem (snd (fst r2))) 0 (Z.to_nat (snd r2))
     = slice (mem (snd (fst r1))) 0 (Z.to_nat (snd r1)).
Proof.
  intros _ r1 r2. unfold r2, r1. clear r1 r2.
  rewrite (klog_snapshot_collect NCPU st buf max). cbn [fst snd].
  rewrite klog_snapshot_collect. cbn [fst snd].
  pose proof (collect_rings NCPU st (fresh buf) max) as HR.
  set (st1 := fst (fst (collect NCPU st (fresh buf) max))) in *.
  destruct (collect_agree NCPU st1 st (fresh buf') (fresh buf) max
                          (same_rings_sym _ _ HR)) as (Hn & Ha).
  pose proof (collect_count NCPU st (fresh buf) max) as (Hc & _).
  split; [|split].
  - intros c. destruct (HR c) as (h & d & e). repeat split; try assumption.
    intros idx. now rewrite e.
  - exact Hn.
  - rewrite Hn. rewrite !bubble_sort_mem.
    apply agree_slice. rewrite Z2Nat.id by exact Hc.
    apply sort_cells_agree. rewrite <- Hn. exact Ha.
Qed.

End ReadOnly.

(** ** What the snapshot collects *)

Lemma firstn_firstn_app {A : Type} (m : nat) (F V : list A) :
  firstn m (firstn m F ++ V) = firstn m (F ++ V).
Proof.
  destruct (Nat.le_gt_cases (List.length F) m) as [H|H].
  - now rewrite (firstn_all2 F) by exact H.
  - rewrite !firstn_app, length_firstn.
    replace (Nat.min m (List.length F)) with m by lia.
    replace (m - List.length F)%nat with 0%nat by lia.
    rewrite Nat.sub_diag. simpl. rewrite !app_nil_r.
    rewrite firstn_firstn. now rewrite Nat.min_id.
Qed.

(** The copy loop appends the entries it visits to what the destination
    holds, up to the budget. *)
Lemma copy_entries_list (n : nat) :
  forall i l max b count L,
    0 <= count -> (count <= max \/ count = 0) ->
    List.length L = Z.to_nat count ->
    slice (mem b) 0 (Z.to_nat count) = L ->
    let r := copy_entries n i l max b count in
    let L' := firstn (Z.to_nat max)
                (L ++ map (fun k => entries l ((i + Z.of_nat k) mod KLOG_BUF_SIZE))
                          (List.seq 0 n)) in
    slice (mem (fst r)) 0 (Z.to_nat (snd r)) = L'
    /\ snd r = Z.of_nat (List.length L').
Proof.
  induction n as [|n IH]; intros i l max b count L H0 Hm HL Hs; cbn zeta.
  - simpl. rewrite app_nil_r.
    assert (E : firstn (Z.to_nat max) L = L).
    { destruct Hm as [Hm|Hm].
      - apply firstn_all2. lia.
      - subst count. destruct L; [now rewrite firstn_nil|discriminate]. }
    rewrite E. split; [exact Hs|lia].
  - cbn [copy_entries].
    destruct (Z.ltb_spec count max) as [Hlt|Hge].
    + set (x := entries l (i mod KLOG_BUF_SIZE)).
      specialize (IH (i + 1) l max (twrite b count x) (count + 1) (L ++ [x])).
      cbn zeta in IH.
      replace (L ++ map (fun k => entries l ((i + Z.of_nat k) mod KLOG_BUF_SIZE))
                        (List.seq 0 (Datatypes.S n)))
        with ((L ++ [x]) ++ map (fun k => entries l ((i + 1 + Z.of_nat k) mod KLOG_BUF_SIZE))
                                (List.seq 0 n)).
      * apply IH; [lia | lia | rewrite length_app; simpl; lia |].
        replace (Z.to_nat (count + 1)) with (Z.to_nat count + 1)%nat by lia.
        rewrite slice_app. f_equal.
        -- rewrite <- Hs. apply slice_ext. intros k Hk.
           unfold twrite; simpl. apply upd_other. lia.
        -- rewrite slice_one.
           replace (0 + Z.of_nat (Z.to_nat count)) with count by lia.
           unfold twrite; cbn [mem]. now rewrite upd_same.
      * rewrite <- app_assoc. f_equal. simpl. f_equal.
        -- unfold x. f_equal. f_equal. lia.
        -- rewrite <- seq_shift, map_map. apply map_ext. intros k.
           f_equal. f_equal. lia.
    + cbn [fst snd].
      assert (E : firstn (Z.to_nat max)
                    (L ++ map (fun k => entries l ((i + Z.of_nat k) mod KLOG_BUF_SIZE))
                              (List.seq 0 (Datatypes.S n))) = L).
      { destruct Hm as [Hm|Hm].
        - rewrite firstn_app.
          replace (Z.to_nat max - List.length L)%nat with 0%nat by lia.
          rewrite firstn_all2 by lia. simpl. apply app_nil_r.
        - subst count. replace (Z.to_nat max) with 0%nat by lia.
          destruct L; [reflexivity|discriminate]. }
      rewrite E. split; [exact Hs|lia].
Qed.

Section Budget.

Variable NCPU : Z.

(** The copy phase yields the valid entries of the CPUs in CPU order, cut
    at [max_entries]. *)
Lemma collect_spec (st : kstate) (b : traced klog_entry) (max : Z) :
  let r := collect NCPU st b max in
  slice (mem (snd (fst r))) 0 (Z.to_nat (snd r)) = budgeted NCPU st max
  /\ snd r = Z.of_nat (List.length (budgeted NCPU st max)).
Proof.
  cbn zeta. unfold collect, for_range, budgeted.
  pose (F := fun (i : Z) =>
               flat_map (fun c => valid_entries (cpu_logs st (Z.of_nat c)))
                        (List.seq 0 (Z.to_nat i))).
  pose (P := fun (i : Z) (s : kstate * traced klog_entry * Z) =>
               same_rings st (fst (fst s))
               /\ 0 <= snd s /\ (snd s <= max \/ snd s = 0)
               /\ slice (mem (snd (fst s))) 0 (Z.to_nat (snd s))
                  = firstn (Z.to_nat max) (F i)
               /\ snd s = Z.of_nat (List.length (firstn (Z.to_nat max) (F i)))).
  assert (H : P (0 + Z.of_nat (Z.to_nat (NCPU - 0)))
                (loop_from (Z.to_nat (NCPU - 0)) 0 (snapshot_cpu max) (st, b, 0))).
  { apply loop_from_inv.
    - unfold P, F; simpl. rewrite firstn_nil. simpl.
      split; [apply same_rings_refl|]. split; [lia|].
      split; [now right|]. now split.
    - intros i [[s u] n] Hi (HR & H0 & Hm & Hs & Hn). cbn [fst snd] in *.
      destruct (snapshot_cpu_spec max i s u n) as (s' & E & R & _).
      rewrite E. unfold P. cbn [fst snd].
      destruct (HR i) as (Hh & _ & He).
      set (l := cpu_logs s i) in *.
      assert (Hw : window_start l = window_start (cpu_logs st i)).
      { unfold window_start. now rewrite Hh. }
      pose proof (copy_entries_count (Z.to_nat (head l - window_start l))
                    (window_start l) l max u n) as (Hc1 & Hc2).
      destruct (copy_entries_list (Z.to_nat (head l - window_start l))
                  (window_start l) l max u n
                  (firstn (Z.to_nat max) (F i)) H0 Hm) as (Hs' & Hn').
      { lia. }
      { exact Hs. }
      assert (EF : firstn (Z.to_nat max)
                     (firstn (Z.to_nat max) (F i) ++
                      map (fun k => entries l ((window_start l + Z.of_nat k) mod KLOG_BUF_SIZE))
                          (List.seq 0 (Z.to_nat (head l - window_start l))))
                   = firstn (Z.to_nat max) (F (i + 1))).
      { rewrite firstn_firstn_app. f_equal. unfold F.
        replace (Z.to_nat (i + 1)) with (Z.to_nat i + 1)%nat by lia.
        rewrite seq_app, flat_map_app. f_equal. simpl. rewrite app_nil_r.
        unfold valid_entries. rewrite Z2Nat.id by lia.
        fold l. rewrite <- Hw, <- Hh, He. reflexivity. }
      rewrite EF in Hs', Hn'.
      split; [now apply same_rings_trans with s|].
      split; [lia|]. split; [|split; [exact Hs'|exact Hn']].
      destruct Hm as [Hm|Hm]; [left; apply Hc2; exact Hm|].
      destruct (Z_le_gt_dec 0 max); [left; apply Hc2; lia|].
      right. rewrite Hn'. replace (Z.to_nat max) with 0%nat by lia. reflexivity. }
  destruct H as (_ & _ & _ & Hs & Hn).
  unfold F in Hs, Hn.
  replace (Z.to_nat (0 + Z.of_nat (Z.to_nat (NCPU - 0)))) with (Z.to_nat NCPU) in Hs, Hn by lia.
  split; assumption.
Qed.

(** [klog_snapshot] returns the budgeted entries, put in ascending order of
    sequence number. *)
Lemma snapshot_sorted_budget (st : kstate) (buf : Z -> klog_entry) (max : Z) :
  max <= 2 ^ 31 ->
  let r := klog_snapshot NCPU st buf max in
  snd r = Z.of_nat (List.length (budgeted NCPU st max))
  /\ Permutation (budgeted NCPU st max)
                 (slice (mem (snd (fst r))) 0 (Z.to_nat (snd r)))
  /\ Sorted seq_le (slice (mem (snd (fst r))) 0 (Z.to_nat (snd r))).
Proof.
  intros Hmax. cbn zeta. rewrite klog_snapshot_collect. cbn [fst snd].
  destruct (collect_spec st (fresh buf) max) as (Hs & Hn).
  cbn zeta in Hs, Hn.
  set (r := collect NCPU st (fresh buf) max) in *.
  split; [exact Hn|].
  rewrite bubble_sort_mem.
  set (n := List.length (budgeted NCPU st max)) in *.
  assert (Hlen : (n <= Z.to_nat max)%nat).
  { unfold n, budgeted. rewrite length_firstn. lia. }
  rewrite Hn, Nat2Z.id in *.
  destruct n as [|n'] eqn:En.
  - destruct (budgeted NCPU st max); [|discriminate]. split; constructor.
  - destruct (sort_cells_spec (Datatypes.S n') (mem (snd (fst r)))) as (Hp & Ha & _);
      [lia | lia |].
    split.
    + rewrite <- Hs. exact Hp.
    + apply ascending_sorted. intros k Hk1 Hk2. apply Ha; lia.
Qed.

End Budget.

(** ** The budget goes to the CPUs in CPU order *)

Section BudgetPolicy.

Variable NCPU : Z.

Lemma budgeted_10_10 (st : kstate) :
  2 <= NCPU ->
  head (cpu_logs st 0) = 10 -> head (cpu_logs st 1) = 10 ->
  budgeted NCPU st 12
  = slice (entries (cpu_logs st 0)) 0 10 ++ slice (entries (cpu_logs st 1)) 0 2.
Proof.
  intros HN H0 H1. unfold budgeted.
  replace (Z.to_nat NCPU)
    with (Datatypes.S (Datatypes.S (Z.to_nat NCPU - 2))) by lia.
  cbn [List.seq flat_map]. cbn [Z.of_nat Pos.of_succ_nat].
  unfold valid_entries at 1 2. unfold window_start. rewrite H0, H1.
  reflexivity.
Qed.

(** C2.  With ten valid records on CPU 0 and ten on CPU 1, a snapshot of
    at most twelve entries returns twelve: the ten of CPU 0 and the two
    oldest of CPU 1, in ascending order of sequence number. *)
Theorem snapshot_budget_in_cpu_order (st : kstate) (buf : Z -> klog_entry) :
  2 <= NCPU ->
  head (cpu_logs st 0) = 10 ->
  head (cpu_logs st 1) = 10 ->
  let r := klog_snapshot NCPU st buf 12 in
  snd r = 12
  /\ Permutation
       (slice (entries (cpu_logs st 0)) 0 10 ++ slice (entries (cpu_logs st 1)) 0 2)
       (slice (mem (snd (fst r))) 0 12)
  /\ Sorted seq_le (slice (mem (snd (fst r))) 0 12).
Proof.
  intros HN H0 H1 r.
  destruct (snapshot_sorted_budget NCPU st buf 12) as (Hn & Hp & Hs); [lia|].
  fold r in Hn, Hp, Hs.
  rewrite (budgeted_10_10 st HN H0 H1) in Hn, Hp.
  rewrite length_app, !slice_length in Hn. simpl in Hn.
  rewrite Hn in Hp, Hs. change (Z.to_nat 12) with 12%nat in Hp, Hs.
  now repeat split.
Qed.

End BudgetPolicy.

(** ** What one call of the logger does *)

Section Record.

Variable NCPU : Z.

Lemma valid_cpu_test (c : Z) :
  valid_cpu NCPU c -> (c <? 0) || (c >=? NCPU) = false.
Proof.
  intros [H0 H1]. apply orb_false_iff. split; [apply Z.ltb_ge; lia|].
  rewrite Z.geb_leb. apply Z.leb_gt. lia.
Qed.

Lemma invalid_cpu_test (c : Z) :
  ~ valid_cpu NCPU c -> (c <? 0) || (c >=? NCPU) = true.
Proof.
  intros H. unfold valid_cpu in H. apply orb_true_iff.
  destruct (Z.ltb_spec c 0); [now left|right].
  rewrite Z.geb_leb. apply Z.leb_le. lia.
Qed.

(** A call on a CPU of the table writes the slot under the cursor of that
    CPU, stamps it with the global sequence number, and advances both. *)
Lemma record_valid (st : kstate) (c : call) :
  valid_cpu NCPU (cpuid (c_env c)) ->
  let k := cpuid (c_env c) in
  let st' := record NCPU st c in
  head (cpu_logs st' k) = u32 (head (cpu_logs st k) + 1)
  /\ dropped (cpu_logs st' k) = dropped (cpu_logs st k)
  /\ (forall x, x <> k -> cpu_logs st' x = cpu_logs st x)
  /\ global_seq st' = u32 (global_seq st + 1)
  /\ (forall idx, idx <> head (cpu_logs st k) mod KLOG_BUF_SIZE ->
        entries (cpu_logs st' k) idx = entries (cpu_logs st k) idx)
  /\ seq (entries (cpu_logs st' k) (head (cpu_logs st k) mod KLOG_BUF_SIZE))
     = global_seq st
  /\ cpu (entries (cpu_logs st' k) (head (cpu_logs st k) mod KLOG_BUF_SIZE))
     = u32 k.
Proof.
  intros Hv k st'. unfold st', record, klog_printf_level, klog_printf_internal.
  fold k. rewrite (valid_cpu_test k Hv).
  destruct (format_msg (stack (c_env c)) (c_fmt c) (c_ap c)) as [i0 b].
  unfold next_seq, set_cpu, set_seq_lock, set_global_seq, set_lock, set_head,
    set_entries.
  cbn [cpu_logs global_seq seq_lock head dropped entries lock fst snd].
  rewrite !upd_same.
  cbn [cpu_logs global_seq seq_lock head dropped entries lock fst snd].
  destruct (copy_msg _ _ _ _) as [i m].
  cbn [cpu_logs global_seq seq_lock head dropped entries lock fst snd].
  rewrite !upd_same.
  cbn [cpu_logs global_seq seq_lock head dropped entries lock fst snd seq cpu].
  rewrite !upd_same. cbn [seq cpu].
  repeat split.
  - intros x Hx. now rewrite !upd_other.
  - intros idx Hidx. now rewrite upd_other.
Qed.

Lemma record_invalid (st : kstate) (c : call) :
  ~ valid_cpu NCPU (cpuid (c_env c)) -> record NCPU st c = st.
Proof.
  intros Hv. unfold record, klog_printf_level, klog_printf_internal.
  now rewrite (invalid_cpu_test _ Hv).
Qed.

Lemma stamped_valid (st : kstate) (c : call) :
  valid_cpu NCPU (cpuid (c_env c)) ->
  stamped NCPU st c
  = Some (entries (cpu_logs (record NCPU st c) (cpuid (c_env c)))
                  (head (cpu_logs st (cpuid (c_env c))) mod KLOG_BUF_SIZE)).
Proof. intros Hv. unfold stamped. now rewrite (valid_cpu_test _ Hv). Qed.

Lemma stamped_invalid (st : kstate) (c : call) :
  ~ valid_cpu NCPU (cpuid (c_env c)) -> stamped NCPU st c = None.
Proof. intros Hv. unfold stamped. now rewrite (invalid_cpu_test _ Hv). Qed.

Lemma valid_cpu_dec (c : Z) : {valid_cpu NCPU c} + {~ valid_cpu NCPU c}.
Proof.
  unfold valid_cpu.
  destruct (Z_le_dec 0 c); [|right; lia].
  destruct (Z_lt_dec c NCPU); [left|right]; lia.
Qed.

End Record.

(** ** Sequence numbers *)

Lemma strictly_sorted_NoDup (l : list Z) : StronglySorted Z.lt l -> NoDup l.
Proof.
  induction 1 as [|a l Hs IH Hall]; constructor; [|exact IH].
  intros Hin. rewrite Forall_forall in Hall. specialize (Hall a Hin). lia.
Qed.

Lemma strictly_sorted_nth (l : list Z) :
  StronglySorted Z.lt l ->
  forall i j d, (i < j < List.length l)%nat -> nth i l d < nth j l d.
Proof.
  induction 1 as [|a l Hs IH Hall]; intros i j d Hij; simpl in Hij; [lia|].
  destruct j as [|j]; [lia|]. destruct i as [|i]; simpl.
  - rewrite Forall_forall in Hall. apply Hall. apply nth_In. lia.
  - apply IH. lia.
Qed.

Section Sequence.

Variable NCPU : Z.

(** The records of a run carry the successive values of the counter. *)
Lemma produced_seqs (calls : list call) :
  forall st,
    0 <= global_seq st ->
    global_seq st + Z.of_nat (List.length calls) <= 2 ^ 32 ->
    StronglySorted Z.lt (map seq (produced NCPU st calls))
    /\ Forall (fun s => global_seq st <= s) (map seq (produced NCPU st calls)).
Proof.
  induction calls as [|c cs IH]; intros st H0 Hb; simpl.
  - split; constructor.
  - simpl List.length in Hb.
    destruct (valid_cpu_dec NCPU (cpuid (c_env c))) as [Hv|Hv].
    + rewrite (stamped_valid NCPU st c Hv).
      destruct (record_valid NCPU st c Hv) as (_ & _ & _ & Hg & _ & Hs & _).
      simpl. rewrite Hs.
      destruct cs as [|c' cs'].
      * simpl. split; repeat constructor. lia.
      * assert (Hg' : global_seq (record NCPU st c) = global_seq st + 1).
        { rewrite Hg. apply u32_small. simpl List.length in Hb. lia. }
        destruct (IH (record NCPU st c)) as (IH1 & IH2);
          [lia | rewrite Hg'; lia |].
        rewrite Hg' in IH2.
        split.
        -- constructor; [exact IH1|].
           eapply Forall_impl; [|exact IH2]. intros s Hs'. simpl in Hs'. lia.
        -- constructor; [lia|].
           eapply Forall_impl; [|exact IH2]. intros s Hs'. simpl in Hs'. lia.
    + rewrite (stamped_invalid NCPU st c Hv), (record_invalid NCPU st c Hv).
      apply IH; [exact H0 | lia].
Qed.

(** C5.  Before the counter wraps, the records produced by any sequence of
    calls carry pairwise distinct sequence numbers, and of two records from
    the same CPU the one produced later carries the larger number. *)
Theorem sequence_numbers_distinct_and_increasing
    (st : kstate) (calls : list call) :
  0 <= global_seq st ->
  global_seq st + Z.of_nat (List.length calls) <= 2 ^ 32 ->
  let rs := produced NCPU st calls in
  NoDup (map seq rs)
  /\ forall i j d,
       (i < j < List.length rs)%nat ->
       cpu (nth i rs d) = cpu (nth j rs d) ->
       seq (nth i rs d) < seq (nth j rs d).
Proof.
  intros H0 Hb rs.
  destruct (produced_seqs calls st H0 Hb) as (Hs & _). fold rs in Hs.
  split.
  - now apply strictly_sorted_NoDup.
  - intros i j d Hij _.
    rewrite <- !(map_nth seq).
    apply strictly_sorted_nth; [exact Hs|]. now rewrite length_map.
Qed.

End Sequence.

(** ** The drop counter *)

Section Dropped.

Variable NCPU : Z.

Lemma same_rings_no_drops (st st' : kstate) :
  same_rings st st' -> no_drops NCPU st -> no_drops NCPU st'.
Proof.
  intros HR H c Hc. destruct (HR c) as (_ & d & _). rewrite d. now apply H.
Qed.

Lemma record_no_drops (st : kstate) (c : call) :
  no_drops NCPU st -> no_drops NCPU (record NCPU st c).
Proof.
  intros H x Hx.
  destruct (valid_cpu_dec NCPU (cpuid (c_env c))) as [Hv|Hv].
  - destruct (record_valid NCPU st c Hv) as (_ & Hd & Ho & _).
    destruct (Z.eq_dec x (cpuid (c_env c))) as [->|N].
    + rewrite Hd. now apply H.
    + rewrite Ho by exact N. now apply H.
  - rewrite record_invalid by exact Hv. now apply H.
Qed.

Lemma snapshot_rings (st : kstate) (buf : Z -> klog_entry) (max : Z) :
  same_rings st (fst (fst (klog_snapshot NCPU st buf max))).
Proof. rewrite klog_snapshot_collect. apply collect_rings. Qed.

Lemma clear_cpu_dropped (c x : Z) (st : kstate) :
  dropped (cpu_logs (clear_cpu c st) x)
  = if x =? c then 0 else dropped (cpu_logs st x).
Proof.
  unfold clear_cpu. destruct (Z.eqb_spec x c) as [->|N].
  - now rewrite cpu_logs_set_cpu.
  - now rewrite !cpu_logs_set_cpu_other.
Qed.

Lemma klog_clear_no_drops (st : kstate) :
  no_drops NCPU st -> no_drops NCPU (klog_clear NCPU st).
Proof.
  intros H. unfold klog_clear.
  apply (for_range_keeps (no_drops NCPU)); [exact H|].
  intros i s _ Hs x Hx. rewrite clear_cpu_dropped.
  destruct (x =? i); [reflexivity|now apply Hs].
Qed.

Lemma klog_get_dropped_spec (st : kstate) :
  no_drops NCPU st ->
  same_rings st (fst (klog_get_dropped NCPU st))
  /\ snd (klog_get_dropped NCPU st) = 0.
Proof.
  intros H. unfold klog_get_dropped.
  apply (for_range_keeps (fun s : kstate * Z => same_rings st (fst s) /\ snd s = 0)).
  - split; [apply same_rings_refl|reflexivity].
  - intros i [s total] Hi (HR & Ht). simpl in HR, Ht. subst total.
    unfold dropped_cpu. rewrite cpu_logs_set_cpu. cbn [fst snd].
    split.
    + apply same_rings_trans with s; [exact HR|].
      apply same_rings_trans
        with (set_cpu s i (set_lock (cpu_logs s i) (acquire (lock (cpu_logs s i))))).
      * apply set_cpu_lock_rings. apply same_ring_refl.
      * apply set_cpu_lock_rings. rewrite cpu_logs_set_cpu. now repeat split.
    + change (dropped (set_lock (cpu_logs s i) (acquire (lock (cpu_logs s i)))))
        with (dropped (cpu_logs s i)).
      destruct (HR i) as (_ & d & _). rewrite d, (H i) by exact Hi. reflexivity.
Qed.

Lemma init_cpu_dropped (i x : Z) (st : kstate) :
  dropped (cpu_logs (init_cpu i st) x)
  = if x =? i then 0 else dropped (cpu_logs st x).
Proof.
  unfold init_cpu. destruct (Z.eqb_spec x i) as [->|N].
  - now rewrite cpu_logs_set_cpu.
  - now rewrite cpu_logs_set_cpu_other.
Qed.

Lemma klog_init_no_drops (st : kstate) (e : env) (ap : va_list) :
  no_drops NCPU (klog_init NCPU st e ap).
Proof.
  unfold klog_init, klog_printf.
  apply (record_no_drops _ (mkCall e KLOG_INFO _ ap)).
  destruct (Z_lt_le_dec NCPU 0) as [Hn|Hn].
  - intros c Hc. unfold valid_cpu in Hc. lia.
  - intros c Hc.
    apply (for_range_inv
             (fun i s => forall c, 0 <= c < i -> dropped (cpu_logs s c) = 0));
      [exact Hn | intros; lia | | exact Hc].
    intros i s Hi Hs x Hx. rewrite init_cpu_dropped.
    destruct (Z.eqb_spec x i); [reflexivity|]. apply Hs. lia.
Qed.

Lemma apply_op_no_drops (st : kstate) (o : op) :
  no_drops NCPU st -> no_drops NCPU (apply_op NCPU st o).
Proof.
  intros H. destruct o as [c|buf max| |]; simpl.
  - now apply record_no_drops.
  - eapply same_rings_no_drops; [apply snapshot_rings|exact H].
  - now apply klog_clear_no_drops.
  - eapply same_rings_no_drops; [apply klog_get_dropped_spec; exact H|exact H].
Qed.

(** C8.  In every state reached from [klog_init] by record, snapshot,
    clear and drop-count operations, the drop counter of every CPU is 0,
    and [klog_get_dropped] returns 0. *)
Theorem dropped_counter_stays_zero (st0 : kstate) (e : env) (ap : va_list)
    (ops : list op) :
  (forall c, 0 <= c < NCPU ->
             dropped (cpu_logs (reached NCPU st0 e ap ops) c) = 0)
  /\ snd (klog_get_dropped NCPU (reached NCPU st0 e ap ops)) = 0.
Proof.
  assert (H : no_drops NCPU (reached NCPU st0 e ap ops)).
  { unfold reached.
    generalize (klog_init_no_drops st0 e ap).
    generalize (klog_init NCPU st0 e ap).
    induction ops as [|o ops IH]; intros st H; simpl; [exact H|].
    apply IH. now apply apply_op_no_drops. }
  split; [exact H|]. now apply klog_get_dropped_spec.
Qed.

End Dropped.

(** ** The accesses of the snapshot to its destination *)

Lemma for_range_first {S : Type} (lo hi : Z) (body : Z -> S -> S) (s : S) :
  lo < hi ->
  exists n, for_range lo hi body s = loop_from n (lo + 1) body (body lo s).
Proof.
  intros H. exists (Z.to_nat (hi - lo - 1)). unfold for_range.
  replace (Z.to_nat (hi - lo)) with (Datatypes.S (Z.to_nat (hi - lo - 1))) by lia.
  apply loop_from_succ.
Qed.

Lemma sort_step_acc (j : Z) (b : traced klog_entry) :
  In j (acc (sort_step j b)) /\ In (j + 1) (acc (sort_step j b))
  /\ (forall x, In x (acc b) -> In x (acc (sort_step j b)))
  /\ (forall x, In x (acc (sort_step j b)) -> x = j \/ x = j + 1 \/ In x (acc b)).
Proof.
  unfold sort_step, tread, twrite; cbn [mem acc].
  destruct (seq (mem b j) >? seq (mem b (j + 1))); cbn [mem acc];
    (split; [simpl; auto 10|]); (split; [simpl; auto 10|]);
    (split; [intros x Hx; simpl; auto 10|]);
    intros x Hx; simpl in Hx;
    repeat (destruct Hx as [Hx|Hx]; [subst x; auto|]); auto.
Qed.

Lemma sort_pass_acc_grows (count i x : Z) (b : traced klog_entry) :
  In x (acc b) -> In x (acc (sort_pass count i b)).
Proof.
  intros H. unfold sort_pass.
  apply (for_range_keeps (fun s => In x (acc s))); [exact H|].
  intros j s _ Hs. now apply sort_step_acc.
Qed.

(** With a count of 0 the bounds of the sort wrap around, and its first step
    reads the cells 0 and 1. *)
Lemma bubble_sort_of_nothing (b : traced klog_entry) :
  In 0 (acc (bubble_sort 0 b)) /\ In 1 (acc (bubble_sort 0 b)).
Proof.
  assert (Hu : 0 < u32 (0 - 1)) by reflexivity.
  assert (Hv : 0 < u32 (0 - 0 - 1)) by reflexivity.
  unfold bubble_sort.
  destruct (for_range_first 0 (u32 (0 - 1)) (sort_pass 0) b Hu) as (n & ->).
  assert (H : In 0 (acc (sort_pass 0 0 b)) /\ In 1 (acc (sort_pass 0 0 b))).
  { unfold sort_pass.
    destruct (for_range_first 0 (u32 (0 - 0 - 1)) sort_step b Hv) as (m & ->).
    destruct (sort_step_acc 0 b) as (I0 & I1 & _).
    split.
    - apply (loop_from_keeps (fun s => In 0 (acc s))); [exact I0|].
      intros j s _ Hs. exact (proj1 (proj2 (proj2 (sort_step_acc j s))) 0 Hs).
    - apply (loop_from_keeps (fun s => In 1 (acc s))); [exact I1|].
      intros j s _ Hs. exact (proj1 (proj2 (proj2 (sort_step_acc j s))) 1 Hs). }
  destruct H as (I0 & I1).
  split.
  - apply (loop_from_keeps (fun s => In 0 (acc s))); [exact I0|].
    intros i s _ Hs. exact (sort_pass_acc_grows 0 i 0 s Hs).
  - apply (loop_from_keeps (fun s => In 1 (acc s))); [exact I1|].
    intros i s _ Hs. exact (sort_pass_acc_grows 0 i 1 s Hs).
Qed.

(** With a count of at least 1 the sort stays inside the cells counted. *)
Lemma bubble_sort_within (n : Z) (b : traced klog_entry) :
  1 <= n -> within n b -> within n (bubble_sort n b).
Proof.
  intros Hn Hb. unfold bubble_sort.
  apply (for_range_keeps (within n)); [exact Hb|].
  intros i s Hi Hs. unfold sort_pass.
  apply (for_range_keeps (within n)); [exact Hs|].
  intros j s' Hj Hs' x Hx.
  destruct (sort_indices n i j Hn Hi Hj).
  apply sort_step_acc in Hx. destruct Hx as [->|[->|Hx]]; [lia|lia|].
  now apply Hs'.
Qed.

Lemma copy_entries_within (n : nat) :
  forall i l max b count,
    0 <= count -> within count b ->
    within (snd (copy_entries n i l max b count))
           (fst (copy_entries n i l max b count)).
Proof.
  induction n as [|n IH]; intros i l max b count H0 Hb; simpl; [exact Hb|].
  destruct (count <? max); [|exact Hb].
  apply IH; [lia|].
  intros x [<-|Hx]; [lia|]. specialize (Hb x Hx). lia.
Qed.

Section Accesses.

Variable NCPU : Z.

Lemma collect_within (st : kstate) (buf : Z -> klog_entry) (max : Z) :
  within (snd (collect NCPU st (fresh buf) max))
         (snd (fst (collect NCPU st (fresh buf) max))).
Proof.
  unfold collect.
  apply (for_range_keeps
           (fun s : kstate * traced klog_entry * Z =>
              0 <= snd s /\ within (snd s) (snd (fst s)))).
  - split; [simpl; lia|]. intros x [].
  - intros i [[s b] n] _ (H0 & Hb). cbn [fst snd] in H0, Hb.
    destruct (snapshot_cpu_spec max i s b n) as (s' & E & _).
    rewrite E. cbn [fst snd].
    split.
    + pose proof (copy_entries_count
                    (Z.to_nat (head (cpu_logs s i) - window_start (cpu_logs s i)))
                    (window_start (cpu_logs s i)) (cpu_logs s i) max b n). lia.
    + now apply copy_entries_within.
Qed.

(** A snapshot that collects at least one entry accesses only the cells it
    fills. *)
Lemma snapshot_within (st : kstate) (buf : Z -> klog_entry) (max : Z) :
  1 <= snd (klog_snapshot NCPU st buf max) ->
  within (snd (klog_snapshot NCPU st buf max))
         (snd (fst (klog_snapshot NCPU st buf max))).
Proof.
  rewrite klog_snapshot_collect. cbn [fst snd]. intros H.
  apply bubble_sort_within; [exact H|apply collect_within].
Qed.

Lemma klog_clear_heads (st : kstate) (c : Z) :
  valid_cpu NCPU c -> head (cpu_logs (klog_clear NCPU st) c) = 0.
Proof.
  intros Hc. unfold klog_clear.
  apply (for_range_inv
           (fun i s => forall c, 0 <= c < i -> head (cpu_logs s c) = 0));
    [unfold valid_cpu in Hc; lia | intros; lia | | exact Hc].
  intros i s Hi Hs x Hx. unfold clear_cpu.
  destruct (Z.eq_dec x i) as [->|N].
  - now rewrite cpu_logs_set_cpu.
  - rewrite !cpu_logs_set_cpu_other by exact N. apply Hs. lia.
Qed.

Lemma budgeted_empty (st : kstate) (max : Z) :
  (forall c, valid_cpu NCPU c -> head (cpu_logs st c) = 0) ->
  budgeted NCPU st max = [].
Proof.
  intros H. unfold budgeted.
  assert (E : forall l : list nat,
             (forall c, In c l -> valid_cpu NCPU (Z.of_nat c)) ->
             flat_map (fun c => valid_entries (cpu_logs st (Z.of_nat c))) l = []).
  { induction l as [|c l IH]; intros Hl; [reflexivity|].
    simpl. rewrite IH by (intros; apply Hl; now right).
    unfold valid_entries, window_start.
    rewrite (H (Z.of_nat c)) by (apply Hl; now left). reflexivity. }
  rewrite E; [apply firstn_nil|].
  intros c Hc. apply in_seq in Hc. unfold valid_cpu. lia.
Qed.

Lemma snapshot_of_empty (st : kstate) (buf : Z -> klog_entry) (max : Z) :
  (forall c, valid_cpu NCPU c -> head (cpu_logs st c) = 0) ->
  klog_snapshot NCPU st buf max
  = (fst (fst (collect NCPU st (fresh buf) max)),
     bubble_sort 0 (snd (fst (collect NCPU st (fresh buf) max))),
     0).
Proof.
  intros H. rewrite klog_snapshot_collect.
  destruct (collect_spec NCPU st (fresh buf) max) as (_ & Hn). cbn zeta in Hn.
  rewrite (budgeted_empty st max H) in Hn. simpl in Hn.
  now rewrite Hn.
Qed.

(** C9.  What the code does on an empty log: the snapshot taken right after
    [klog_clear] returns 0, and its sort nevertheless reads the cells 0 and
    1 of the destination, which lie outside the 0 cells it filled. *)
Theorem snapshot_of_cleared_log_sorts_past_count
    (st : kstate) (buf : Z -> klog_entry) (max : Z) :
  let r := klog_snapshot NCPU (klog_clear NCPU st) buf max in
  snd r = 0
  /\ In 0 (acc (snd (fst r)))
  /\ In 1 (acc (snd (fst r))).
Proof.
  cbn zeta.
  rewrite (snapshot_of_empty (klog_clear NCPU st) buf max (klog_clear_heads st)).
  cbn [fst snd]. split; [reflexivity|]. apply bubble_sort_of_nothing.
Qed.

End Accesses.

(** ** The staging buffer of the formatter *)

(** C10.  What the code does when an unrecognized directive begins at
    position 62: the two characters go to the cells 62 and 63, and the
    terminator is then stored at index 64, one past the 64-byte buffer. *)
Theorem format_msg_terminator_past_buffer (stack : Z -> Z) :
  let r := format_msg stack (cstr (Ex.a62 ++ "%q")) Ex.no_args in
  fst r = 64
  /\ hd 0 (acc (snd r)) = 64
  /\ mem (snd r) 64 = 0
  /\ slice (mem (snd r)) 62 2 = cstr "%q".
Proof. vm_compute. repeat split. Qed.

(** ** The layout of a record *)

Lemma le32_length (v : Z) : List.length (le32 v) = 4%nat.
Proof. reflexivity. Qed.

Lemma bytes_of_entry_length (e : klog_entry) :
  List.length (bytes_of_entry e) = 88%nat.
Proof.
  unfold bytes_of_entry. rewrite !length_app, !le32_length, slice_length.
  reflexivity.
Qed.

(** C3, as the claim has it: the layout does not occupy 84 bytes. *)
Lemma klog_entry_is_not_84_bytes : sizeof_klog_entry <> 84.
Proof. vm_compute. discriminate. Qed.

(** What [copyout] delivers of a whole record. *)
Lemma copyout_entry (ok : Z -> Z -> bool) (va : Z) (e : klog_entry) :
  copyout ok va (bytes_of_entry e) sizeof_klog_entry
  = if ok va sizeof_klog_entry then Some (va, bytes_of_entry e) else None.
Proof.
  unfold copyout. destruct (ok va sizeof_klog_entry); [|reflexivity].
  rewrite firstn_all2; [reflexivity|]. rewrite bytes_of_entry_length.
  vm_compute. lia.
Qed.

Lemma wire_records_snoc (base : Z -> Z) (a : Z -> klog_entry) (m : nat) :
  wire_records base a (Datatypes.S m)
  = wire_records base a m
    ++ [(base (Z.of_nat m), bytes_of_entry (a (Z.of_nat m)))].
Proof. unfold wire_records. now rewrite seq_S, map_app. Qed.

(** The copy loop of [sys_getklog] delivers whole records at consecutive
    addresses until the count is reached or [copyout] fails. *)
Lemma getklog_copy_spec (ok : Z -> Z -> bool) (kbuf : Z -> klog_entry)
    (buf_addr : Z) (room : nat) :
  forall (i : nat),
    exists m,
      (i <= m <= i + room)%nat
      /\ snd (getklog_copy room ok kbuf buf_addr (Z.of_nat i)
                           (wire_records (getklog_addr buf_addr) kbuf i))
         = wire_records (getklog_addr buf_addr) kbuf m
      /\ (forall k, (i <= k < m)%nat ->
            ok (getklog_addr buf_addr (Z.of_nat k)) sizeof_klog_entry = true)
      /\ (fst (getklog_copy room ok kbuf buf_addr (Z.of_nat i)
                            (wire_records (getklog_addr buf_addr) kbuf i)) = true ->
          m = (i + room)%nat)
      /\ (fst (getklog_copy room ok kbuf buf_addr (Z.of_nat i)
                            (wire_records (getklog_addr buf_addr) kbuf i)) = false ->
          (m < i + room)%nat
          /\ ok (getklog_addr buf_addr (Z.of_nat m)) sizeof_klog_entry = false).
Proof.
  induction room as [|room IH]; intros i.
  - exists i. simpl. repeat split; try lia; try discriminate.
  - cbn [getklog_copy]. rewrite copyout_entry.
    fold (getklog_addr buf_addr (Z.of_nat i)).
    destruct (ok (getklog_addr buf_addr (Z.of_nat i)) sizeof_klog_entry) eqn:E.
    + rewrite <- wire_records_snoc.
      replace (Z.of_nat i + 1) with (Z.of_nat (Datatypes.S i)) by lia.
      destruct (IH (Datatypes.S i)) as (m & Hm & Ho & Hk & Ht & Hf).
      exists m. split; [lia|]. split; [exact Ho|]. split; [|split].
      * intros k Hk'. destruct (Nat.eq_dec k i) as [->|N]; [exact E|].
        apply Hk. lia.
      * intros H. specialize (Ht H). lia.
      * intros H. specialize (Hf H). split; [lia|tauto].
    + exists i. cbn [fst snd]. repeat split; try lia; try discriminate.
      exact E.
Qed.

(** The copy loop of [klogdev_read] delivers whole records at consecutive
    addresses and counts their bytes. *)
Lemma klogdev_copy_spec (ok : Z -> Z -> bool) (entries : Z -> klog_entry)
    (dst n : Z) (room : nat) :
  forall (i : nat),
    Z.of_nat (i + room) * 88 < 2 ^ 31 ->
    exists m,
      (i <= m <= i + room)%nat
      /\ snd (klogdev_copy room ok entries dst n (Z.of_nat i) (Z.of_nat i * 88)
                           (wire_records (fun k => u32 (dst + k * 88)) entries i))
         = wire_records (fun k => u32 (dst + k * 88)) entries m
      /\ (fst (klogdev_copy room ok entries dst n (Z.of_nat i) (Z.of_nat i * 88)
                            (wire_records (fun k => u32 (dst + k * 88)) entries i))
          = Z.of_nat m * 88
          \/ fst (klogdev_copy room ok entries dst n (Z.of_nat i) (Z.of_nat i * 88)
                               (wire_records (fun k => u32 (dst + k * 88)) entries i))
             = -1).
Proof.
  induction room as [|room IH]; intros i Hb.
  - exists i. simpl. split; [lia|]. split; [reflexivity|left; lia].
  - cbn [klogdev_copy]. rewrite copyout_entry.
    destruct (u32 (Z.of_nat i * 88 + sizeof_klog_entry) <=? u32 n).
    + destruct (ok (u32 (dst + Z.of_nat i * 88)) sizeof_klog_entry).
      * rewrite <- (wire_records_snoc (fun k => u32 (dst + k * 88))).
        replace (Z.of_nat i + 1) with (Z.of_nat (Datatypes.S i)) by lia.
        replace (s32 (Z.of_nat i * 88 + sizeof_klog_entry))
          with (Z.of_nat (Datatypes.S i) * 88).
        -- destruct (IH (Datatypes.S i)) as (m & Hm & Ho & Hr).
           { replace (Datatypes.S i + room)%nat with (i + Datatypes.S room)%nat by lia.
             exact Hb. }
           exists m. split; [lia|]. split; [exact Ho|exact Hr].
        -- rewrite s32_small; change sizeof_klog_entry with 88; lia.
      * exists i. cbn [fst snd]. split; [lia|]. split; [reflexivity|now right].
    + exists i. cbn [fst snd]. split; [lia|]. split; [reflexivity|now left].
Qed.

Section Boundaries.

Variable NCPU : Z.
Variable PGSIZE : Z.

Lemma snapshot_count (st : kstate) (buf : Z -> klog_entry) (max : Z) :
  0 <= max ->
  0 <= snd (klog_snapshot NCPU st buf max) <= max.
Proof.
  intros H. rewrite klog_snapshot_collect. cbn [snd].
  pose proof (collect_count NCPU st (fresh buf) max). lia.
Qed.

Lemma effective_max_range (max : Z) :
  0 <= max -> 0 <= effective_max PGSIZE max <= max.
Proof.
  intros H. unfold effective_max. cbv zeta.
  assert (0 <= s32 (u32 PGSIZE / sizeof_klog_entry)).
  { pose proof (u32_range PGSIZE). change sizeof_klog_entry with 88.
    assert (0 <= u32 PGSIZE / 88 < 2 ^ 31).
    { split; [apply Z.div_pos; lia|]. apply Z.div_lt_upper_bound; lia. }
    rewrite s32_small; lia. }
  destruct (Z.gtb_spec max (s32 (u32 PGSIZE / sizeof_klog_entry))); lia.
Qed.

Lemma sys_getklog_refused (st : kstate) (buf_addr max sz : Z)
    (page : option (Z -> klog_entry)) (ok : Z -> Z -> bool) :
  - 2 ^ 31 <= buf_addr < 2 ^ 31 -> 0 <= sz < 2 ^ 32 ->
  ~ getklog_accepts buf_addr max sz ->
  sys_getklog NCPU PGSIZE st (Some buf_addr) (Some max) sz page ok = (st, -1, []).
Proof.
  intros Hb Hs Hn. unfold sys_getklog, getklog_accepts in *.
  destruct (Z.leb_spec max 0); [reflexivity|].
  destruct (Z.gtb_spec max 1024); [reflexivity|]. cbn [orb].
  destruct (Z.ltb_spec buf_addr 0); [reflexivity|]. cbn [orb].
  change sizeof_klog_entry with 88 in *.
  rewrite (u32_small buf_addr) by lia.
  rewrite (u32_small (max * 88)) by lia.
  rewrite (u32_small (buf_addr + max * 88)) by lia.
  rewrite Z.geb_leb.
  destruct (Z.leb_spec sz buf_addr); [reflexivity|].
  destruct (Z.gtb_spec (buf_addr + max * 88) sz); [reflexivity|]. lia.
Qed.

Lemma sys_getklog_accepted (st : kstate) (buf_addr max sz : Z)
    (page : option (Z -> klog_entry)) (ok : Z -> Z -> bool) :
  - 2 ^ 31 <= buf_addr < 2 ^ 31 -> 0 <= sz < 2 ^ 32 ->
  getklog_accepts buf_addr max sz ->
  sys_getklog NCPU PGSIZE st (Some buf_addr) (Some max) sz page ok
  = match page with
    | None => (st, -1, [])
    | Some kbuf =>
        let r := klog_snapshot NCPU st kbuf (effective_max PGSIZE max) in
        let c := getklog_copy (Z.to_nat (snd r)) ok (mem (snd (fst r))) buf_addr 0 [] in
        (fst (fst r), if fst c then snd r else -1, snd c)
    end.
Proof.
  intros Hb Hs (Hm & H0 & Hle). unfold sys_getklog.
  destruct (Z.leb_spec max 0); [lia|].
  destruct (Z.gtb_spec max 1024); [lia|]. cbn [orb].
  destruct (Z.ltb_spec buf_addr 0); [lia|]. cbn [orb].
  change sizeof_klog_entry with 88 in *.
  rewrite (u32_small buf_addr) by lia.
  rewrite (u32_small (max * 88)) by lia.
  rewrite (u32_small (buf_addr + max * 88)) by lia.
  rewrite Z.geb_leb.
  destruct (Z.leb_spec sz buf_addr); [lia|].
  destruct (Z.gtb_spec (buf_addr + max * 88) sz); [lia|].
  destruct page as [kbuf|]; [|reflexivity].
  cbv zeta.
  change (if max >? s32 (u32 PGSIZE / 88) then s32 (u32 PGSIZE / 88) else max)
    with (effective_max PGSIZE max).
  destruct (klog_snapshot NCPU st kbuf (effective_max PGSIZE max)) as [[s b] count].
  cbn [fst snd].
  destruct (getklog_copy (Z.to_nat count) ok (mem b) buf_addr 0 []) as [fine out].
  cbn [fst snd]. now destruct fine.
Qed.

Lemma wire_records_length (base : Z -> Z) (a : Z -> klog_entry) (m : nat) :
  List.length (wire_records base a m) = m.
Proof. unfold wire_records. now rewrite length_map, length_seq. Qed.

(** C4.  A query whose count is not positive or above 1024, whose
    destination does not lie in the memory of the process, whose staging
    page cannot be allocated, or one of whose records cannot be copied
    out, returns -1; any other query, when its snapshot returns at least
    one record, returns the number of records it delivered, which is at
    most the effective ceiling.  (A snapshot that finds no record is the
    input of C9, where the sort leaves the staging page.) *)
Theorem getklog_result (st : kstate) (buf_addr max sz : Z)
    (page : option (Z -> klog_entry)) (ok : Z -> Z -> bool) :
  - 2 ^ 31 <= buf_addr < 2 ^ 31 ->
  0 <= sz < 2 ^ 32 ->
  let r := sys_getklog NCPU PGSIZE st (Some buf_addr) (Some max) sz page ok in
  (getklog_fails NCPU PGSIZE st buf_addr max sz page ok -> snd (fst r) = -1)
  /\ (~ getklog_fails NCPU PGSIZE st buf_addr max sz page ok ->
      (forall kbuf, page = Some kbuf ->
         1 <= snd (klog_snapshot NCPU st kbuf (effective_max PGSIZE max))) ->
      1 <= snd (fst r) <= effective_max PGSIZE max
      /\ Z.of_nat (List.length (snd r)) = snd (fst r)).
Proof.
  intros Hb Hs r. unfold r. clear r.
  assert (D : getklog_accepts buf_addr max sz \/ ~ getklog_accepts buf_addr max sz)
    by (unfold getklog_accepts; lia).
  destruct D as [Ha|Ha].
  - rewrite (sys_getklog_accepted st buf_addr max sz page ok Hb Hs Ha).
    pose proof Ha as (Hm & H0 & Hle).
    destruct page as [kbuf|].
    + cbv zeta. cbn [fst snd].
      pose proof (effective_max_range max ltac:(lia)) as He.
      pose proof (snapshot_count st kbuf (effective_max PGSIZE max) ltac:(lia)) as Hc.
      set (snap := klog_snapshot NCPU st kbuf (effective_max PGSIZE max)) in *.
      destruct (getklog_copy_spec ok (mem (snd (fst snap))) buf_addr
                  (Z.to_nat (snd snap)) 0) as (m & Hm' & Ho & Hk & Ht & Hf).
      change (wire_records (getklog_addr buf_addr) (mem (snd (fst snap))) 0)
        with (@nil delivery) in *.
      change (Z.of_nat 0) with 0 in *.
      destruct (fst (getklog_copy (Z.to_nat (snd snap)) ok (mem (snd (fst snap)))
                                  buf_addr 0 [])) eqn:Ef.
      * specialize (Ht eq_refl). split.
        -- intros [F|[F|[F|[F|(kbuf' & k & Ek & Hk' & Hbad)]]]];
             try lia; try discriminate.
           injection Ek as <-. fold snap in Hk'.
           rewrite <- (Z2Nat.id k) in Hbad by lia.
           rewrite Hk in Hbad by lia. discriminate.
        -- intros _ H1. specialize (H1 kbuf eq_refl). fold snap in H1.
           split; [lia|].
           rewrite Ho, wire_records_length. lia.
      * destruct (Hf eq_refl) as (Hlt & Hbad). split; [reflexivity|].
        intros Hnf. exfalso. apply Hnf.
        right. right. right. right. exists kbuf, (Z.of_nat m).
        split; [reflexivity|]. split; [fold snap; lia|exact Hbad].
    + split; [reflexivity|]. intros Hnf. exfalso. apply Hnf.
      right. right. right. now left.
  - rewrite (sys_getklog_refused st buf_addr max sz page ok Hb Hs Ha).
    split; [reflexivity|]. intros Hnf. exfalso. apply Hnf.
    unfold getklog_accepts in Ha.
    destruct (Z_le_gt_dec max 0); [now left|].
    destruct (Z_lt_le_dec 1024 max); [right; now left|].
    right. right. left. lia.
Qed.

(** C3, amended.  A record is laid out as six 32-bit fields followed by
    the 64-byte message, 88 bytes in all; the device read and the query
    deliver whole records, each as its 88 bytes, at consecutive
    88-byte steps from the destination. *)
Theorem record_wire_layout :
  sizeof_klog_entry = 88
  /\ fst (offsets 0 klog_entry_fields)
     = [ ("seq", 0); ("timestamp_hi", 4); ("timestamp_lo", 8); ("cpu", 12);
         ("pid", 16); ("level", 20); ("msg", 24) ]%string
  /\ (forall e, List.length (bytes_of_entry e) = 88%nat)
  /\ (forall st ok entries dst n,
        exists m,
          snd (klogdev_read NCPU st ok entries dst n)
          = wire_records (fun k => u32 (dst + k * 88))
                         (mem (snd (fst (klog_snapshot NCPU st entries 64)))) m
          /\ (snd (fst (klogdev_read NCPU st ok entries dst n)) = Z.of_nat m * 88
              \/ snd (fst (klogdev_read NCPU st ok entries dst n)) = -1))
  /\ (forall st buf_addr max sz kbuf ok,
        exists m,
          snd (sys_getklog NCPU PGSIZE st (Some buf_addr) (Some max) sz
                           (Some kbuf) ok)
          = wire_records (fun k => u32 (u32 buf_addr + u32 (k * 88)))
              (mem (snd (fst (klog_snapshot NCPU st kbuf
                                            (effective_max PGSIZE max))))) m).
Proof.
  split; [reflexivity|]. split; [reflexivity|].
  split; [exact bytes_of_entry_length|]. split.
  - intros st ok entries dst n. unfold klogdev_read.
    pose proof (snapshot_count st entries 64 ltac:(lia)) as Hc.
    destruct (klog_snapshot NCPU st entries 64) as [[s b] count].
    cbn [fst snd] in *.
    destruct (klogdev_copy_spec ok (mem b) dst n (Z.to_nat count) 0)
      as (m & Hm & Ho & Hr); [lia|].
    change (wire_records (fun k => u32 (dst + k * 88)) (mem b) 0)
      with (@nil delivery) in *.
    change (Z.of_nat 0 * 88) with 0 in *. change (Z.of_nat 0) with 0 in *.
    destruct (klogdev_copy (Z.to_nat count) ok (mem b) dst n 0 0 []) as [r out].
    cbn [fst snd] in *. exists m. split; assumption.
  - intros st buf_addr max sz kbuf ok. unfold sys_getklog.
    destruct ((max <=? 0) || (max >? 1024)); [now exists 0%nat|].
    destruct ((buf_addr <? 0) || (u32 buf_addr >=? sz)); [now exists 0%nat|].
    destruct (u32 (u32 buf_addr + u32 (max * sizeof_klog_entry)) >? sz);
      [now exists 0%nat|].
    cbv zeta.
    change (if max >? s32 (u32 PGSIZE / sizeof_klog_entry)
            then s32 (u32 PGSIZE / sizeof_klog_entry) else max)
      with (effective_max PGSIZE max).
    destruct (klog_snapshot NCPU st kbuf (effective_max PGSIZE max)) as [[s b] count].
    cbn [fst snd].
    destruct (getklog_copy_spec ok (mem b) buf_addr (Z.to_nat count) 0)
      as (m & _ & Ho & _).
    change (wire_records (getklog_addr buf_addr) (mem b) 0)
      with (@nil delivery) in *.
    change (Z.of_nat 0) with 0 in *.
    destruct (getklog_copy (Z.to_nat count) ok (mem b) buf_addr 0 []) as [fine out].
    cbn [fst snd] in *. exists m. destruct fine; exact Ho.
Qed.

End Boundaries.

(** ** The ring *)

Lemma slots_differ (p h : Z) :
  h - KLOG_BUF_SIZE < p < h -> p mod KLOG_BUF_SIZE <> h mod KLOG_BUF_SIZE.
Proof.
  unfold KLOG_BUF_SIZE. intros H E.
  pose proof (Z_div_mod_eq_full p 256). pose proof (Z_div_mod_eq_full h 256). lia.
Qed.

Lemma nth_skipn_seq {A : Type} (rs : list A) (a : nat) (d : A) :
  map (fun j => nth (a + j) rs d) (List.seq 0 (List.length rs - a)) = skipn a rs.
Proof.
  apply nth_ext with (d := d) (d' := d).
  - now rewrite length_map, length_seq, length_skipn.
  - intros n Hn. rewrite length_map, length_seq in Hn.
    rewrite (nth_indep _ d (nth (a + 0) rs d)) by (now rewrite length_map, length_seq).
    rewrite (map_nth (fun j => nth (a + j) rs d)), seq_nth by exact Hn.
    now rewrite nth_skipn.
Qed.

Lemma flat_map_single {A B : Type} (f : A -> list B) (c : A) (l : list A) :
  NoDup l -> In c l -> (forall x, In x l -> x <> c -> f x = []) ->
  flat_map f l = f c.
Proof.
  induction l as [|a l IH]; intros Hnd Hin Hf; [destruct Hin|].
  inversion Hnd as [|? ? Hna Hnd']; subst. simpl.
  destruct Hin as [->|Hin].
  - assert (E : flat_map f l = []).
    { clear IH Hnd Hnd'. induction l as [|b l IHl]; [reflexivity|].
      simpl. rewrite (Hf b); [|right; now left|].
      - apply IHl.
        + intros H. apply Hna. now right.
        + intros x Hx. apply Hf. simpl in *. tauto.
      - intros ->. apply Hna. now left. }
    rewrite E. apply app_nil_r.
  - rewrite (Hf a); [|now left|intros ->; contradiction].
    apply IH; [exact Hnd'|exact Hin|]. intros x Hx. apply Hf. now right.
Qed.

Section Ring.

Variable NCPU : Z.

(** A record appended to a ring that holds [rs] makes it hold [rs] and the
    record. *)
Lemma record_ring (st : kstate) (c : call) (rs : list klog_entry)
    (d e : klog_entry) :
  valid_cpu NCPU (cpuid (c_env c)) ->
  ring_holds (cpu_logs st (cpuid (c_env c))) rs d ->
  Z.of_nat (List.length rs) + 1 < 2 ^ 32 ->
  stamped NCPU st c = Some e ->
  ring_holds (cpu_logs (record NCPU st c) (cpuid (c_env c))) (rs ++ [e]) d.
Proof.
  intros Hv (Hh & Hr) Hb He.
  rewrite (stamped_valid NCPU st c Hv) in He. injection He as He.
  destruct (record_valid NCPU st c Hv) as (Hh' & _ & _ & _ & Hold & _).
  cbv zeta in Hh', Hold.
  set (k := cpuid (c_env c)) in *.
  assert (Hh2 : head (cpu_logs (record NCPU st c) k) = head (cpu_logs st k) + 1).
  { rewrite Hh'. apply u32_small. lia. }
  split.
  - rewrite Hh2, Hh, length_app. simpl. lia.
  - intros p Hp. rewrite Hh2 in Hp.
    destruct (Z.eq_dec p (head (cpu_logs st k))) as [->|N].
    + rewrite He, Hh, Nat2Z.id. now rewrite nth_middle.
    + rewrite Hold by (apply slots_differ; lia).
      rewrite Hr by lia. rewrite app_nth1; [reflexivity|]. lia.
Qed.

(** Calls on one CPU append their records to the ring of that CPU and
    leave the other rings alone. *)
Lemma run_ring (k : Z) (d : klog_entry) (calls : list call) :
  valid_cpu NCPU k ->
  Forall (fun c => cpuid (c_env c) = k) calls ->
  forall st rs,
    ring_holds (cpu_logs st k) rs d ->
    Z.of_nat (List.length rs) + Z.of_nat (List.length calls) < 2 ^ 32 ->
    ring_holds (cpu_logs (run NCPU st calls) k) (rs ++ produced NCPU st calls) d
    /\ (forall x, x <> k -> cpu_logs (run NCPU st calls) x = cpu_logs st x)
    /\ List.length (produced NCPU st calls) = List.length calls.
Proof.
  intros Hv Hall. induction Hall as [|c cs Hc Hcs IH]; intros st rs Hr Hb.
  - unfold run. simpl. rewrite app_nil_r. split; [exact Hr|]. split; reflexivity.
  - simpl List.length in Hb. unfold run. cbn [fold_left produced].
    fold (run NCPU (record NCPU st c) cs).
    assert (Hvc : valid_cpu NCPU (cpuid (c_env c))) by (now rewrite Hc).
    destruct (stamped NCPU st c) as [e|] eqn:Es;
      [|rewrite (stamped_valid NCPU st c Hvc) in Es; discriminate].
    pose proof (record_ring st c rs d e Hvc) as Hstep.
    rewrite Hc in Hstep.
    destruct (IH (record NCPU st c) (rs ++ [e])) as (I1 & I2 & I3).
    + apply Hstep; [exact Hr | lia | exact Es].
    + rewrite length_app. simpl. lia.
    + split; [|split].
      * now rewrite <- app_assoc in I1.
      * intros x Hx. rewrite I2 by exact Hx.
        destruct (record_valid NCPU st c Hvc) as (_ & _ & Ho & _).
        apply Ho. now rewrite Hc.
      * simpl. now rewrite I3.
Qed.

End Ring.

Section Wraparound.

Variable NCPU : Z.

(** The records of calls on CPUs of the table carry the values of the
    counter from its starting value on. *)
Lemma produced_seq_values (calls : list call) :
  forall st,
    Forall (fun c => valid_cpu NCPU (cpuid (c_env c))) calls ->
    0 <= global_seq st ->
    global_seq st + Z.of_nat (List.length calls) <= 2 ^ 32 ->
    map seq (produced NCPU st calls)
    = map (fun i => global_seq st + Z.of_nat i) (List.seq 0 (List.length calls)).
Proof.
  induction calls as [|c cs IH]; intros st Hall H0 Hb; [reflexivity|].
  inversion Hall as [|? ? Hv Hall']; subst.
  simpl List.length in *. cbn [produced].
  rewrite (stamped_valid NCPU st c Hv).
  destruct (record_valid NCPU st c Hv) as (_ & _ & _ & Hg & _ & Hs & _).
  cbn [map List.seq]. rewrite Hs. f_equal; [lia|].
  destruct cs as [|c' cs']; [reflexivity|].
  assert (Hg' : global_seq (record NCPU st c) = global_seq st + 1).
  { rewrite Hg. apply u32_small. simpl List.length in Hb. lia. }
  rewrite IH; [|exact Hall' | lia | rewrite Hg'; lia].
  rewrite <- seq_shift, map_map. apply map_ext. intros i. lia.
Qed.

Lemma ring_valid_entries (l : klog_cpu_buf) (rs : list klog_entry)
    (d : klog_entry) (k : nat) :
  ring_holds l rs d ->
  List.length rs = (256 + k)%nat -> (0 < k)%nat -> Z.of_nat (256 + k) < 2 ^ 32 ->
  valid_entries l = skipn k rs.
Proof.
  intros (Hh & Hr) Hlen Hk Hb. unfold valid_entries, window_start.
  rewrite Hh, Hlen in *. unfold KLOG_BUF_SIZE in *.
  destruct (Z.gtb_spec (Z.of_nat (256 + k)) 256) as [_|G]; [|lia].
  rewrite (u32_small (Z.of_nat (256 + k) - 256)) by lia.
  replace (Z.to_nat (Z.of_nat (256 + k) - (Z.of_nat (256 + k) - 256)))
    with (List.length rs - k)%nat by lia.
  rewrite <- (nth_skipn_seq rs k d).
  apply map_ext_in. intros j Hj. apply in_seq in Hj.
  rewrite Hr by lia. f_equal. lia.
Qed.

Lemma budgeted_single (st : kstate) (c : Z) (max : Z) :
  valid_cpu NCPU c ->
  (forall x, valid_cpu NCPU x -> x <> c -> head (cpu_logs st x) = 0) ->
  budgeted NCPU st max = firstn (Z.to_nat max) (valid_entries (cpu_logs st c)).
Proof.
  intros Hc Hz. unfold budgeted. f_equal.
  rewrite (flat_map_single _ (Z.to_nat c)).
  - unfold valid_cpu in Hc. now rewrite Z2Nat.id by lia.
  - apply seq_NoDup.
  - apply in_seq. unfold valid_cpu in Hc. lia.
  - intros x Hx Nx. apply in_seq in Hx.
    unfold valid_entries, window_start.
    rewrite (Hz (Z.of_nat x)); [reflexivity | unfold valid_cpu; lia | lia].
Qed.

(** C1.  After [256 + k] calls ([k > 0]) on one CPU of a log that was
    empty, a snapshot of at least 256 entries returns 256: the records of
    the last 256 calls, in call order, which is the ascending order of
    their sequence numbers; the records of the first [k] calls are not in
    it. *)
Theorem snapshot_after_wraparound (st0 : kstate) (calls : list call) (c : Z)
    (k : nat) (buf : Z -> klog_entry) (max : Z) :
  valid_cpu NCPU c ->
  (forall x, valid_cpu NCPU x -> head (cpu_logs st0 x) = 0) ->
  Forall (fun call => cpuid (c_env call) = c) calls ->
  (0 < k)%nat ->
  List.length calls = (256 + k)%nat ->
  Z.of_nat (256 + k) < 2 ^ 32 ->
  0 <= global_seq st0 ->
  global_seq st0 + Z.of_nat (256 + k) <= 2 ^ 32 ->
  256 <= max ->
  let rs := produced NCPU st0 calls in
  let r := klog_snapshot NCPU (run NCPU st0 calls) buf max in
  snd r = 256
  /\ slice (mem (snd (fst r))) 0 256 = skipn k rs
  /\ map seq (slice (mem (snd (fst r))) 0 256)
     = map (fun i => global_seq st0 + Z.of_nat (k + i)) (List.seq 0 256)
  /\ (forall e, In e (firstn k rs) -> ~ In e (slice (mem (snd (fst r))) 0 256)).
Proof.
  intros Hc Hz Hall Hk Hlen Hb H0 Hg Hmax rs r.
  set (d := Ex.zero_entry).
  assert (Hring0 : ring_holds (cpu_logs st0 c) [] d).
  { split; [now rewrite Hz|]. intros p Hp. rewrite (Hz c Hc) in Hp. lia. }
  destruct (run_ring NCPU c d calls Hc Hall st0 [] Hring0) as (Hring & Hoth & Hlen').
  { simpl. lia. }
  cbn [app] in Hring. fold rs in Hring, Hlen'.
  set (st := run NCPU st0 calls) in *.
  assert (Hrs : List.length rs = (256 + k)%nat) by congruence.
  assert (Hvals : map seq rs
                  = map (fun i => global_seq st0 + Z.of_nat i)
                        (List.seq 0 (256 + k))).
  { unfold rs. rewrite (produced_seq_values calls st0); [now rewrite Hlen| |exact H0|lia].
    eapply Forall_impl; [|exact Hall]. intros a Ha. simpl in Ha. now rewrite Ha. }
  assert (Hseq : forall i, (i < 256 + k)%nat ->
                   seq (nth i rs d) = global_seq st0 + Z.of_nat i).
  { intros i Hi. rewrite <- (map_nth seq), Hvals.
    rewrite (nth_indep _ (seq d) (global_seq st0 + Z.of_nat 0))
      by (now rewrite length_map, length_seq).
    rewrite (map_nth (fun i => global_seq st0 + Z.of_nat i)).
    now rewrite seq_nth. }
  assert (Hbud : budgeted NCPU st max = skipn k rs).
  { rewrite (budgeted_single st c max Hc).
    - rewrite (ring_valid_entries _ rs d k Hring Hrs Hk Hb).
      apply firstn_all2. rewrite length_skipn. lia.
    - intros x Hx Nx. rewrite Hoth by exact Nx. now apply Hz. }
  destruct (collect_spec NCPU st (fresh buf) max) as (Hs & Hn).
  cbv zeta in Hs, Hn. rewrite Hbud in Hs, Hn.
  rewrite length_skipn, Hrs in Hn.
  replace (Z.of_nat (256 + k - k)) with 256 in Hn by lia.
  unfold r. rewrite klog_snapshot_collect. cbn [fst snd].
  rewrite Hn in *. change (Z.to_nat 256) with 256%nat in Hs.
  rewrite bubble_sort_mem.
  assert (Hcell : forall j, 0 <= j < 256 ->
            mem (snd (fst (collect NCPU st (fresh buf) max))) j
            = nth (k + Z.to_nat j) rs d).
  { intros j Hj.
    rewrite <- (Z2Nat.id j) at 1 by lia.
    rewrite <- (Z.add_0_l (Z.of_nat (Z.to_nat j))).
    rewrite <- (slice_nth _ 0 256 (Z.to_nat j) d) by lia.
    rewrite Hs. now rewrite nth_skipn. }
  rewrite sort_cells_ascending.
  - split; [reflexivity|]. split; [exact Hs|]. split.
    + rewrite Hs. rewrite <- (nth_skipn_seq rs k d), map_map.
      replace (List.length rs - k)%nat with 256%nat by lia.
      apply map_ext_in. intros i Hi. apply in_seq in Hi. apply Hseq. lia.
    + intros e Hin Hin'. rewrite Hs in Hin'.
      apply (In_nth _ _ d) in Hin. destruct Hin as (i & Hi & Ei).
      apply (In_nth _ _ d) in Hin'. destruct Hin' as (j & Hj & Ej).
      rewrite length_firstn in Hi. rewrite length_skipn in Hj.
      rewrite nth_firstn in Ei.
      destruct (Nat.ltb_spec i k) as [_|]; [|lia].
      rewrite nth_skipn in Ej.
      assert (E : seq (nth i rs d) = seq (nth (k + j) rs d)) by congruence.
      rewrite !Hseq in E by lia. lia.
  - lia.
  - intros j Hj0 Hj1. rewrite !Hcell by lia. rewrite !Hseq by lia. lia.
Qed.

End Wraparound.

(** ** The formatter against the rendering of the specification *)

Import Render.

Lemma wrote_here (a : Z -> Z) (i : Z) (P : list Z) :
  63 <= i <= 64 -> wrote a i P a i.
Proof.
  intros H. unfold wrote. repeat split; intros; try reflexivity; lia.
Qed.

Lemma wrote_nil (a : Z -> Z) (i : Z) : i <= 64 -> wrote a i [] a i.
Proof.
  intros H. unfold wrote. cbn [List.length]. repeat split; intros; try reflexivity; lia.
Qed.

Lemma wrote_app (a a1 a2 : Z -> Z) (i i1 i2 : Z) (P Q : list Z) :
  wrote a i P a1 i1 -> wrote a1 i1 Q a2 i2 -> wrote a i (P ++ Q) a2 i2.
Proof.
  intros (B1 & K1 & W1 & L1 & T1) (B2 & K2 & W2 & L2 & T2).
  unfold wrote. rewrite length_app.
  split; [lia|]. split; [|split; [|split]].
  - intros x Hx. rewrite K2 by lia. apply K1. lia.
  - intros x Hx.
    destruct (Z_lt_le_dec x i1) as [Hlt|Hge].
    + rewrite K2 by lia. rewrite W1 by lia.
      rewrite app_nth1; [reflexivity|].
      destruct (Z_lt_le_dec i1 63); lia.
    + rewrite W2 by lia.
      assert (E : i1 - i = Z.of_nat (List.length P)) by (apply L1; lia).
      rewrite app_nth2 by lia. f_equal. lia.
  - intros H. lia.
  - intros H. destruct (Z_lt_le_dec i1 63); lia.
Qed.

Lemma wrote_one (a : Z -> Z) (i c : Z) :
  i < 63 -> wrote a i [c] (upd a i c) (i + 1).
Proof.
  intros H. unfold wrote. cbn [List.length]. repeat split; try lia.
  - intros x Hx. apply upd_other. lia.
  - intros x Hx. replace x with i by lia. rewrite upd_same.
    now replace (Z.to_nat (i - i)) with 0%nat by lia.
Qed.

Lemma wrote_two (a : Z -> Z) (i c d : Z) :
  i < 63 -> wrote a i [c; d] (upd (upd a i c) (i + 1) d) (i + 2).
Proof.
  intros H. unfold wrote. cbn [List.length]. repeat split; try lia.
  - intros x Hx. rewrite !upd_other by lia. reflexivity.
  - intros x Hx. destruct (Z.eq_dec x i) as [->|N].
    + rewrite upd_other by lia. rewrite upd_same.
      now replace (Z.to_nat (i - i)) with 0%nat by lia.
    + replace x with (i + 1) by lia. rewrite upd_same.
      now replace (Z.to_nat (i + 1 - i)) with 1%nat by lia.
Qed.

(** *** Digits *)

Lemma positional_fuel (base : Z) (glyph : Z -> Z) :
  2 <= base ->
  forall f1 f2 n suffix,
    n < base ^ Z.of_nat f1 -> n < base ^ Z.of_nat f2 ->
    positional f1 base glyph n suffix = positional f2 base glyph n suffix.
Proof.
  intros Hb. induction f1 as [|f1 IH]; intros f2 n suffix H1 H2.
  - simpl in H1. destruct f2 as [|f2]; [reflexivity|]. simpl.
    destruct (Z.leb_spec n 0); [reflexivity|lia].
  - simpl. destruct (Z.leb_spec n 0) as [Hn|Hn].
    + destruct f2 as [|f2]; [reflexivity|]. simpl.
      destruct (Z.leb_spec n 0); [reflexivity|lia].
    + destruct f2 as [|f2]; [simpl in H2; lia|]. simpl.
      destruct (Z.leb_spec n 0); [lia|].
      rewrite Nat2Z.inj_succ, Z.pow_succ_r in H1, H2 by lia.
      apply IH; apply Z.div_lt_upper_bound; lia.
Qed.

Lemma int_digits_positional (room : nat) :
  forall val tmp, int_digits room val tmp = positional room 10 dec_glyph val tmp.
Proof.
  induction room as [|room IH]; intros val tmp; [reflexivity|].
  cbn [int_digits positional].
  rewrite Z.gtb_ltb, Z.ltb_antisym.
  destruct (val <=? 0); [reflexivity|]. cbn [negb]. apply IH.
Qed.

Lemma hex_digit_glyph (d : Z) :
  0 <= d < 16 -> nth (Z.to_nat d) digits 0 = hex_glyph d.
Proof.
  intros H.
  assert (E : d = 0 \/ d = 1 \/ d = 2 \/ d = 3 \/ d = 4 \/ d = 5 \/ d = 6 \/ d = 7
              \/ d = 8 \/ d = 9 \/ d = 10 \/ d = 11 \/ d = 12 \/ d = 13 \/ d = 14
              \/ d = 15) by lia.
  repeat (destruct E as [->|E]; [reflexivity|]). subst d. reflexivity.
Qed.

Lemma hex_digits_positional (room : nat) :
  forall val tmp, hex_digits room val tmp = positional room 16 hex_glyph val tmp.
Proof.
  induction room as [|room IH]; intros val tmp; [reflexivity|].
  cbn [hex_digits positional].
  rewrite Z.gtb_ltb, Z.ltb_antisym.
  destruct (val <=? 0); [reflexivity|]. cbn [negb].
  rewrite IH. rewrite Z.shiftr_div_pow2 by lia.
  change (2 ^ 4) with 16.
  replace (Z.land val 15) with (val mod 16).
  - rewrite hex_digit_glyph; [reflexivity|]. apply Z.mod_pos_bound. lia.
  - change 15 with (Z.ones 4). rewrite Z.land_ones by lia. reflexivity.
Qed.

Lemma log2_fuel (base n : Z) :
  2 <= base -> 0 < n -> n < base ^ Z.of_nat (Datatypes.S (Z.to_nat (Z.log2 n))).
Proof.
  intros Hb Hn.
  pose proof (Z.log2_nonneg n). pose proof (Z.log2_spec n Hn) as [_ Hlt].
  rewrite Nat2Z.inj_succ, Z2Nat.id by lia.
  eapply Z.lt_le_trans; [exact Hlt|].
  apply Z.pow_le_mono_l. lia.
Qed.

(** The digits the code produces for a value that fits its 16-character
    scratch array are the digits of the value. *)
Lemma int_digits_numeral (val : Z) :
  0 <= val < 2 ^ 31 ->
  (if val =? 0 then [ch "0"] else int_digits 16 val []) = numeral 10 dec_glyph val.
Proof.
  intros H. unfold numeral. destruct (Z.eqb_spec val 0) as [->|N]; [reflexivity|].
  rewrite int_digits_positional.
  apply positional_fuel; [lia| |apply log2_fuel; lia].
  change (10 ^ Z.of_nat 16) with 10000000000000000. lia.
Qed.

Lemma hex_digits_numeral (val : Z) :
  0 <= val < 2 ^ 32 ->
  (if val =? 0 then [ch "0"] else hex_digits 16 val []) = numeral 16 hex_glyph val.
Proof.
  intros H. unfold numeral. destruct (Z.eqb_spec val 0) as [->|N]; [reflexivity|].
  rewrite hex_digits_positional.
  apply positional_fuel; [lia| |apply log2_fuel; lia].
  change (16 ^ Z.of_nat 16) with 18446744073709551616. lia.
Qed.

(** *** The helpers *)

Lemma emit_spec (base size : Z) (tmp : list Z) :
  forall j b,
    0 <= j <= size - 1 ->
    snd (emit tmp base size j b) = Z.min (j + Z.of_nat (List.length tmp)) (size - 1)
    /\ (forall x, j <= x < snd (emit tmp base size j b) ->
          mem (fst (emit tmp base size j b)) (base + x)
          = nth (Z.to_nat (x - j)) tmp 0)
    /\ (forall y, y < base + j \/ base + snd (emit tmp base size j b) <= y ->
          mem (fst (emit tmp base size j b)) y = mem b y).
Proof.
  induction tmp as [|c tmp IH]; intros j b Hj.
  - cbn [emit fst snd List.length]. repeat split; intros; try reflexivity; lia.
  - cbn [emit List.length].
    destruct (Z.ltb_spec j (size - 1)) as [Hlt|Hge].
    + destruct (IH (j + 1) (twrite b (base + j) c)) as (E & W & K); [lia|].
      split; [rewrite E; lia|]. split.
      * intros x Hx. destruct (Z.eq_dec x j) as [->|N].
        -- rewrite K by lia. unfold twrite; cbn [mem]. rewrite upd_same.
           now replace (Z.to_nat (j - j)) with 0%nat by lia.
        -- rewrite W by lia.
           replace (Z.to_nat (x - j)) with (Datatypes.S (Z.to_nat (x - (j + 1)))) by lia.
           reflexivity.
      * intros y Hy. rewrite K by lia. unfold twrite; cbn [mem].
        apply upd_other. lia.
    + cbn [fst snd]. repeat split; intros; try reflexivity; lia.
Qed.

Lemma staging_size (i : Z) : 0 <= i <= 64 -> s32 (u32 (64 - i)) = 64 - i.
Proof. intros H. rewrite u32_small by lia. apply s32_small. lia. Qed.

(** [snprintf_int] writes the integer, as far as the room before cell 63
    allows. *)
Lemma snprintf_int_wrote (b : traced Z) (i v : Z) :
  0 <= i < 63 -> - 2 ^ 31 < v < 2 ^ 31 ->
  wrote (mem b) i (integer v)
        (mem (fst (snprintf_int b i (64 - i) v)))
        (i + snd (snprintf_int b i (64 - i) v))
  /\ i + snd (snprintf_int b i (64 - i) v) <= 63.
Proof.
  intros Hi Hv. unfold snprintf_int, integer.
  destruct (Z.leb_spec (64 - i) 0) as [|_]; [lia|].
  destruct (Z.ltb_spec v 0) as [Hneg|Hpos]; cbn [andb].
  - rewrite (s32_small (- v)) by lia.
    rewrite int_digits_numeral by lia.
    destruct (Z.ltb_spec 0 (64 - i - 1)) as [_|]; [|lia].
    set (b1 := twrite b (i + 0) (ch "-")).
    set (tmp := numeral 10 dec_glyph (- v)).
    destruct (emit_spec i (64 - i) tmp 1 b1) as (E & W & K); [lia|].
    destruct (emit tmp i (64 - i) 1 b1) as [b2 j] eqn:Ee. cbn [fst snd] in *.
    split; [|lia]. unfold wrote, twrite; cbn [mem List.length].
    split; [lia|]. split; [|split; [|split]].
    + intros x Hx. rewrite upd_other by lia. rewrite K by lia.
      unfold b1, twrite; cbn [mem]. apply upd_other. lia.
    + intros x Hx. rewrite upd_other by lia.
      destruct (Z.eq_dec x i) as [->|N].
      * rewrite K by lia. unfold b1, twrite; cbn [mem].
        replace (i + 0) with i by lia. rewrite upd_same.
        now replace (Z.to_nat (i - i)) with 0%nat by lia.
      * replace x with (i + (x - i)) at 1 by lia. rewrite W by lia.
        replace (Z.to_nat (x - i)) with (Datatypes.S (Z.to_nat (x - i - 1))) by lia.
        reflexivity.
    + intros H. lia.
    + intros H. lia.
  - rewrite int_digits_numeral by lia.
    set (tmp := numeral 10 dec_glyph v).
    destruct (emit_spec i (64 - i) tmp 0 b) as (E & W & K); [lia|].
    destruct (emit tmp i (64 - i) 0 b) as [b2 j] eqn:Ee. cbn [fst snd] in *.
    split; [|lia]. unfold wrote, twrite; cbn [mem].
    split; [lia|]. split; [|split; [|split]].
    + intros x Hx. rewrite upd_other by lia. apply K. lia.
    + intros x Hx. rewrite upd_other by lia.
      replace x with (i + (x - i)) at 1 by lia. rewrite W by lia.
      now rewrite Z.sub_0_r.
    + intros H. lia.
    + intros H. lia.
Qed.

(** [snprintf_hex] does the same for the prefixed hexadecimal, when it has
    room for more than the prefix's two characters. *)
Lemma snprintf_hex_wrote (b : traced Z) (i v : Z) :
  0 <= i < 62 -> 0 <= v < 2 ^ 32 ->
  wrote (mem b) i (hexadecimal v)
        (mem (fst (snprintf_hex b i (64 - i) v)))
        (i + snd (snprintf_hex b i (64 - i) v))
  /\ i + snd (snprintf_hex b i (64 - i) v) <= 63.
Proof.
  intros Hi Hv. unfold snprintf_hex, hexadecimal.
  destruct (Z.leb_spec (64 - i) 2) as [|_]; [lia|].
  rewrite hex_digits_numeral by lia.
  set (b1 := twrite (twrite b (i + 0) (ch "0")) (i + 1) (ch "x")).
  set (tmp := numeral 16 hex_glyph v).
  destruct (emit_spec i (64 - i) tmp 2 b1) as (E & W & K); [lia|].
  destruct (emit tmp i (64 - i) 2 b1) as [b2 j] eqn:Ee. cbn [fst snd] in *.
  split; [|lia]. unfold wrote, twrite; cbn [mem List.length].
  split; [lia|]. split; [|split; [|split]].
  - intros x Hx. rewrite upd_other by lia. rewrite K by lia.
    unfold b1, twrite; cbn [mem]. rewrite !upd_other by lia. reflexivity.
  - intros x Hx. rewrite upd_other by lia.
    destruct (Z.eq_dec x i) as [->|N0].
    + rewrite K by lia. unfold b1, twrite; cbn [mem].
      rewrite upd_other by lia. replace (i + 0) with i by lia. rewrite upd_same.
      now replace (Z.to_nat (i - i)) with 0%nat by lia.
    + destruct (Z.eq_dec x (i + 1)) as [->|N1].
      * rewrite K by lia. unfold b1, twrite; cbn [mem]. rewrite upd_same.
        now replace (Z.to_nat (i + 1 - i)) with 1%nat by lia.
      * replace x with (i + (x - i)) at 1 by lia. rewrite W by lia.
        replace (Z.to_nat (x - i))
          with (Datatypes.S (Datatypes.S (Z.to_nat (x - i - 2)))) by lia.
        reflexivity.
  - intros H. lia.
  - intros H. lia.
Qed.

(** The string loop writes the characters of the string. *)
Lemma copy_str_wrote (s : list Z) :
  forall i b,
    0 <= i <= 64 ->
    wrote (mem b) i (text s) (mem (snd (copy_str s i b))) (fst (copy_str s i b)).
Proof.
  induction s as [|c s IH]; intros i b Hi; cbn [copy_str text fst snd].
  - apply wrote_nil. lia.
  - rewrite (u32_small i) by lia.
    destruct (Z.eqb_spec c 0) as [->|Nc]; cbn [orb fst snd].
    + apply wrote_nil. lia.
    + destruct (Z.ltb_spec i 63) as [Hlt|Hge]; cbn [negb fst snd].
      * change (c :: text s) with ([c] ++ text s).
        eapply wrote_app; [apply wrote_one; exact Hlt|].
        apply (IH (i + 1) (twrite b i c)). lia.
      * apply wrote_here. lia.
Qed.

(** *** The loop *)

Lemma s32_range (z : Z) : - 2 ^ 31 <= s32 z < 2 ^ 31.
Proof.
  unfold s32. pose proof (Z.mod_pos_bound (z + 2 ^ 31) (2 ^ 32)). lia.
Qed.

Lemma hex_at_before (n : nat) :
  forall fmt, (List.length fmt <= n)%nat ->
  forall ap pos, pos < 0 -> hex_at pos fmt ap = false.
Proof.
  induction n as [|n IH]; intros fmt Hn ap pos Hp.
  - destruct fmt; [reflexivity|simpl in Hn; lia].
  - destruct fmt as [|c fmt1]; [reflexivity|]. cbn [hex_at].
    simpl in Hn.
    destruct (c =? 0); [reflexivity|].
    destruct (negb (c =? ch "%")); [apply IH; lia|].
    destruct fmt1 as [|d fmt2]; [reflexivity|]. simpl in Hn.
    destruct (d =? 0); [reflexivity|].
    destruct (d =? ch "d"); [apply IH; lia|].
    destruct (d =? ch "x").
    { apply orb_false_iff. split; [apply Z.eqb_neq; lia|apply IH; lia]. }
    destruct (d =? ch "s"); [apply IH; lia|].
    destruct (d =? ch "%"); apply IH; lia.
Qed.

Lemma uint_args_next (ap : va_list) : uint_args ap -> uint_args (va_next ap).
Proof. intros H n. apply H. Qed.

(** The formatting loop writes the rendering of the template, as far as the
    room before cell 63 allows, as long as no hexadecimal directive is met
    at position 62 and no integer directive is given the least [int]. *)
Lemma format_loop_wrote (n : nat) :
  forall fmt, (List.length fmt <= n)%nat ->
  forall ap i b,
    0 <= i <= 64 ->
    uint_args ap ->
    hex_at (62 - i) fmt ap = false ->
    int_min_arg fmt ap = false ->
    wrote (mem b) i (render fmt ap)
          (mem (snd (format_loop fmt ap i b))) (fst (format_loop fmt ap i b)).
Proof.
  induction n as [|n IH]; intros fmt Hn ap i b Hi Hu Hx Hm.
  { destruct fmt; [|simpl in Hn; lia]. cbn [format_loop render fst snd].
    apply wrote_nil. lia. }
  destruct fmt as [|c fmt1];
    [cbn [format_loop render fst snd]; apply wrote_nil; lia|].
  simpl in Hn. cbn [format_loop render hex_at int_min_arg] in *.
  rewrite (u32_small i) by lia.
  destruct (Z.eqb_spec c 0) as [->|Nc]; cbn [orb fst snd].
  { apply wrote_nil. lia. }
  destruct (Z.ltb_spec i 63) as [Hlt|Hge]; cbn [negb fst snd];
    [|apply wrote_here; lia].
  destruct (c =? ch "%"); cbn [negb] in *.
  2:{ change (c :: render fmt1 ap) with ([c] ++ render fmt1 ap).
      eapply wrote_app; [apply wrote_one; exact Hlt|].
      apply (IH fmt1 ltac:(lia) ap (i + 1) (twrite b i c)); try assumption; [lia|].
      now replace (62 - (i + 1)) with (62 - i - 1) by lia. }
  destruct fmt1 as [|d fmt2]; [cbn [fst snd]; apply wrote_nil; lia|]. simpl in Hn.
  destruct (Z.eqb_spec d 0) as [->|Nd]; [cbn [fst snd]; apply wrote_nil; lia|].
  assert (Hnext : forall P a' i',
             wrote (mem b) i P a' i' ->
             hex_at (62 - i - Z.of_nat (List.length P)) fmt2 (va_next ap) = false ->
             hex_at (62 - i') fmt2 (va_next ap) = false).
  { intros P a' i' (B & _ & _ & L & _) H.
    destruct (Z_lt_le_dec i' 63) as [Hs|Hs].
    - rewrite <- (L Hs) in H. now replace (62 - i') with (62 - i - (i' - i)) by lia.
    - apply (hex_at_before (List.length fmt2)); [lia|lia]. }
  destruct (d =? ch "d").
  { apply orb_false_iff in Hm. destruct Hm as [Hmin Hm].
    apply Z.eqb_neq in Hmin. pose proof (s32_range (word (ap 0%nat))) as Hr.
    rewrite staging_size by lia.
    destruct (snprintf_int_wrote b i (s32 (word (ap 0%nat)))) as (W & Hle); [lia|lia|].
    destruct (snprintf_int b i (64 - i) (s32 (word (ap 0%nat)))) as [b1 k].
    cbn [fst snd] in *. pose proof W as (B & _).
    eapply wrote_app; [exact W|].
    apply (IH fmt2 ltac:(lia)); try assumption; [lia | now apply uint_args_next |].
    exact (Hnext _ _ _ W Hx). }
  destruct (d =? ch "x").
  { apply orb_false_iff in Hx. destruct Hx as [H62 Hx].
    apply Z.eqb_neq in H62. cbn [orb] in Hm.
    rewrite staging_size by lia.
    destruct (snprintf_hex_wrote b i (word (ap 0%nat))) as (W & Hle); [lia|apply Hu|].
    destruct (snprintf_hex b i (64 - i) (word (ap 0%nat))) as [b1 k].
    cbn [fst snd] in *. pose proof W as (B & _).
    eapply wrote_app; [exact W|].
    apply (IH fmt2 ltac:(lia)); try assumption; [lia | now apply uint_args_next |].
    exact (Hnext _ _ _ W Hx). }
  destruct (d =? ch "s").
  { cbn [orb] in Hm.
    assert (W : wrote (mem b) i (text_of (ap 0%nat))
                      (mem (snd (copy_str (if word (ap 0%nat) =? 0 then cstr "(null)"
                                           else pointee (ap 0%nat)) i b)))
                      (fst (copy_str (if word (ap 0%nat) =? 0 then cstr "(null)"
                                      else pointee (ap 0%nat)) i b))).
    { unfold text_of. destruct (word (ap 0%nat) =? 0).
      - change (cstr "(null)") with (text (cstr "(null)")) at 1.
        apply copy_str_wrote. lia.
      - apply copy_str_wrote. lia. }
    destruct (copy_str (if word (ap 0%nat) =? 0 then cstr "(null)"
                        else pointee (ap 0%nat)) i b) as [i1 b1].
    cbn [fst snd] in *.
    eapply wrote_app; [exact W|].
    destruct W as (B & W').
    apply (IH fmt2 ltac:(lia)); try assumption; [lia | now apply uint_args_next |].
    exact (Hnext _ _ _ (conj B W') Hx). }
  cbn [orb] in Hm.
  destruct (d =? ch "%").
  { change (ch "%" :: render fmt2 ap) with ([ch "%"] ++ render fmt2 ap).
    eapply wrote_app; [apply wrote_one; exact Hlt|].
    apply (IH fmt2 ltac:(lia) ap (i + 1) (twrite b i (ch "%"))); try assumption; [lia|].
    now replace (62 - (i + 1)) with (62 - i - 1) by lia. }
  change (ch "%" :: d :: render fmt2 ap) with ([ch "%"; d] ++ render fmt2 ap).
  eapply wrote_app; [apply wrote_two; exact Hlt|].
  apply (IH fmt2 ltac:(lia) ap (i + 2)
            (twrite (twrite b i (ch "%")) (i + 1) d)); try assumption; [lia|].
  destruct (Z.eq_dec i 62) as [->|N62].
  - apply (hex_at_before (List.length fmt2)); [lia|lia].
  - now replace (62 - (i + 2)) with (62 - i - 2) by lia.
Qed.

(** *** The rendering has no zero character *)

Lemma positional_nonzero (base : Z) (glyph : Z -> Z) :
  0 < base ->
  (forall d, 0 <= d < base -> nonzero (glyph d)) ->
  forall fuel n suffix,
    Forall nonzero suffix -> Forall nonzero (positional fuel base glyph n suffix).
Proof.
  intros Hb Hg. induction fuel as [|fuel IH]; intros n suffix Hs; [exact Hs|].
  cbn [positional]. destruct (n <=? 0); [exact Hs|].
  apply IH. constructor; [|exact Hs]. apply Hg. apply Z.mod_pos_bound. exact Hb.
Qed.

Lemma numeral_nonzero (base : Z) (glyph : Z -> Z) (n : Z) :
  0 < base ->
  (forall d, 0 <= d < base -> nonzero (glyph d)) ->
  Forall nonzero (numeral base glyph n).
Proof.
  intros Hb Hg. unfold numeral. destruct (n =? 0).
  - constructor; [apply Hg; lia|constructor].
  - apply positional_nonzero; [exact Hb|exact Hg|constructor].
Qed.

Lemma dec_glyph_nonzero (d : Z) : 0 <= d < 10 -> nonzero (dec_glyph d).
Proof. intros H. unfold nonzero, dec_glyph. change (ch "0") with 48. lia. Qed.

Lemma hex_glyph_nonzero (d : Z) : 0 <= d < 16 -> nonzero (hex_glyph d).
Proof.
  intros H. unfold nonzero, hex_glyph.
  change (ch "0") with 48. change (ch "a") with 97.
  destruct (d <? 10); lia.
Qed.

Lemma integer_nonzero (v : Z) : Forall nonzero (integer v).
Proof.
  unfold integer. destruct (v <? 0).
  - constructor; [discriminate|].
    apply numeral_nonzero; [lia|exact dec_glyph_nonzero].
  - apply numeral_nonzero; [lia|exact dec_glyph_nonzero].
Qed.

Lemma hexadecimal_nonzero (v : Z) : Forall nonzero (hexadecimal v).
Proof.
  unfold hexadecimal. constructor; [discriminate|]. constructor; [discriminate|].
  apply numeral_nonzero; [lia|exact hex_glyph_nonzero].
Qed.

Lemma text_nonzero (s : list Z) : Forall nonzero (text s).
Proof.
  induction s as [|c s IH]; [constructor|]. cbn [text].
  destruct (Z.eqb_spec c 0); [constructor|]. now constructor.
Qed.

Lemma text_of_nonzero (a : varg) : Forall nonzero (text_of a).
Proof.
  unfold text_of. destruct (word a =? 0); [|apply text_nonzero].
  change (cstr "(null)") with (text (cstr "(null)")). apply text_nonzero.
Qed.

Lemma render_nonzero (n : nat) :
  forall fmt, (List.length fmt <= n)%nat ->
  forall ap, Forall nonzero (render fmt ap).
Proof.
  induction n as [|n IH]; intros fmt Hn ap.
  { destruct fmt; [constructor|simpl in Hn; lia]. }
  destruct fmt as [|c fmt1]; [constructor|]. simpl in Hn. cbn [render].
  destruct (Z.eqb_spec c 0) as [|Nc]; [constructor|].
  destruct (negb (c =? ch "%")); [constructor; [exact Nc|apply IH; lia]|].
  destruct fmt1 as [|d fmt2]; [constructor|]. simpl in Hn.
  destruct (Z.eqb_spec d 0) as [|Nd]; [constructor|].
  destruct (d =? ch "d").
  { apply Forall_app. split; [apply integer_nonzero|apply IH; lia]. }
  destruct (d =? ch "x").
  { apply Forall_app. split; [apply hexadecimal_nonzero|apply IH; lia]. }
  destruct (d =? ch "s").
  { apply Forall_app. split; [apply text_of_nonzero|apply IH; lia]. }
  destruct (d =? ch "%").
  { constructor; [discriminate|apply IH; lia]. }
  constructor; [discriminate|]. constructor; [exact Nd|apply IH; lia].
Qed.

(** *** The copy into the entry *)

Lemma copy_msg_run (room : nat) :
  forall i buf m,
    (forall x, i <= x < i + Z.of_nat room -> buf x <> 0) ->
    fst (copy_msg room i buf m) = i + Z.of_nat room
    /\ (forall x, i <= x < i + Z.of_nat room -> snd (copy_msg room i buf m) x = buf x)
    /\ (forall x, x < i -> snd (copy_msg room i buf m) x = m x).
Proof.
  induction room as [|room IH]; intros i buf m H.
  - cbn [copy_msg fst snd]. repeat split; intros; try reflexivity; lia.
  - cbn [copy_msg].
    destruct (Z.eqb_spec (buf i) 0) as [E|_]; [exfalso; apply (H i); [lia|exact E]|].
    destruct (IH (i + 1) buf (upd m i (buf i))) as (E & W & K).
    { intros x Hx. apply H. lia. }
    split; [lia|]. split.
    + intros x Hx. destruct (Z.eq_dec x i) as [->|N].
      * rewrite K by lia. apply upd_same.
      * apply W. lia.
    + intros x Hx. rewrite K by lia. apply upd_other. lia.
Qed.

Section Truncation.

Variable NCPU : Z.

(** The message a call stores: the staging buffer copied into the slot. *)
Lemma record_msg (st : kstate) (e : env) (level : Z) (fmt : list Z) (ap : va_list) :
  valid_cpu NCPU (cpuid e) ->
  msg (entries (cpu_logs (klog_printf_level NCPU st e level fmt ap) (cpuid e))
               (head (cpu_logs st (cpuid e)) mod KLOG_BUF_SIZE))
  = upd (snd (copy_msg 63 0 (mem (snd (format_msg (stack e) fmt ap)))
                       (msg (entries (cpu_logs st (cpuid e))
                                     (head (cpu_logs st (cpuid e)) mod KLOG_BUF_SIZE)))))
        (fst (copy_msg 63 0 (mem (snd (format_msg (stack e) fmt ap)))
                       (msg (entries (cpu_logs st (cpuid e))
                                     (head (cpu_logs st (cpuid e)) mod KLOG_BUF_SIZE)))))
        0.
Proof.
  intros Hv. unfold klog_printf_level, klog_printf_internal.
  rewrite (valid_cpu_test NCPU _ Hv).
  destruct (format_msg (stack e) fmt ap) as [i0 b].
  unfold next_seq, set_cpu, set_seq_lock, set_global_seq, set_lock, set_head,
    set_entries.
  cbn [cpu_logs global_seq seq_lock head dropped entries lock fst snd].
  rewrite !upd_same.
  cbn [cpu_logs global_seq seq_lock head dropped entries lock fst snd].
  destruct (copy_msg _ _ _ _) as [i m].
  cbn [cpu_logs global_seq seq_lock head dropped entries lock fst snd].
  rewrite !upd_same.
  cbn [cpu_logs global_seq seq_lock head dropped entries lock fst snd msg].
  rewrite !upd_same. reflexivity.
Qed.

(** The staging buffer after the formatting step, for a rendering of more
    than 63 characters: its first 63 cells hold the first 63 characters. *)
Lemma format_msg_long (stack : Z -> Z) (fmt : list Z) (ap : va_list) :
  uint_args ap ->
  (63 < List.length (Render.render fmt ap))%nat ->
  Render.hex_at 62 fmt ap = false ->
  Render.int_min_arg fmt ap = false ->
  forall x, 0 <= x < 63 ->
    mem (snd (format_msg stack fmt ap)) x
    = nth (Z.to_nat x) (Render.render fmt ap) 0.
Proof.
  intros Hu Hlen Hx Hm x Hx63. unfold format_msg.
  pose proof (format_loop_wrote (List.length fmt) fmt (Nat.le_refl _) ap 0
                                (fresh stack) ltac:(lia) Hu Hx Hm) as W.
  destruct (format_loop fmt ap 0 (fresh stack)) as [i b].
  cbn [fst snd] in *. destruct W as (B & K & W & L & T).
  assert (Hi : 63 <= i) by (destruct (Z_lt_le_dec i 63); lia).
  unfold twrite; cbn [mem]. rewrite upd_other by lia.
  rewrite W by lia. now rewrite Z.sub_0_r.
Qed.

(** C7, amended.  When the message renders to more than 63 characters, no
    hexadecimal directive begins at position 62 and no integer directive is
    given the least [int], the stored message is the first 63 characters of
    the rendering followed by the terminator.  The call returns nothing but
    the new state: the truncation is not reported. *)
Theorem long_message_stored_as_first_63 (st : kstate) (e : env) (level : Z)
    (fmt : list Z) (ap : va_list) :
  valid_cpu NCPU (cpuid e) ->
  uint_args ap ->
  (63 < List.length (Render.render fmt ap))%nat ->
  Render.hex_at 62 fmt ap = false ->
  Render.int_min_arg fmt ap = false ->
  slice (msg (entries (cpu_logs (klog_printf_level NCPU st e level fmt ap) (cpuid e))
                      (head (cpu_logs st (cpuid e)) mod KLOG_BUF_SIZE)))
        0 64
  = firstn 63 (Render.render fmt ap) ++ [0].
Proof.
  intros Hv Hu Hlen Hx Hm. rewrite (record_msg st e level fmt ap Hv).
  pose proof (format_msg_long (stack e) fmt ap Hu Hlen Hx Hm) as Hbuf.
  set (buf := mem (snd (format_msg (stack e) fmt ap))) in *.
  set (m0 := msg (entries (cpu_logs st (cpuid e))
                          (head (cpu_logs st (cpuid e)) mod KLOG_BUF_SIZE))).
  assert (Hnz : forall x, 0 <= x < 0 + Z.of_nat 63 -> buf x <> 0).
  { intros x Hx'. rewrite Hbuf by lia.
    pose proof (render_nonzero (List.length fmt) fmt (Nat.le_refl _) ap) as Hall.
    rewrite Forall_forall in Hall. apply Hall. apply nth_In. lia. }
  destruct (copy_msg_run 63 0 buf m0 Hnz) as (E & W & _).
  rewrite E. change (0 + Z.of_nat 63) with 63 in *.
  change 64%nat with (63 + 1)%nat. rewrite slice_app, slice_one.
  change (0 + Z.of_nat 63) with 63. rewrite upd_same. f_equal.
  apply nth_ext with (d := 0) (d' := 0).
  - rewrite slice_length, length_firstn. lia.
  - intros k Hk. rewrite slice_length in Hk.
    rewrite slice_nth by exact Hk.
    rewrite upd_other by lia. rewrite W by lia. rewrite Hbuf by lia.
    rewrite nth_firstn.
    destruct (Nat.ltb_spec k 63); [|lia].
    f_equal. lia.
Qed.

End Truncation.

(** C7, as the claim has it: a hexadecimal directive met at position 62 is
    left out whole, so the stored message is not the first 63 characters of
    the rendering. *)
Lemma hex_at_62_is_left_out :
  let fmt := cstr (Ex.a62 ++ "%xbbb") in
  let st := klog_printf_level Ex.NCPU Ex.boot (Ex.on_cpu 0) KLOG_INFO fmt Ex.no_args in
  (63 < List.length (Render.render fmt Ex.no_args))%nat
  /\ slice (msg (entries (cpu_logs st 0) (head (cpu_logs Ex.boot 0) mod KLOG_BUF_SIZE)))
           0 64
     <> firstn 63 (Render.render fmt Ex.no_args) ++ [0].
Proof.
  split.
  - vm_compute. lia.
  - vm_compute. intros H. discriminate H.
Qed.

(** * Further properties of the code *)

(** ** The snapshot in general *)

Section SnapshotMore.

Variable NCPU : Z.

(** X1.  A call of [klog_snapshot] that returns at least one entry returns
    as many entries as the budget admits of the valid entries taken in CPU
    order, never more than the budget, and returns them in ascending order
    of sequence number. *)
Theorem snapshot_is_sorted_budget (st : kstate) (buf : Z -> klog_entry) (max : Z) :
  max <= 2 ^ 31 ->
  1 <= snd (klog_snapshot NCPU st buf max) ->
  let r := klog_snapshot NCPU st buf max in
  snd r = Z.of_nat (List.length (budgeted NCPU st max))
  /\ snd r <= max
  /\ Permutation (budgeted NCPU st max)
                 (slice (mem (snd (fst r))) 0 (Z.to_nat (snd r)))
  /\ Sorted seq_le (slice (mem (snd (fst r))) 0 (Z.to_nat (snd r))).
Proof.
  intros Hmax H1 r.
  destruct (snapshot_sorted_budget NCPU st buf max Hmax) as (Hn & Hp & Hs).
  fold r in Hn, Hp, Hs, H1. split; [exact Hn|]. split; [|split; assumption].
  assert (H0 : 0 <= max).
  { destruct (Z_lt_le_dec max 0) as [Hneg|Hpos]; [|exact Hpos].
    exfalso. rewrite Hn in H1. unfold budgeted in H1.
    replace (Z.to_nat max) with 0%nat in H1 by lia.
    cbn [firstn List.length] in H1. lia. }
  unfold r. rewrite klog_snapshot_collect. cbn [snd].
  now apply collect_count.
Qed.

(** X2.  A snapshot that returns at least one entry reads and writes only the
    cells [0 .. count-1] of its destination. *)
Theorem snapshot_stays_inside_count (st : kstate) (buf : Z -> klog_entry) (max : Z) :
  1 <= snd (klog_snapshot NCPU st buf max) ->
  forall x, In x (acc (snd (fst (klog_snapshot NCPU st buf max)))) ->
            0 <= x < snd (klog_snapshot NCPU st buf max).
Proof. intros H. exact (snapshot_within NCPU st buf max H). Qed.

Lemma snapshot_cpu_counter (max c : Z) (s : kstate * traced klog_entry * Z) :
  global_seq (fst (fst (snapshot_cpu max c s))) = global_seq (fst (fst s))
  /\ seq_lock (fst (fst (snapshot_cpu max c s))) = seq_lock (fst (fst s)).
Proof.
  destruct s as [[st b] count]. unfold snapshot_cpu. cbv zeta.
  destruct (head _ >? KLOG_BUF_SIZE); cbv beta iota;
    destruct (copy_entries _ _ _ _ _ _); split; reflexivity.
Qed.

Lemma snapshot_counter (st : kstate) (buf : Z -> klog_entry) (max : Z) :
  global_seq (fst (fst (klog_snapshot NCPU st buf max))) = global_seq st.
Proof.
  rewrite klog_snapshot_collect. cbn [fst]. unfold collect.
  apply (for_range_keeps
           (fun s : kstate * traced klog_entry * Z =>
              global_seq (fst (fst s)) = global_seq st)); [reflexivity|].
  intros i s _ Hs. now rewrite (proj1 (snapshot_cpu_counter max i s)).
Qed.

Lemma klog_clear_counter (st : kstate) :
  global_seq (klog_clear NCPU st) = global_seq st.
Proof.
  unfold klog_clear.
  apply (for_range_keeps (fun s => global_seq s = global_seq st)); [reflexivity|].
  intros i s _ Hs. exact Hs.
Qed.

Lemma klog_get_dropped_counter (st : kstate) :
  global_seq (fst (klog_get_dropped NCPU st)) = global_seq st.
Proof.
  unfold klog_get_dropped.
  apply (for_range_keeps
           (fun s : kstate * Z => global_seq (fst s) = global_seq st)); [reflexivity|].
  intros i [s t] _ Hs. exact Hs.
Qed.

(** X3.  Only a record on a CPU of the table advances the sequence counter, and
    by one: a snapshot, a clear, a drop count and a call on a CPU number
    outside the table leave it as it is. *)
Theorem counter_moves_only_by_records (st : kstate) (o : op) :
  global_seq (apply_op NCPU st o)
  = match o with
    | OpRecord c =>
        if (cpuid (c_env c) <? 0) || (cpuid (c_env c) >=? NCPU)
        then global_seq st
        else u32 (global_seq st + 1)
    | _ => global_seq st
    end.
Proof.
  destruct o as [c|buf max| |]; cbn [apply_op].
  - destruct (valid_cpu_dec NCPU (cpuid (c_env c))) as [Hv|Hv].
    + rewrite (valid_cpu_test NCPU _ Hv).
      now destruct (record_valid NCPU st c Hv) as (_ & _ & _ & Hg & _).
    + rewrite (invalid_cpu_test NCPU _ Hv). now rewrite record_invalid.
  - apply snapshot_counter.
  - apply klog_clear_counter.
  - apply klog_get_dropped_counter.
Qed.

End SnapshotMore.

(** ** The sequence counter past its last value *)

Section Wrap.

Variable NCPU : Z.

Lemma produced_seq_wrapping (calls : list call) :
  forall st,
    Forall (fun c => valid_cpu NCPU (cpuid (c_env c))) calls ->
    map seq (produced NCPU st calls)
    = map (fun i => if Nat.eqb i 0 then global_seq st
                    else u32 (global_seq st + Z.of_nat i))
          (List.seq 0 (List.length calls)).
Proof.
  induction calls as [|c cs IH]; intros st Hall; [reflexivity|].
  inversion Hall as [|? ? Hv Hall']; subst.
  cbn [produced List.length]. rewrite (stamped_valid NCPU st c Hv).
  destruct (record_valid NCPU st c Hv) as (_ & _ & _ & Hg & _ & Hs & _).
  cbn [map List.seq Nat.eqb]. rewrite Hs. f_equal.
  rewrite (IH _ Hall'), <- seq_shift, map_map.
  apply map_ext. intros i. cbn [Nat.eqb]. rewrite Hg.
  destruct i as [|i]; cbn [Nat.eqb].
  - f_equal; lia.
  - unfold u32. rewrite Zplus_mod_idemp_l. f_equal; lia.
Qed.

(** X4.  The records of calls on CPUs of the table carry the successive values
    of the counter modulo 2^32: the number after 2^32 - 1 is 0, so past that
    value numbers repeat and a later record carries a smaller number. *)
Theorem sequence_numbers_wrap (st : kstate) (calls : list call) :
  Forall (fun c => valid_cpu NCPU (cpuid (c_env c))) calls ->
  0 <= global_seq st < 2 ^ 32 ->
  map seq (produced NCPU st calls)
  = map (fun i => (global_seq st + Z.of_nat i) mod 2 ^ 32)
        (List.seq 0 (List.length calls)).
Proof.
  intros Hall Hg. rewrite (produced_seq_wrapping calls st Hall).
  apply map_ext. intros i. destruct i as [|i]; cbn [Nat.eqb]; [|reflexivity].
  rewrite Z.add_0_r. symmetry. apply Z.mod_small. exact Hg.
Qed.

End Wrap.

(** ** Clearing and counting drops *)

Section ClearMore.

Variable NCPU : Z.

Lemma klog_clear_rings (st : kstate) :
  (forall c, valid_cpu NCPU c ->
             head (cpu_logs (klog_clear NCPU st) c) = 0
             /\ dropped (cpu_logs (klog_clear NCPU st) c) = 0
             /\ lock (cpu_logs (klog_clear NCPU st) c) = release (lock (cpu_logs st c)))
  /\ (forall c, entries (cpu_logs (klog_clear NCPU st) c) = entries (cpu_logs st c))
  /\ (forall c, ~ valid_cpu NCPU c -> cpu_logs (klog_clear NCPU st) c = cpu_logs st c).
Proof.
  unfold klog_clear, valid_cpu.
  destruct (Z_lt_le_dec NCPU 0) as [Hn|Hn].
  { unfold for_range. replace (Z.to_nat (NCPU - 0)) with 0%nat by lia.
    cbn [loop_from]. repeat split; intros; try reflexivity; lia. }
  apply (for_range_inv
           (fun i s =>
              (forall c, 0 <= c < i ->
                         head (cpu_logs s c) = 0 /\ dropped (cpu_logs s c) = 0
                         /\ lock (cpu_logs s c) = release (lock (cpu_logs st c)))
              /\ (forall c, entries (cpu_logs s c) = entries (cpu_logs st c))
              /\ (forall c, ~ 0 <= c < i -> cpu_logs s c = cpu_logs st c))).
  - exact Hn.
  - repeat split; intros; try reflexivity; lia.
  - intros i s Hi (H1 & H2 & H3). unfold clear_cpu. split; [|split].
    + intros c Hc. destruct (Z.eq_dec c i) as [->|N].
      * rewrite cpu_logs_set_cpu. now repeat split.
      * rewrite !cpu_logs_set_cpu_other by exact N. apply H1. lia.
    + intros c. destruct (Z.eq_dec c i) as [->|N].
      * rewrite !cpu_logs_set_cpu. cbn [entries set_lock set_head set_dropped].
        apply H2.
      * rewrite !cpu_logs_set_cpu_other by exact N. apply H2.
    + intros c Hc. rewrite !cpu_logs_set_cpu_other by lia. apply H3. lia.
Qed.

(** X5.  [klog_clear] sets the cursor and the drop counter of every CPU of the
    table to 0 and nothing else: the stored entries and the sequence counter
    stay.  The next record goes to slot 0 of its CPU with the sequence
    number that was due before the clear. *)
Theorem klog_clear_effect (st : kstate) :
  (forall c, valid_cpu NCPU c ->
             head (cpu_logs (klog_clear NCPU st) c) = 0
             /\ dropped (cpu_logs (klog_clear NCPU st) c) = 0)
  /\ (forall c idx, entries (cpu_logs (klog_clear NCPU st) c) idx
                    = entries (cpu_logs st c) idx)
  /\ global_seq (klog_clear NCPU st) = global_seq st
  /\ (forall c, valid_cpu NCPU (cpuid (c_env c)) ->
        seq (entries (cpu_logs (record NCPU (klog_clear NCPU st) c) (cpuid (c_env c))) 0)
        = global_seq st).
Proof.
  destruct (klog_clear_rings st) as (H1 & H2 & _).
  split; [|split; [|split]].
  - intros c Hc. destruct (H1 c Hc) as (h & d & _). now split.
  - intros c idx. now rewrite H2.
  - apply klog_clear_counter.
  - intros c Hv.
    destruct (record_valid NCPU (klog_clear NCPU st) c Hv) as (_ & _ & _ & _ & _ & Hs & _).
    cbv zeta in Hs. rewrite (proj1 (H1 _ Hv)) in Hs.
    change (0 mod KLOG_BUF_SIZE) with 0 in Hs.
    rewrite Hs. apply klog_clear_counter.
Qed.

Lemma dropped_sum_S (st : kstate) (n : nat) :
  dropped_sum st (Datatypes.S n) = dropped_sum st n + dropped (cpu_logs st (Z.of_nat n)).
Proof.
  unfold dropped_sum. rewrite seq_S, fold_right_app. cbn [fold_right Nat.add].
  generalize (List.seq 0 n). intros l.
  induction l as [|a l IH]; cbn [fold_right]; [lia|]. rewrite IH. lia.
Qed.

(** X6.  [klog_get_dropped] returns the sum of the drop counters of the CPUs of
    the table, modulo 2^32, and leaves every ring and the sequence counter
    as they are. *)
Theorem klog_get_dropped_is_sum (st : kstate) :
  snd (klog_get_dropped NCPU st) = (dropped_sum st (Z.to_nat NCPU)) mod 2 ^ 32
  /\ same_rings st (fst (klog_get_dropped NCPU st))
  /\ global_seq (fst (klog_get_dropped NCPU st)) = global_seq st.
Proof.
  split; [|split; [|apply klog_get_dropped_counter]].
  - unfold klog_get_dropped, for_range.
    pose (P := fun (i : Z) (s : kstate * Z) =>
                 same_rings st (fst s)
                 /\ snd s = (dropped_sum st (Z.to_nat i)) mod 2 ^ 32).
    assert (H : P (0 + Z.of_nat (Z.to_nat (NCPU - 0)))
                  (loop_from (Z.to_nat (NCPU - 0)) 0 dropped_cpu (st, 0))).
    { apply loop_from_inv.
      - split; [apply same_rings_refl|reflexivity].
      - intros i [s total] Hi (HR & Ht). cbn [fst snd] in HR, Ht.
        unfold dropped_cpu, P. rewrite cpu_logs_set_cpu. cbn [fst snd]. split.
        + apply same_rings_trans with s; [exact HR|].
          apply same_rings_trans
            with (set_cpu s i (set_lock (cpu_logs s i) (acquire (lock (cpu_logs s i))))).
          * apply set_cpu_lock_rings. apply same_ring_refl.
          * apply set_cpu_lock_rings. rewrite cpu_logs_set_cpu. now repeat split.
        + change (dropped (set_lock (cpu_logs s i) (acquire (lock (cpu_logs s i)))))
            with (dropped (cpu_logs s i)).
          destruct (HR i) as (_ & d & _). rewrite d, Ht.
          replace (Z.to_nat (i + 1)) with (Datatypes.S (Z.to_nat i)) by lia.
          rewrite dropped_sum_S, Z2Nat.id by lia.
          unfold u32. now rewrite Zplus_mod_idemp_l. }
    destruct H as (_ & H).
    now replace (Z.to_nat (0 + Z.of_nat (Z.to_nat (NCPU - 0)))) with (Z.to_nat NCPU) in H by lia.
  - unfold klog_get_dropped.
    apply (for_range_keeps (fun s : kstate * Z => same_rings st (fst s)));
      [apply same_rings_refl|].
    intros i [s total] _ HR. cbn [fst] in HR. unfold dropped_cpu. cbn [fst].
    apply same_rings_trans with s; [exact HR|].
    apply same_rings_trans
      with (set_cpu s i (set_lock (cpu_logs s i) (acquire (lock (cpu_logs s i))))).
    + apply set_cpu_lock_rings. apply same_ring_refl.
    + rewrite cpu_logs_set_cpu.
      apply set_cpu_lock_rings. rewrite cpu_logs_set_cpu. now repeat split.
Qed.

End ClearMore.

(** ** The device read and the query *)

Lemma klogdev_copy_all_ok (ok : Z -> Z -> bool) (entries : Z -> klog_entry)
    (dst n : Z) :
  (forall va, ok va sizeof_klog_entry = true) ->
  0 <= n < 2 ^ 31 ->
  forall (room i : nat),
    Z.of_nat (i + room) * 88 < 2 ^ 31 ->
    let m := if n / 88 <=? Z.of_nat i then Z.of_nat i
             else Z.min (Z.of_nat (i + room)) (n / 88) in
    klogdev_copy room ok entries dst n (Z.of_nat i) (Z.of_nat i * 88)
                 (wire_records (fun k => u32 (dst + k * 88)) entries i)
    = (m * 88, wire_records (fun k => u32 (dst + k * 88)) entries (Z.to_nat m)).
Proof.
  intros Hok Hn.
  pose proof (Z_div_mod_eq_full n 88) as Hdm.
  pose proof (Z.mod_pos_bound n 88 ltac:(lia)) as Hmod.
  induction room as [|room IH]; intros i Hb; cbv zeta.
  - cbn [klogdev_copy].
    destruct (Z.leb_spec (n / 88) (Z.of_nat i)).
    + now rewrite Nat2Z.id.
    + replace (Z.min (Z.of_nat (i + 0)) (n / 88)) with (Z.of_nat i) by lia.
      now rewrite Nat2Z.id.
  - cbn [klogdev_copy]. rewrite copyout_entry, Hok.
    change sizeof_klog_entry with 88.
    rewrite (u32_small (Z.of_nat i * 88 + 88)) by lia.
    rewrite (u32_small n) by lia.
    destruct (Z.leb_spec (Z.of_nat i * 88 + 88) n) as [Hfit|Hno].
    + rewrite <- (wire_records_snoc (fun k => u32 (dst + k * 88))).
      replace (Z.of_nat i + 1) with (Z.of_nat (Datatypes.S i)) by lia.
      replace (s32 (Z.of_nat i * 88 + 88)) with (Z.of_nat (Datatypes.S i) * 88)
        by (rewrite s32_small; lia).
      rewrite IH by (replace (Datatypes.S i + room)%nat
                       with (i + Datatypes.S room)%nat by lia; exact Hb).
      cbv zeta.
      destruct (Z.leb_spec (n / 88) (Z.of_nat i)) as [|_]; [lia|].
      destruct (Z.leb_spec (n / 88) (Z.of_nat (Datatypes.S i))).
      * replace (Z.min (Z.of_nat (i + Datatypes.S room)) (n / 88))
          with (Z.of_nat (Datatypes.S i)) by lia.
        reflexivity.
      * replace (Z.of_nat (Datatypes.S i + room)) with (Z.of_nat (i + Datatypes.S room))
          by lia.
        reflexivity.
    + destruct (Z.leb_spec (n / 88) (Z.of_nat i)) as [_|]; [|lia].
      now rewrite Nat2Z.id.
Qed.

Section BoundariesMore.

Variable NCPU : Z.
Variable PGSIZE : Z.

(** X7.  When the snapshot returns at least one record and every record can
    be copied out, a read of [n] bytes delivers as many whole records of
    the snapshot as fit in [n] bytes, at consecutive 88-byte steps, and
    returns their size in bytes; the rings are left as they were. *)
Theorem klogdev_read_whole_records (st : kstate) (ok : Z -> Z -> bool)
    (entries : Z -> klog_entry) (dst n : Z) :
  (forall va, ok va sizeof_klog_entry = true) ->
  0 <= n < 2 ^ 31 ->
  1 <= snd (klog_snapshot NCPU st entries 64) ->
  let snap := klog_snapshot NCPU st entries 64 in
  let m := Z.min (snd snap) (n / 88) in
  let r := klogdev_read NCPU st ok entries dst n in
  0 <= m <= 64
  /\ snd (fst r) = m * 88
  /\ snd r = wire_records (fun k => u32 (dst + k * 88)) (mem (snd (fst snap)))
                          (Z.to_nat m)
  /\ same_rings st (fst (fst r)).
Proof.
  intros Hok Hn _ snap m r.
  pose proof (snapshot_count NCPU st entries 64 ltac:(lia)) as Hc.
  pose proof (snapshot_rings NCPU st entries 64) as HR.
  fold snap in Hc, HR.
  assert (Hdiv : 0 <= n / 88) by (apply Z.div_pos; lia).
  unfold r, klogdev_read. fold snap.
  destruct snap as [[s b] count]. cbn [fst snd] in *.
  pose proof (klogdev_copy_all_ok ok (mem b) dst n Hok Hn (Z.to_nat count) 0
                                  ltac:(lia)) as E.
  cbv zeta in E.
  change (wire_records (fun k => u32 (dst + k * 88)) (mem b) 0)
    with (@nil delivery) in E.
  change (Z.of_nat 0 * 88) with 0 in E. change (Z.of_nat 0) with 0 in E.
  rewrite E. cbn [fst snd].
  destruct (Z.leb_spec (n / 88) 0) as [Hz|Hz].
  - assert (Em : m = 0) by (unfold m; lia). rewrite Em.
    split; [lia|]. split; [reflexivity|]. split; [reflexivity|exact HR].
  - replace (Z.min (Z.of_nat (0 + Z.to_nat count)) (n / 88)) with m
      by (unfold m; lia).
    split; [unfold m; lia|]. split; [reflexivity|]. split; [reflexivity|exact HR].
Qed.

(** X8.  A query with accepted arguments and a staging page, whose snapshot
    returns at least one record, delivers the records of the snapshot in
    order at 88-byte steps from the destination.  If
    every copy succeeds it returns the count; at the first record that
    cannot be copied it returns -1 and the records before it stay
    delivered.  The rings and the sequence counter are left as they were. *)
Theorem getklog_delivers_in_order (st : kstate) (buf_addr max sz : Z)
    (kbuf : Z -> klog_entry) (ok : Z -> Z -> bool) :
  - 2 ^ 31 <= buf_addr < 2 ^ 31 ->
  0 <= sz < 2 ^ 32 ->
  getklog_accepts buf_addr max sz ->
  1 <= snd (klog_snapshot NCPU st kbuf (effective_max PGSIZE max)) ->
  let snap := klog_snapshot NCPU st kbuf (effective_max PGSIZE max) in
  let r := sys_getklog NCPU PGSIZE st (Some buf_addr) (Some max) sz (Some kbuf) ok in
  exists m : nat,
    snd r = wire_records (getklog_addr buf_addr) (mem (snd (fst snap))) m
    /\ (forall k, (k < m)%nat ->
          ok (getklog_addr buf_addr (Z.of_nat k)) sizeof_klog_entry = true)
    /\ ((snd (fst r) = snd snap /\ Z.of_nat m = snd snap)
        \/ (snd (fst r) = -1 /\ Z.of_nat m < snd snap
            /\ ok (getklog_addr buf_addr (Z.of_nat m)) sizeof_klog_entry = false))
    /\ same_rings st (fst (fst r))
    /\ global_seq (fst (fst r)) = global_seq st.
Proof.
  intros Hb Hs Ha _ snap r. unfold r.
  rewrite (sys_getklog_accepted NCPU PGSIZE st buf_addr max sz (Some kbuf) ok Hb Hs Ha).
  cbv zeta. fold snap. cbn [fst snd].
  destruct Ha as (Hm & _).
  pose proof (effective_max_range PGSIZE max ltac:(lia)) as He.
  pose proof (snapshot_count NCPU st kbuf (effective_max PGSIZE max) ltac:(lia)) as Hc.
  pose proof (snapshot_rings NCPU st kbuf (effective_max PGSIZE max)) as HR.
  pose proof (snapshot_counter NCPU st kbuf (effective_max PGSIZE max)) as HG.
  fold snap in Hc, HR, HG.
  destruct (getklog_copy_spec ok (mem (snd (fst snap))) buf_addr
              (Z.to_nat (snd snap)) 0) as (m & Hm' & Ho & Hk & Ht & Hf).
  change (wire_records (getklog_addr buf_addr) (mem (snd (fst snap))) 0)
    with (@nil delivery) in *.
  change (Z.of_nat 0) with 0 in *.
  exists m. split; [exact Ho|]. split; [intros k Hk'; apply Hk; lia|].
  split; [|split; assumption].
  destruct (fst (getklog_copy (Z.to_nat (snd snap)) ok (mem (snd (fst snap)))
                              buf_addr 0 [])).
  - left. specialize (Ht eq_refl). split; [reflexivity|lia].
  - right. destruct (Hf eq_refl) as (Hlt & Hbad).
    split; [reflexivity|]. split; [lia|exact Hbad].
Qed.

End BoundariesMore.

(** ** The number formatters *)

Lemma slice_pointwise {A : Type} (a : Z -> A) (lo : Z) (l : list A) (d : A) :
  (forall k, (k < List.length l)%nat -> a (lo + Z.of_nat k) = nth k l d) ->
  slice a lo (List.length l) = l.
Proof.
  intros H. apply nth_ext with (d := d) (d' := d).
  - apply slice_length.
  - intros k Hk. rewrite slice_length in Hk.
    rewrite slice_nth by exact Hk. now apply H.
Qed.

Lemma emit_touched (base size : Z) (tmp : list Z) :
  forall j b, 0 <= j ->
    touched b (fst (emit tmp base size j b)) (base + j) (base + size - 2).
Proof.
  induction tmp as [|c tmp IH]; intros j b Hj x Hx; cbn [emit fst] in Hx.
  - now left.
  - destruct (Z.ltb_spec j (size - 1)) as [Hlt|Hge]; [|now left].
    apply IH in Hx; [|lia]. destruct Hx as [[<-|Hx]|Hx].
    + right. lia.
    + now left.
    + right. lia.
Qed.

Lemma snprintf_int_safe (b : traced Z) (base size val : Z) :
  (size <= 0 -> snprintf_int b base size val = (b, 0))
  /\ (0 < size ->
      0 <= snd (snprintf_int b base size val) <= size - 1
      /\ mem (fst (snprintf_int b base size val))
             (base + snd (snprintf_int b base size val)) = 0
      /\ touched b (fst (snprintf_int b base size val)) base (base + size - 1)
      /\ (forall y, y < base \/ base + size <= y ->
            mem (fst (snprintf_int b base size val)) y = mem b y)).
Proof.
  unfold snprintf_int. destruct (Z.leb_spec size 0) as [Hs|Hs].
  { split; [reflexivity|lia]. }
  split; [lia|]. intros _.
  set (v := if val <? 0 then s32 (- val) else val).
  set (tmp := if v =? 0 then [ch "0"] else int_digits 16 v []).
  destruct ((val <? 0) && (0 <? size - 1)) eqn:Eneg.
  - apply andb_true_iff in Eneg. destruct Eneg as [_ H1]. apply Z.ltb_lt in H1.
    set (b1 := twrite b (base + 0) (ch "-")).
    destruct (emit_spec base size tmp 1 b1) as (E & _ & K); [lia|].
    pose proof (emit_touched base size tmp 1 b1 ltac:(lia)) as T.
    destruct (emit tmp base size 1 b1) as [b2 j]. cbn [fst snd] in *.
    split; [lia|]. split; [unfold twrite; cbn [mem]; apply upd_same|]. split.
    + intros x [<-|Hx]; [right; lia|].
      apply T in Hx. destruct Hx as [[<-|Hx]|Hx]; [right; lia|now left|right; lia].
    + intros y Hy. unfold twrite; cbn [mem]. rewrite upd_other by lia.
      rewrite K by lia. unfold b1, twrite; cbn [mem]. apply upd_other. lia.
  - destruct (emit_spec base size tmp 0 b) as (E & _ & K); [lia|].
    pose proof (emit_touched base size tmp 0 b ltac:(lia)) as T.
    destruct (emit tmp base size 0 b) as [b2 j]. cbn [fst snd] in *.
    split; [lia|]. split; [unfold twrite; cbn [mem]; apply upd_same|]. split.
    + intros x [<-|Hx]; [right; lia|].
      apply T in Hx. destruct Hx as [Hx|Hx]; [now left|right; lia].
    + intros y Hy. unfold twrite; cbn [mem]. rewrite upd_other by lia.
      apply K. lia.
Qed.

Lemma snprintf_hex_safe (b : traced Z) (base size val : Z) :
  (size <= 2 -> snprintf_hex b base size val = (b, 0))
  /\ (2 < size ->
      2 <= snd (snprintf_hex b base size val) <= size - 1
      /\ mem (fst (snprintf_hex b base size val))
             (base + snd (snprintf_hex b base size val)) = 0
      /\ touched b (fst (snprintf_hex b base size val)) base (base + size - 1)
      /\ (forall y, y < base \/ base + size <= y ->
            mem (fst (snprintf_hex b base size val)) y = mem b y)).
Proof.
  unfold snprintf_hex. destruct (Z.leb_spec size 2) as [Hs|Hs].
  { split; [reflexivity|lia]. }
  split; [lia|]. intros _.
  set (tmp := if val =? 0 then [ch "0"] else hex_digits 16 val []).
  set (b1 := twrite (twrite b (base + 0) (ch "0")) (base + 1) (ch "x")).
  destruct (emit_spec base size tmp 2 b1) as (E & _ & K); [lia|].
  pose proof (emit_touched base size tmp 2 b1 ltac:(lia)) as T.
  destruct (emit tmp base size 2 b1) as [b2 j]. cbn [fst snd] in *.
  split; [lia|]. split; [unfold twrite; cbn [mem]; apply upd_same|]. split.
  - intros x [<-|Hx]; [right; lia|].
    apply T in Hx. destruct Hx as [[<-|[<-|Hx]]|Hx];
      [right; lia|right; lia|now left|right; lia].
  - intros y Hy. unfold twrite; cbn [mem]. rewrite upd_other by lia.
    rewrite K by lia. unfold b1, twrite; cbn [mem]. rewrite !upd_other by lia.
    reflexivity.
Qed.

(** X9.  [snprintf_int] with no room writes nothing and returns 0.  With room it
    returns a length below [size], stores a terminator at that offset, and
    accesses only the [size] cells it was given, whatever the value. *)
Theorem snprintf_int_stays_in_its_room (b : traced Z) (base size val : Z) :
  (size <= 0 -> snprintf_int b base size val = (b, 0))
  /\ (0 < size ->
      0 <= snd (snprintf_int b base size val) <= size - 1
      /\ mem (fst (snprintf_int b base size val))
             (base + snd (snprintf_int b base size val)) = 0
      /\ touched b (fst (snprintf_int b base size val)) base (base + size - 1)
      /\ (forall y, y < base \/ base + size <= y ->
            mem (fst (snprintf_int b base size val)) y = mem b y)).
Proof. exact (snprintf_int_safe b base size val). Qed.

(** X10.  [snprintf_hex] given two cells or fewer writes nothing, not even a
    terminator, and returns 0.  Given more it writes at least the prefix,
    returns a length below [size], stores a terminator at that offset, and
    accesses only the [size] cells it was given. *)
Theorem snprintf_hex_stays_in_its_room (b : traced Z) (base size val : Z) :
  (size <= 2 -> snprintf_hex b base size val = (b, 0))
  /\ (2 < size ->
      2 <= snd (snprintf_hex b base size val) <= size - 1
      /\ mem (fst (snprintf_hex b base size val))
             (base + snd (snprintf_hex b base size val)) = 0
      /\ touched b (fst (snprintf_hex b base size val)) base (base + size - 1)
      /\ (forall y, y < base \/ base + size <= y ->
            mem (fst (snprintf_hex b base size val)) y = mem b y)).
Proof. exact (snprintf_hex_safe b base size val). Qed.

Lemma slice_firstn {A : Type} (a : Z -> A) (lo n : Z) (P : list A) (d : A) :
  0 <= n ->
  (forall k, 0 <= k < Z.min (Z.of_nat (List.length P)) n ->
             a (lo + k) = nth (Z.to_nat k) P d) ->
  slice a lo (Z.to_nat (Z.min (Z.of_nat (List.length P)) n)) = firstn (Z.to_nat n) P.
Proof.
  intros Hn H. apply nth_ext with (d := d) (d' := d).
  - rewrite slice_length, length_firstn. lia.
  - intros k Hk. rewrite slice_length in Hk.
    rewrite slice_nth by exact Hk. rewrite H by lia.
    rewrite Nat2Z.id, nth_firstn.
    destruct (Nat.ltb_spec k (Z.to_nat n)); [reflexivity|lia].
Qed.

Lemma snprintf_int_text (b : traced Z) (base size v : Z) :
  - 2 ^ 31 < v < 2 ^ 31 -> 0 < size ->
  snd (snprintf_int b base size v)
  = Z.min (Z.of_nat (List.length (integer v))) (size - 1)
  /\ slice (mem (fst (snprintf_int b base size v))) base
           (Z.to_nat (snd (snprintf_int b base size v)))
     = firstn (Z.to_nat (size - 1)) (integer v).
Proof.
  intros Hv Hs. unfold snprintf_int, integer.
  destruct (Z.leb_spec size 0) as [|_]; [lia|].
  destruct (Z.ltb_spec v 0) as [Hneg|Hpos]; cbn [andb].
  - rewrite (s32_small (- v)) by lia. rewrite int_digits_numeral by lia.
    set (tmp := numeral 10 dec_glyph (- v)).
    destruct (Z.ltb_spec 0 (size - 1)) as [Hroom|Hroom].
    + set (b1 := twrite b (base + 0) (ch "-")).
      destruct (emit_spec base size tmp 1 b1) as (E & W & K); [lia|].
      destruct (emit tmp base size 1 b1) as [b2 j]. cbn [fst snd] in *.
      assert (Ej : j = Z.min (Z.of_nat (List.length (ch "-" :: tmp))) (size - 1))
        by (cbn [List.length]; lia).
      split; [exact Ej|]. rewrite Ej.
      apply (slice_firstn _ _ _ _ 0); [lia|]. rewrite <- Ej.
      intros k Hk. unfold twrite; cbn [mem]. rewrite upd_other by lia.
      destruct (Z.eq_dec k 0) as [->|N].
      * rewrite K by lia. unfold b1, twrite; cbn [mem]. apply upd_same.
      * rewrite W by lia.
        replace (Z.to_nat k) with (Datatypes.S (Z.to_nat (k - 1))) by lia.
        reflexivity.
    + destruct (emit_spec base size tmp 0 b) as (E & W & K); [lia|].
      destruct (emit tmp base size 0 b) as [b2 j]. cbn [fst snd] in *.
      assert (Ej : j = 0) by lia. rewrite Ej.
      replace (size - 1) with 0 by lia.
      split; [cbn [List.length]; lia|reflexivity].
  - rewrite int_digits_numeral by lia.
    set (tmp := numeral 10 dec_glyph v).
    destruct (emit_spec base size tmp 0 b) as (E & W & K); [lia|].
    destruct (emit tmp base size 0 b) as [b2 j]. cbn [fst snd] in *.
    assert (Ej : j = Z.min (Z.of_nat (List.length tmp)) (size - 1)) by lia.
    split; [exact Ej|]. rewrite Ej.
    apply (slice_firstn _ _ _ _ 0); [lia|]. rewrite <- Ej.
    intros k Hk. unfold twrite; cbn [mem]. rewrite upd_other by lia.
    rewrite W by lia. now rewrite Z.sub_0_r.
Qed.

Lemma snprintf_hex_text (b : traced Z) (base size v : Z) :
  0 <= v < 2 ^ 32 -> 2 < size ->
  snd (snprintf_hex b base size v)
  = Z.min (Z.of_nat (List.length (hexadecimal v))) (size - 1)
  /\ slice (mem (fst (snprintf_hex b base size v))) base
           (Z.to_nat (snd (snprintf_hex b base size v)))
     = firstn (Z.to_nat (size - 1)) (hexadecimal v).
Proof.
  intros Hv Hs. unfold snprintf_hex, hexadecimal.
  destruct (Z.leb_spec size 2) as [|_]; [lia|].
  rewrite hex_digits_numeral by lia.
  set (tmp := numeral 16 hex_glyph v).
  set (b1 := twrite (twrite b (base + 0) (ch "0")) (base + 1) (ch "x")).
  destruct (emit_spec base size tmp 2 b1) as (E & W & K); [lia|].
  destruct (emit tmp base size 2 b1) as [b2 j]. cbn [fst snd] in *.
  assert (Ej : j = Z.min (Z.of_nat (List.length (ch "0" :: ch "x" :: tmp))) (size - 1))
    by (cbn [List.length]; lia).
  split; [exact Ej|]. rewrite Ej.
  apply (slice_firstn _ _ _ _ 0); [lia|]. rewrite <- Ej.
  intros k Hk. unfold twrite; cbn [mem]. rewrite upd_other by lia.
  destruct (Z.eq_dec k 0) as [->|N0].
  - rewrite K by lia. unfold b1, twrite; cbn [mem].
    rewrite upd_other by lia. apply upd_same.
  - destruct (Z.eq_dec k 1) as [->|N1].
    + rewrite K by lia. unfold b1, twrite; cbn [mem]. apply upd_same.
    + rewrite W by lia.
      replace (Z.to_nat k) with (Datatypes.S (Datatypes.S (Z.to_nat (k - 2)))) by lia.
      reflexivity.
Qed.

(** X11.  For an [int] other than the least, [snprintf_int] writes the decimal
    text of the value, sign first, cut to the [size - 1] characters there is
    room for, and returns the number of characters written. *)
Theorem snprintf_int_writes_decimal (b : traced Z) (base size v : Z) :
  - 2 ^ 31 < v < 2 ^ 31 -> 0 < size ->
  snd (snprintf_int b base size v)
  = Z.min (Z.of_nat (List.length (integer v))) (size - 1)
  /\ slice (mem (fst (snprintf_int b base size v))) base
           (Z.to_nat (snd (snprintf_int b base size v)))
     = firstn (Z.to_nat (size - 1)) (integer v).
Proof. exact (snprintf_int_text b base size v). Qed.

(** X12.  Given more than two cells, [snprintf_hex] writes ["0x"] and the
    hexadecimal digits of the value without leading zeros, cut to the
    [size - 1] characters there is room for, and returns the number of
    characters written. *)
Theorem snprintf_hex_writes_hexadecimal (b : traced Z) (base size v : Z) :
  0 <= v < 2 ^ 32 -> 2 < size ->
  snd (snprintf_hex b base size v)
  = Z.min (Z.of_nat (List.length (hexadecimal v))) (size - 1)
  /\ slice (mem (fst (snprintf_hex b base size v))) base
           (Z.to_nat (snd (snprintf_hex b base size v)))
     = firstn (Z.to_nat (size - 1)) (hexadecimal v).
Proof. exact (snprintf_hex_text b base size v). Qed.

(** ** The bounds of the formatting step *)

Lemma touched_refl {A : Type} (b : traced A) (lo hi : Z) : touched b b lo hi.
Proof. intros x Hx. now left. Qed.

Lemma touched_trans {A : Type} (b b1 b2 : traced A) (lo lo' hi : Z) :
  lo <= lo' -> touched b b1 lo hi -> touched b1 b2 lo' hi -> touched b b2 lo hi.
Proof.
  intros Hl H1 H2 x Hx. apply H2 in Hx. destruct Hx as [Hx|Hx]; [now apply H1|].
  right. lia.
Qed.

Lemma touched_weaken {A : Type} (b b' : traced A) (lo hi hi' : Z) :
  hi <= hi' -> touched b b' lo hi -> touched b b' lo hi'.
Proof.
  intros Hh H x Hx. apply H in Hx. destruct Hx as [Hx|Hx]; [now left|right; lia].
Qed.

Lemma touched_write {A : Type} (b : traced A) (k lo hi : Z) (v : A) :
  lo <= k <= hi -> touched b (twrite b k v) lo hi.
Proof. intros Hk x [<-|Hx]; [now right|now left]. Qed.

Lemma copy_str_touched (s : list Z) :
  forall i b,
    0 <= i <= 64 ->
    i <= fst (copy_str s i b) <= Z.max i 63
    /\ touched b (snd (copy_str s i b)) i 62.
Proof.
  induction s as [|c s IH]; intros i b Hi; cbn [copy_str].
  - cbn [fst snd]. split; [lia|apply touched_refl].
  - rewrite (u32_small i) by lia.
    destruct ((c =? 0) || negb (i <? 63)) eqn:E.
    + cbn [fst snd]. split; [lia|apply touched_refl].
    + apply orb_false_iff in E. destruct E as [_ E].
      apply negb_false_iff, Z.ltb_lt in E.
      destruct (IH (i + 1) (twrite b i c)) as (H1 & H2); [lia|].
      split; [lia|].
      eapply touched_trans; [|apply (touched_write b i i 62 c); lia|exact H2]. lia.
Qed.

(** The loop never moves the index past [B]: 64 in general, 63 for a
    template with known directives only; and it writes no cell past 63. *)
Lemma format_loop_bounds (B : Z) (n : nat) :
  B = 63 \/ B = 64 ->
  forall fmt, (List.length fmt <= n)%nat ->
  forall ap i b,
    0 <= i <= B ->
    (B = 63 -> known_directives fmt = true) ->
    i <= fst (format_loop fmt ap i b) <= B
    /\ touched b (snd (format_loop fmt ap i b)) i 63.
Proof.
  intros HB. induction n as [|n IH]; intros fmt Hn ap i b Hi Hk.
  { destruct fmt; [|simpl in Hn; lia]. cbn [format_loop fst snd].
    split; [lia|apply touched_refl]. }
  destruct fmt as [|c fmt1];
    [cbn [format_loop fst snd]; split; [lia|apply touched_refl]|].
  simpl in Hn. cbn [format_loop known_directives] in *.
  rewrite (u32_small i) by lia.
  destruct (Z.eqb_spec c 0) as [->|Nc]; cbn [orb];
    [cbn [fst snd]; split; [lia|apply touched_refl]|].
  destruct (Z.ltb_spec i 63) as [Hlt|Hge]; cbn [negb];
    [|cbn [fst snd]; split; [lia|apply touched_refl]].
  destruct (c =? ch "%"); cbn [negb] in *.
  2:{ destruct (IH fmt1 ltac:(lia) ap (i + 1) (twrite b i c)) as (H1 & H2);
        [lia|exact Hk|].
      split; [lia|].
      eapply touched_trans; [|apply (touched_write b i i 63 c); lia|exact H2]. lia. }
  destruct fmt1 as [|d fmt2];
    [cbn [fst snd]; split; [lia|apply touched_refl]|]. simpl in Hn.
  destruct (Z.eqb_spec d 0) as [->|Nd];
    [cbn [fst snd]; split; [lia|apply touched_refl]|].
  destruct (d =? ch "d"); cbn [orb] in Hk.
  { rewrite staging_size by lia.
    destruct (snprintf_int_safe b i (64 - i) (s32 (word (ap 0%nat)))) as (_ & S).
    destruct (S ltac:(lia)) as (S1 & _ & S3 & _).
    destruct (snprintf_int b i (64 - i) (s32 (word (ap 0%nat)))) as [b1 k].
    cbn [fst snd] in *. replace (i + (64 - i) - 1) with 63 in S3 by lia.
    destruct (IH fmt2 ltac:(lia) (va_next ap) (i + k) b1) as (H1 & H2);
      [lia|exact Hk|].
    split; [lia|].
    eapply touched_trans; [|exact S3|exact H2]. lia. }
  destruct (d =? ch "x"); cbn [orb] in Hk.
  { rewrite staging_size by lia.
    destruct (snprintf_hex_safe b i (64 - i) (word (ap 0%nat))) as (S0 & S).
    destruct (Z_le_gt_dec (64 - i) 2) as [Hsmall|Hbig].
    - rewrite (S0 Hsmall). rewrite Z.add_0_r.
      destruct (IH fmt2 ltac:(lia) (va_next ap) i b) as (H1 & H2); [lia|exact Hk|].
      split; assumption.
    - destruct (S ltac:(lia)) as (S1 & _ & S3 & _).
      destruct (snprintf_hex b i (64 - i) (word (ap 0%nat))) as [b1 k].
      cbn [fst snd] in *. replace (i + (64 - i) - 1) with 63 in S3 by lia.
      destruct (IH fmt2 ltac:(lia) (va_next ap) (i + k) b1) as (H1 & H2);
        [lia|exact Hk|].
      split; [lia|].
      eapply touched_trans; [|exact S3|exact H2]. lia. }
  destruct (d =? ch "s"); cbn [orb] in Hk.
  { destruct (copy_str_touched
                (if word (ap 0%nat) =? 0 then cstr "(null)" else pointee (ap 0%nat))
                i b ltac:(lia)) as (C1 & C2).
    destruct (copy_str _ i b) as [i1 b1]. cbn [fst snd] in *.
    destruct (IH fmt2 ltac:(lia) (va_next ap) i1 b1) as (H1 & H2); [lia|exact Hk|].
    split; [lia|].
    eapply touched_trans; [|apply (touched_weaken b b1 i 62 63); [lia|exact C2]|exact H2].
    lia. }
  destruct (d =? ch "%").
  { destruct (IH fmt2 ltac:(lia) ap (i + 1) (twrite b i (ch "%"))) as (H1 & H2);
      [lia|exact Hk|].
    split; [lia|].
    eapply touched_trans; [|apply (touched_write b i i 63 (ch "%")); lia|exact H2]. lia. }
  assert (HB64 : B = 64).
  { destruct HB as [HB|HB]; [|exact HB]. specialize (Hk HB). discriminate. }
  destruct (IH fmt2 ltac:(lia) ap (i + 2)
               (twrite (twrite b i (ch "%")) (i + 1) d)) as (H1 & H2);
    [lia|intros HB63; lia|].
  split; [lia|].
  eapply touched_trans; [|apply (touched_write b i i 63 (ch "%")); lia|].
  - apply Z.le_refl.
  - eapply touched_trans;
      [|apply (touched_write (twrite b i (ch "%")) (i + 1) i 63 d); lia|].
    + apply Z.le_refl.
    + intros x Hx. apply H2 in Hx. destruct Hx as [Hx|Hx]; [now left|right; lia].
Qed.

Lemma format_msg_safe (stack : Z -> Z) (fmt : list Z) (ap : va_list) (B : Z) :
  B = 63 \/ B = 64 ->
  (B = 63 -> known_directives fmt = true) ->
  0 <= fst (format_msg stack fmt ap) <= B
  /\ (forall x, In x (acc (snd (format_msg stack fmt ap))) -> 0 <= x <= B)
  /\ mem (snd (format_msg stack fmt ap)) (fst (format_msg stack fmt ap)) = 0.
Proof.
  intros HB Hk. unfold format_msg.
  destruct (format_loop_bounds B (List.length fmt) HB fmt (Nat.le_refl _) ap 0
                               (fresh stack) ltac:(lia) Hk) as (H1 & H2).
  destruct (format_loop fmt ap 0 (fresh stack)) as [i b]. cbn [fst snd] in *.
  split; [lia|]. split.
  - intros x [<-|Hx]; [lia|]. apply H2 in Hx. destruct Hx as [[]|Hx]. lia.
  - unfold twrite; cbn [mem]. apply upd_same.
Qed.

(** X13.  The formatting step writes no cell past index 64 of its 64-byte buffer,
    and for a template whose directives are all known none past index 63:
    then the terminator is inside the buffer. *)
Theorem format_msg_bounds (stack : Z -> Z) (fmt : list Z) (ap : va_list) :
  (0 <= fst (format_msg stack fmt ap) <= 64
   /\ (forall x, In x (acc (snd (format_msg stack fmt ap))) -> 0 <= x <= 64)
   /\ mem (snd (format_msg stack fmt ap)) (fst (format_msg stack fmt ap)) = 0)
  /\ (known_directives fmt = true ->
      0 <= fst (format_msg stack fmt ap) <= 63
      /\ forall x, In x (acc (snd (format_msg stack fmt ap))) -> 0 <= x <= 63).
Proof.
  split.
  - apply (format_msg_safe stack fmt ap 64); [now right|intros; lia].
  - intros Hk.
    destruct (format_msg_safe stack fmt ap 63 (or_introl eq_refl) (fun _ => Hk))
      as (H1 & H2 & _).
    split; assumption.
Qed.

(** ** Messages that fit *)

Lemma positional_length (base : Z) (glyph : Z -> Z) :
  forall fuel n suffix,
    (List.length suffix <= List.length (positional fuel base glyph n suffix))%nat.
Proof.
  induction fuel as [|fuel IH]; intros n suffix; cbn [positional]; [lia|].
  destruct (n <=? 0); [lia|].
  specialize (IH (n / base) (glyph (n mod base) :: suffix)).
  cbn [List.length] in IH. lia.
Qed.

Lemma hexadecimal_length (v : Z) :
  0 <= v -> (3 <= List.length (hexadecimal v))%nat.
Proof.
  intros Hv. unfold hexadecimal, numeral. cbn [List.length].
  destruct (Z.eqb_spec v 0) as [|N]; [cbn [List.length]; lia|].
  cbn [positional]. destruct (Z.leb_spec v 0); [lia|].
  pose proof (positional_length 16 hex_glyph (Z.to_nat (Z.log2 v)) (v / 16)
                                [hex_glyph (v mod 16)]) as Hpl.
  cbn [List.length] in Hpl. lia.
Qed.

(** A hexadecimal directive that begins at a position is followed by at
    least its three characters. *)
Lemma hex_at_length (n : nat) :
  forall fmt, (List.length fmt <= n)%nat ->
  forall ap pos,
    uint_args ap -> 0 <= pos -> hex_at pos fmt ap = true ->
    pos + 3 <= Z.of_nat (List.length (render fmt ap)).
Proof.
  induction n as [|n IH]; intros fmt Hn ap pos Hu Hp Hx.
  { destruct fmt; [discriminate|simpl in Hn; lia]. }
  destruct fmt as [|c fmt1]; [discriminate|]. simpl in Hn.
  cbn [hex_at render] in *.
  assert (Hstep : forall fmt' ap' (P : list Z),
             (List.length fmt' <= n)%nat -> uint_args ap' ->
             hex_at (pos - Z.of_nat (List.length P)) fmt' ap' = true ->
             pos + 3 <= Z.of_nat (List.length (P ++ render fmt' ap'))).
  { intros fmt' ap' P Hl Hu' H.
    destruct (Z_lt_le_dec (pos - Z.of_nat (List.length P)) 0) as [Hneg|Hge].
    - rewrite (hex_at_before (List.length fmt') fmt' (Nat.le_refl _) ap' _ Hneg) in H.
      discriminate.
    - specialize (IH fmt' Hl ap' _ Hu' Hge H). rewrite length_app. lia. }
  destruct (c =? 0); [discriminate|].
  destruct (negb (c =? ch "%")).
  { apply (Hstep fmt1 ap [c]); [lia|exact Hu|exact Hx]. }
  destruct fmt1 as [|d fmt2]; [discriminate|]. simpl in Hn.
  destruct (d =? 0); [discriminate|].
  destruct (d =? ch "d").
  { apply Hstep; [lia|now apply uint_args_next|exact Hx]. }
  destruct (d =? ch "x").
  { apply orb_true_iff in Hx. destruct Hx as [Hx|Hx].
    - apply Z.eqb_eq in Hx. subst pos. rewrite length_app.
      pose proof (hexadecimal_length (word (ap 0%nat)) (proj1 (Hu 0%nat))). lia.
    - apply Hstep; [lia|now apply uint_args_next|exact Hx]. }
  destruct (d =? ch "s").
  { apply Hstep; [lia|now apply uint_args_next|exact Hx]. }
  destruct (d =? ch "%").
  { apply (Hstep fmt2 ap [ch "%"]); [lia|exact Hu|exact Hx]. }
  apply (Hstep fmt2 ap [ch "%"; d]); [lia|exact Hu|exact Hx].
Qed.

Lemma copy_msg_upto (buf : Z -> Z) (room : nat) :
  forall i e m,
    i <= e <= i + Z.of_nat room ->
    (forall x, i <= x < e -> buf x <> 0) ->
    buf e = 0 \/ e = i + Z.of_nat room ->
    fst (copy_msg room i buf m) = e
    /\ (forall x, i <= x < e -> snd (copy_msg room i buf m) x = buf x)
    /\ (forall x, x < i \/ e <= x -> snd (copy_msg room i buf m) x = m x).
Proof.
  induction room as [|room IH]; intros i e m He Hnz Hend.
  - cbn [copy_msg fst snd]. repeat split; intros; try reflexivity; lia.
  - cbn [copy_msg]. destruct (Z.eq_dec i e) as [<-|Ne].
    + destruct Hend as [Hz|Hz]; [|lia]. rewrite Hz. cbn [Z.eqb fst snd].
      repeat split; intros; try reflexivity; lia.
    + destruct (Z.eqb_spec (buf i) 0) as [E|_];
        [exfalso; apply (Hnz i); [lia|exact E]|].
      destruct (IH (i + 1) e (upd m i (buf i))) as (E1 & W & K).
      * lia.
      * intros x Hx. apply Hnz. lia.
      * destruct Hend as [Hz|Hz]; [now left|right; lia].
      * split; [exact E1|]. split.
        -- intros x Hx. destruct (Z.eq_dec x i) as [->|N].
           ++ rewrite K by lia. apply upd_same.
           ++ apply W. lia.
        -- intros x Hx. rewrite K by lia. apply upd_other. lia.
Qed.

Section Fitting.

Variable NCPU : Z.

(** The message a call stores when its rendering fits the 63 visible
    characters. *)
Lemma stored_short (st : kstate) (e : env) (level : Z) (fmt : list Z) (ap : va_list) :
  valid_cpu NCPU (cpuid e) ->
  uint_args ap ->
  (List.length (render fmt ap) <= 63)%nat ->
  int_min_arg fmt ap = false ->
  let slot := head (cpu_logs st (cpuid e)) mod KLOG_BUF_SIZE in
  let m0 := msg (entries (cpu_logs st (cpuid e)) slot) in
  let m := msg (entries (cpu_logs (klog_printf_level NCPU st e level fmt ap) (cpuid e))
                        slot) in
  let len := Z.of_nat (List.length (render fmt ap)) in
  (forall x, 0 <= x < len -> m x = nth (Z.to_nat x) (render fmt ap) 0)
  /\ m len = 0
  /\ (forall x, x < 0 \/ len < x -> m x = m0 x).
Proof.
  intros Hv Hu Hlen Hm. cbv zeta.
  rewrite (record_msg NCPU st e level fmt ap Hv).
  set (m0 := msg (entries (cpu_logs st (cpuid e))
                          (head (cpu_logs st (cpuid e)) mod KLOG_BUF_SIZE))).
  set (len := Z.of_nat (List.length (render fmt ap))).
  assert (Hx : hex_at 62 fmt ap = false).
  { destruct (hex_at 62 fmt ap) eqn:E; [|reflexivity].
    pose proof (hex_at_length (List.length fmt) fmt (Nat.le_refl _) ap 62 Hu
                              ltac:(lia) E). lia. }
  unfold format_msg.
  pose proof (format_loop_wrote (List.length fmt) fmt (Nat.le_refl _) ap 0
                                (fresh (stack e)) ltac:(lia) Hu Hx Hm) as W.
  destruct (format_loop fmt ap 0 (fresh (stack e))) as [i b].
  cbn [fst snd] in *. destruct W as (B & _ & W & L & T).
  set (buf := mem (twrite b i 0)).
  pose proof (render_nonzero (List.length fmt) fmt (Nat.le_refl _) ap) as Hall.
  rewrite Forall_forall in Hall.
  assert (Hi : i = len \/ (63 <= i /\ len = 63)).
  { destruct (Z_lt_le_dec i 63) as [Hs|Hs]; [left; unfold len; lia|right].
    specialize (T Hs). unfold len. lia. }
  assert (Hbuf : forall x, 0 <= x < len -> buf x = nth (Z.to_nat x) (render fmt ap) 0).
  { intros x Hx'. unfold buf, twrite; cbn [mem].
    rewrite upd_other by lia. rewrite W by lia. now rewrite Z.sub_0_r. }
  destruct (copy_msg_upto buf 63 0 len m0) as (E & C & K).
  - unfold len. lia.
  - intros x Hx'. rewrite Hbuf by lia. apply Hall. apply nth_In. unfold len in Hx'. lia.
  - destruct Hi as [Hi|Hi]; [left|right; lia].
    unfold buf, twrite; cbn [mem]. rewrite <- Hi. apply upd_same.
  - rewrite E. split; [|split].
    + intros x Hx'. rewrite upd_other by lia. rewrite C by lia. now apply Hbuf.
    + apply upd_same.
    + intros x Hx'. rewrite upd_other by lia. apply K. lia.
Qed.

(** X14.  When the rendering of a message has at most 63 characters (and no
    integer directive is given the least [int]), the stored message is the
    rendering followed by the terminator; the cells of the 64-byte field
    after the terminator keep what the overwritten record had there. *)
Theorem short_message_stored_whole (st : kstate) (e : env) (level : Z)
    (fmt : list Z) (ap : va_list) :
  valid_cpu NCPU (cpuid e) ->
  uint_args ap ->
  (List.length (render fmt ap) <= 63)%nat ->
  int_min_arg fmt ap = false ->
  let slot := head (cpu_logs st (cpuid e)) mod KLOG_BUF_SIZE in
  let m0 := msg (entries (cpu_logs st (cpuid e)) slot) in
  let m := msg (entries (cpu_logs (klog_printf_level NCPU st e level fmt ap) (cpuid e))
                        slot) in
  slice m 0 (Datatypes.S (List.length (render fmt ap))) = render fmt ap ++ [0]
  /\ (forall x, Z.of_nat (List.length (render fmt ap)) < x -> m x = m0 x).
Proof.
  intros Hv Hu Hlen Hm.
  destruct (stored_short st e level fmt ap Hv Hu Hlen Hm) as (H1 & H2 & H3).
  cbv zeta in *.
  set (m := msg (entries (cpu_logs (klog_printf_level NCPU st e level fmt ap) (cpuid e))
                         (head (cpu_logs st (cpuid e)) mod KLOG_BUF_SIZE))) in *.
  split.
  - replace (Datatypes.S (List.length (render fmt ap)))
      with (List.length (render fmt ap) + 1)%nat by lia.
    rewrite slice_app, slice_one. rewrite Z.add_0_l, H2. f_equal.
    apply (slice_pointwise _ _ _ 0). intros k Hk.
    rewrite H1 by lia. f_equal. lia.
  - intros x Hx. apply H3. now right.
Qed.

End Fitting.

(** ** What a record holds, and the first record *)

Section RecordMore.

Variable NCPU : Z.

Lemma record_fields (st : kstate) (e : env) (lvl : Z) (fmt : list Z) (ap : va_list) :
  valid_cpu NCPU (cpuid e) ->
  let st' := klog_printf_level NCPU st e lvl fmt ap in
  let r := entries (cpu_logs st' (cpuid e))
                   (head (cpu_logs st (cpuid e)) mod KLOG_BUF_SIZE) in
  timestamp_hi r = tsc_hi e
  /\ timestamp_lo r = tsc_lo e
  /\ pid r = u32 (match myproc e with Some p => p | None => 0 end)
  /\ level r = u32 lvl
  /\ locked (lock (cpu_logs st' (cpuid e))) = false
  /\ locked (seq_lock st') = false.
Proof.
  intros Hv. cbv zeta. unfold klog_printf_level, klog_printf_internal.
  rewrite (valid_cpu_test NCPU _ Hv).
  destruct (format_msg (stack e) fmt ap) as [i0 b].
  unfold next_seq, set_cpu, set_seq_lock, set_global_seq, set_lock, set_head,
    set_entries.
  cbn [cpu_logs global_seq seq_lock head dropped entries lock fst snd].
  rewrite !upd_same.
  cbn [cpu_logs global_seq seq_lock head dropped entries lock fst snd].
  destruct (copy_msg _ _ _ _) as [i m].
  cbn [cpu_logs global_seq seq_lock head dropped entries lock fst snd].
  rewrite !upd_same.
  cbn [cpu_logs global_seq seq_lock head dropped entries lock fst snd].
  rewrite !upd_same. cbn [timestamp_hi timestamp_lo pid level].
  repeat split.
Qed.

(** X15.  A call on a CPU of the table writes one slot of the ring of that CPU,
    the one under its cursor, with the counter value, the cycle counter, the
    CPU number, the pid of the current process (0 when there is none) and
    the level; it advances the cursor and the counter by one, and changes no
    other slot, no other ring and no drop counter.  A call on a CPU number
    outside the table changes nothing. *)
Theorem record_effect (st : kstate) (c : call) :
  let k := cpuid (c_env c) in
  let st' := record NCPU st c in
  let slot := head (cpu_logs st k) mod KLOG_BUF_SIZE in
  let r := entries (cpu_logs st' k) slot in
  (valid_cpu NCPU k ->
   (seq r = global_seq st
    /\ timestamp_hi r = tsc_hi (c_env c)
    /\ timestamp_lo r = tsc_lo (c_env c)
    /\ cpu r = u32 k
    /\ pid r = u32 (match myproc (c_env c) with Some p => p | None => 0 end)
    /\ level r = u32 (c_level c))
   /\ head (cpu_logs st' k) = u32 (head (cpu_logs st k) + 1)
   /\ global_seq st' = u32 (global_seq st + 1)
   /\ dropped (cpu_logs st' k) = dropped (cpu_logs st k)
   /\ (forall idx, idx <> slot ->
         entries (cpu_logs st' k) idx = entries (cpu_logs st k) idx)
   /\ (forall x, x <> k -> cpu_logs st' x = cpu_logs st x))
  /\ (~ valid_cpu NCPU k -> st' = st).
Proof.
  cbv zeta. split.
  - intros Hv.
    destruct (record_valid NCPU st c Hv) as (Hh & Hd & Ho & Hg & Hs & Hq & Hc).
    destruct (record_fields st (c_env c) (c_level c) (c_fmt c) (c_ap c) Hv)
      as (F1 & F2 & F3 & F4 & _).
    cbv zeta in *. unfold record.
    split; [repeat split; assumption|]. repeat split; assumption.
  - apply record_invalid.
Qed.

Lemma klog_init_loop (st : kstate) :
  (forall c, valid_cpu NCPU c ->
             head (cpu_logs (for_range 0 NCPU init_cpu st) c) = 0
             /\ dropped (cpu_logs (for_range 0 NCPU init_cpu st) c) = 0)
  /\ global_seq (for_range 0 NCPU init_cpu st) = global_seq st.
Proof.
  unfold valid_cpu. destruct (Z_lt_le_dec NCPU 0) as [Hn|Hn].
  { unfold for_range. replace (Z.to_nat (NCPU - 0)) with 0%nat by lia.
    cbn [loop_from]. split; [intros; lia|reflexivity]. }
  apply (for_range_inv
           (fun i s =>
              (forall c, 0 <= c < i ->
                         head (cpu_logs s c) = 0 /\ dropped (cpu_logs s c) = 0)
              /\ global_seq s = global_seq st)).
  - exact Hn.
  - split; [intros; lia|reflexivity].
  - intros i s Hi (H1 & H2). unfold init_cpu. split; [|exact H2].
    intros c Hc. destruct (Z.eq_dec c i) as [->|N].
    + rewrite cpu_logs_set_cpu. now split.
    + rewrite cpu_logs_set_cpu_other by exact N. apply H1. lia.
Qed.

Lemma snapshot_of_one (st : kstate) (k : Z) (buf : Z -> klog_entry) (max : Z) :
  valid_cpu NCPU k ->
  head (cpu_logs st k) = 1 ->
  (forall c, valid_cpu NCPU c -> c <> k -> head (cpu_logs st c) = 0) ->
  1 <= max ->
  snd (klog_snapshot NCPU st buf max) = 1
  /\ mem (snd (fst (klog_snapshot NCPU st buf max))) 0 = entries (cpu_logs st k) 0.
Proof.
  intros Hk Hh Hz Hmax.
  assert (Hb : budgeted NCPU st max = [entries (cpu_logs st k) 0]).
  { rewrite (budgeted_single NCPU st k max Hk Hz).
    unfold valid_entries, window_start. rewrite Hh.
    change (1 >? KLOG_BUF_SIZE) with false. cbv iota.
    change (Z.to_nat (1 - 0)) with 1%nat. cbn [List.seq map].
    change ((0 + Z.of_nat 0) mod KLOG_BUF_SIZE) with 0.
    replace (Z.to_nat max) with (Datatypes.S (Z.to_nat (max - 1))) by lia.
    cbn [firstn]. now rewrite firstn_nil. }
  destruct (collect_spec NCPU st (fresh buf) max) as (Hs & Hn). cbv zeta in Hs, Hn.
  rewrite Hb in Hs, Hn. cbn [List.length] in Hn.
  rewrite klog_snapshot_collect. cbn [fst snd].
  rewrite Hn in *. change (Z.of_nat 1) with 1 in *.
  split; [reflexivity|].
  rewrite bubble_sort_mem, sort_cells_ascending; [|lia|intros j Hj0 Hj1; lia].
  change (Z.to_nat 1) with 1%nat in Hs. rewrite slice_one in Hs.
  now injection Hs.
Qed.

(** X16.  [klog_init] on a CPU of the table leaves a log of exactly one record: on
    that CPU, in slot 0, with the sequence number the counter had (the
    counter is not reset), level [KLOG_INFO] and the initialization message;
    every other cursor and every drop counter is 0, and a snapshot returns
    that record. *)
Theorem klog_init_effect (st : kstate) (e : env) (ap : va_list)
    (buf : Z -> klog_entry) (max : Z) :
  valid_cpu NCPU (cpuid e) ->
  uint_args ap ->
  1 <= max ->
  let st' := klog_init NCPU st e ap in
  let r := entries (cpu_logs st' (cpuid e)) 0 in
  head (cpu_logs st' (cpuid e)) = 1
  /\ (forall c, valid_cpu NCPU c -> c <> cpuid e -> head (cpu_logs st' c) = 0)
  /\ (forall c, valid_cpu NCPU c -> dropped (cpu_logs st' c) = 0)
  /\ seq r = global_seq st
  /\ global_seq st' = u32 (global_seq st + 1)
  /\ level r = KLOG_INFO
  /\ slice (msg r) 0 36 = cstr "klog: logging subsystem initialized" ++ [0]
  /\ snd (klog_snapshot NCPU st' buf max) = 1
  /\ mem (snd (fst (klog_snapshot NCPU st' buf max))) 0 = r.
Proof.
  intros Hv Hu Hmax. cbv zeta.
  unfold klog_init, klog_printf.
  set (st1 := for_range 0 NCPU init_cpu (set_seq_lock st initlock)).
  destruct (klog_init_loop (set_seq_lock st initlock)) as (L1 & L2).
  fold st1 in L1, L2. cbn [set_seq_lock global_seq] in L2.
  set (banner := cstr "klog: logging subsystem initialized").
  set (c := mkCall e KLOG_INFO banner ap).
  change (klog_printf_internal NCPU st1 e KLOG_INFO banner ap)
    with (record NCPU st1 c).
  destruct (record_valid NCPU st1 c Hv) as (Hh & Hd & Ho & Hg & _ & Hs & _).
  cbv zeta in Hh, Hd, Ho, Hg, Hs. cbn [c_env c] in Hh, Hd, Ho, Hg, Hs.
  destruct (L1 _ Hv) as (Lh & Ld). rewrite Lh in Hh, Hs.
  change (0 mod KLOG_BUF_SIZE) with 0 in Hs. change (u32 (0 + 1)) with 1 in Hh.
  destruct (record_fields st1 e KLOG_INFO banner ap Hv) as (_ & _ & _ & F4 & _).
  cbv zeta in F4. rewrite Lh in F4. change (0 mod KLOG_BUF_SIZE) with 0 in F4.
  destruct (stored_short NCPU st1 e KLOG_INFO banner ap Hv Hu) as (M1 & M2 & _);
    [vm_compute; lia|reflexivity|].
  cbv zeta in M1, M2. rewrite Lh in M1, M2.
  change (0 mod KLOG_BUF_SIZE) with 0 in M1, M2.
  change (klog_printf_level NCPU st1 e KLOG_INFO banner ap)
    with (record NCPU st1 c) in F4, M1, M2.
  assert (Hothers : forall x, valid_cpu NCPU x -> x <> cpuid e ->
                              head (cpu_logs (record NCPU st1 c) x) = 0).
  { intros x Hx Nx. rewrite Ho by exact Nx. now apply L1. }
  split; [exact Hh|]. split; [exact Hothers|]. split.
  { intros x Hx. destruct (Z.eq_dec x (cpuid e)) as [->|N].
    - rewrite Hd. exact Ld.
    - rewrite Ho by exact N. now apply L1. }
  split; [now rewrite Hs|]. split; [now rewrite Hg, L2|].
  split; [exact F4|]. split.
  { change 36%nat with (35 + 1)%nat. rewrite slice_app, slice_one.
    change (0 + Z.of_nat 35) with 35.
    change (Z.of_nat (List.length (render banner ap))) with 35 in M2.
    rewrite M2. f_equal.
    change 35%nat with (List.length banner).
    apply (slice_pointwise _ _ _ 0). intros k Hk.
    change (List.length banner) with 35%nat in Hk.
    rewrite M1 by (change (Z.of_nat (List.length (render banner ap))) with 35; lia).
    rewrite Z.add_0_l, Nat2Z.id. reflexivity. }
  apply (snapshot_of_one (record NCPU st1 c) (cpuid e) buf max Hv Hh Hothers Hmax).
Qed.

End RecordMore.

(** ** Records from several CPUs *)






Section Interleaving.

Variable NCPU : Z.







End Interleaving.

(** * The code at concrete inputs *)

Example sizeof_klog_entry_value : sizeof_klog_entry = 88.
Proof. reflexivity. Qed.

Example format_all_directives :
  slice (mem (snd (format_msg (fun _ => 0) (cstr "ab%d %x %s %% %q|")
                              (Ex.args_of [mkArg 4294967254 []; mkArg 255 [];
                                           mkArg 4096 (cstr "hey")]))))
        0 21
  = cstr "ab-42 0xff hey % %q|" ++ [0].
Proof. vm_compute. reflexivity. Qed.

Example format_null_string :
  slice (mem (snd (format_msg (fun _ => 0) (cstr "%s") Ex.no_args))) 0 7
  = cstr "(null)" ++ [0].
Proof. vm_compute. reflexivity. Qed.

(** The least [int] is formatted as a lone minus sign. *)
Example format_least_int :
  slice (mem (snd (format_msg (fun _ => 0) (cstr "%d")
                              (Ex.args_of [mkArg 2147483648 []])))) 0 2
  = cstr "-" ++ [0]
  /\ Render.integer (s32 2147483648) = cstr "-2147483648".
Proof. vm_compute. split; reflexivity. Qed.

(** 300 records on CPU 0, then a snapshot of 256: sequence numbers 44 .. 299. *)
Example snapshot_of_300_records :
  let r := klog_snapshot Ex.NCPU (run Ex.NCPU Ex.boot Ex.calls300)
                         (fun _ => Ex.zero_entry) 256 in
  snd r = 256
  /\ map seq (slice (mem (snd (fst r))) 0 256) = map Z.of_nat (List.seq 44 256).
Proof. vm_compute. split; reflexivity. Qed.

(** Ten records on each of two CPUs, then a snapshot of 12: all of CPU 0 and
    the two oldest of CPU 1, whichever CPU logged first. *)
Example snapshot_of_two_cores :
  map (fun e => (seq e, cpu e))
      (slice (mem (snd (fst (klog_snapshot Ex.NCPU Ex.two_cores
                                           (fun _ => Ex.zero_entry) 12)))) 0 12)
  = [(0, 0); (1, 0); (2, 0); (3, 0); (4, 0); (5, 0); (6, 0); (7, 0); (8, 0);
     (9, 0); (10, 1); (11, 1)]
  /\ map (fun e => (seq e, cpu e))
         (slice (mem (snd (fst (klog_snapshot Ex.NCPU Ex.two_cores'
                                              (fun _ => Ex.zero_entry) 12)))) 0 12)
     = [(0, 1); (1, 1); (10, 0); (11, 0); (12, 0); (13, 0); (14, 0); (15, 0);
        (16, 0); (17, 0); (18, 0); (19, 0)].
Proof. vm_compute. split; reflexivity. Qed.

(** A query for 64 records gets the 20 there are; a device read of 200
    bytes gets two whole records. *)
Example query_and_read :
  snd (fst (sys_getklog Ex.NCPU Ex.PGSIZE Ex.two_cores (Some 4096) (Some 64) 65536
                        (Some (fun _ => Ex.zero_entry)) Ex.all_ok)) = 20
  /\ snd (fst (klogdev_read Ex.NCPU Ex.two_cores Ex.all_ok
                            (fun _ => Ex.zero_entry) 4096 200)) = 176
  /\ effective_max Ex.PGSIZE 1024 = 46.
Proof. vm_compute. repeat split; reflexivity. Qed.

(** * The statements at concrete inputs *)

(** C1 at 300 calls on CPU 0 of a freshly booted log of 8 CPUs: the snapshot
    returns the records with the sequence numbers 44 .. 299. *)
Lemma snapshot_after_wraparound_witness :
  let rs := produced Ex.NCPU Ex.boot Ex.calls300 in
  let r := klog_snapshot Ex.NCPU (run Ex.NCPU Ex.boot Ex.calls300)
                         (fun _ => Ex.zero_entry) 256 in
  snd r = 256
  /\ slice (mem (snd (fst r))) 0 256 = skipn 44 rs
  /\ map seq (slice (mem (snd (fst r))) 0 256)
     = map (fun i => global_seq Ex.boot + Z.of_nat (44 + i)) (List.seq 0 256)
  /\ (forall e, In e (firstn 44 rs) -> ~ In e (slice (mem (snd (fst r))) 0 256)).
Proof.
  apply (snapshot_after_wraparound Ex.NCPU Ex.boot Ex.calls300 0 44).
  - unfold valid_cpu, Ex.NCPU. lia.
  - intros x _. reflexivity.
  - apply Forall_forall. intros x Hx. apply repeat_spec in Hx. subst x. reflexivity.
  - lia.
  - reflexivity.
  - lia.
  - simpl. lia.
  - simpl. lia.
  - lia.
Defined.

(** C2 at a log where CPU 1 logged its ten records before CPU 0 did. *)
Lemma snapshot_budget_in_cpu_order_witness :
  let r := klog_snapshot Ex.NCPU Ex.two_cores' (fun _ => Ex.zero_entry) 12 in
  snd r = 12
  /\ Permutation
       (slice (entries (cpu_logs Ex.two_cores' 0)) 0 10
        ++ slice (entries (cpu_logs Ex.two_cores' 1)) 0 2)
       (slice (mem (snd (fst r))) 0 12)
  /\ Sorted seq_le (slice (mem (snd (fst r))) 0 12).
Proof.
  apply (snapshot_budget_in_cpu_order Ex.NCPU Ex.two_cores').
  - unfold Ex.NCPU. lia.
  - vm_compute. reflexivity.
  - vm_compute. reflexivity.
Defined.

(** C4 at a query for 64 records into a 64 KB process, on a log of twenty
    records. *)
Lemma getklog_result_witness :
  let r := sys_getklog Ex.NCPU Ex.PGSIZE Ex.two_cores (Some 4096) (Some 64) 65536
                       (Some (fun _ => Ex.zero_entry)) Ex.all_ok in
  (getklog_fails Ex.NCPU Ex.PGSIZE Ex.two_cores 4096 64 65536
                 (Some (fun _ => Ex.zero_entry)) Ex.all_ok ->
   snd (fst r) = -1)
  /\ 1 <= snd (fst r) <= effective_max Ex.PGSIZE 64
  /\ Z.of_nat (List.length (snd r)) = snd (fst r).
Proof.
  destruct (getklog_result Ex.NCPU Ex.PGSIZE Ex.two_cores 4096 64 65536
              (Some (fun _ => Ex.zero_entry)) Ex.all_ok) as [Hf Hs];
    [lia | lia |].
  split; [exact Hf|].
  apply Hs.
  - intros [F|[F|[F|[F|(kbuf & k & _ & _ & F)]]]].
    + lia.
    + lia.
    + apply F. change sizeof_klog_entry with 88. lia.
    + discriminate F.
    + discriminate F.
  - intros kbuf E. injection E as <-. vm_compute. discriminate.
Defined.

(** C6 at two snapshots of twelve records of a log with ten records on each
    of two CPUs. *)
Lemma snapshot_read_only_witness :
  let r1 := klog_snapshot Ex.NCPU Ex.two_cores (fun _ => Ex.zero_entry) 12 in
  let r2 := klog_snapshot Ex.NCPU (fst (fst r1)) (fun _ => Ex.zero_entry) 12 in
  (forall c,
      head (cpu_logs (fst (fst r1)) c) = head (cpu_logs Ex.two_cores c)
      /\ dropped (cpu_logs (fst (fst r1)) c) = dropped (cpu_logs Ex.two_cores c)
      /\ forall idx, entries (cpu_logs (fst (fst r1)) c) idx
                     = entries (cpu_logs Ex.two_cores c) idx)
  /\ snd r2 = snd r1
  /\ slice (mem (snd (fst r2))) 0 (Z.to_nat (snd r2))
     = slice (mem (snd (fst r1))) 0 (Z.to_nat (snd r1)).
Proof.
  apply (snapshot_read_only Ex.NCPU Ex.two_cores (fun _ => Ex.zero_entry)
           (fun _ => Ex.zero_entry) 12).
  vm_compute. discriminate.
Defined.

(** C5 at three calls on two CPUs. *)
Lemma sequence_numbers_distinct_and_increasing_witness :
  let rs := produced Ex.NCPU Ex.boot Ex.calls3 in
  NoDup (map seq rs)
  /\ forall i j d,
       (i < j < List.length rs)%nat ->
       cpu (nth i rs d) = cpu (nth j rs d) ->
       seq (nth i rs d) < seq (nth j rs d).
Proof.
  apply (sequence_numbers_distinct_and_increasing Ex.NCPU Ex.boot Ex.calls3).
  - simpl. lia.
  - simpl. lia.
Defined.

(** C8 at CPU 0 after 300 records, a snapshot, a clear, a drop count and one
    more record. *)
Lemma dropped_counter_stays_zero_witness :
  dropped (cpu_logs (reached Ex.NCPU Ex.boot (Ex.on_cpu 0) Ex.no_args Ex.busy) 0) = 0
  /\ snd (klog_get_dropped Ex.NCPU
            (reached Ex.NCPU Ex.boot (Ex.on_cpu 0) Ex.no_args Ex.busy)) = 0.
Proof.
  destruct (dropped_counter_stays_zero Ex.NCPU Ex.boot (Ex.on_cpu 0) Ex.no_args Ex.busy)
    as [H1 H2].
  split; [apply H1; unfold Ex.NCPU; lia | exact H2].
Defined.

(** C7 at a call whose text argument is 80 characters long. *)
Lemma long_message_stored_as_first_63_witness :
  slice (msg (entries
                (cpu_logs (klog_printf_level Ex.NCPU Ex.boot (Ex.on_cpu 0) KLOG_WARN
                                             Ex.long_fmt Ex.long_args) 0)
                (head (cpu_logs Ex.boot 0) mod KLOG_BUF_SIZE)))
        0 64
  = firstn 63 (Render.render Ex.long_fmt Ex.long_args) ++ [0].
Proof.
  apply (long_message_stored_as_first_63 Ex.NCPU Ex.boot (Ex.on_cpu 0) KLOG_WARN
           Ex.long_fmt Ex.long_args).
  - unfold valid_cpu, Ex.NCPU. simpl. lia.
  - intros n. unfold Ex.long_args, Ex.args_of.
    destruct n as [|[|n]]; simpl; try lia. destruct n; simpl; lia.
  - vm_compute. lia.
  - reflexivity.
  - reflexivity.
Defined.

(** * The further statements at concrete inputs *)

(** The snapshot of twelve records of a log with ten records on each of two
    CPUs. *)
Lemma snapshot_is_sorted_budget_witness :
  let r := klog_snapshot Ex.NCPU Ex.two_cores (fun _ => Ex.zero_entry) 12 in
  snd r = Z.of_nat (List.length (budgeted Ex.NCPU Ex.two_cores 12))
  /\ snd r <= 12
  /\ Permutation (budgeted Ex.NCPU Ex.two_cores 12)
                 (slice (mem (snd (fst r))) 0 (Z.to_nat (snd r)))
  /\ Sorted seq_le (slice (mem (snd (fst r))) 0 (Z.to_nat (snd r))).
Proof.
  apply (snapshot_is_sorted_budget Ex.NCPU Ex.two_cores (fun _ => Ex.zero_entry) 12).
  - lia.
  - vm_compute. discriminate.
Defined.

Lemma snapshot_stays_inside_count_witness :
  1 <= snd (klog_snapshot Ex.NCPU Ex.two_cores (fun _ => Ex.zero_entry) 12)
  /\ forall x,
       In x (acc (snd (fst (klog_snapshot Ex.NCPU Ex.two_cores
                                          (fun _ => Ex.zero_entry) 12)))) ->
       0 <= x < snd (klog_snapshot Ex.NCPU Ex.two_cores (fun _ => Ex.zero_entry) 12).
Proof.
  split.
  - vm_compute. discriminate.
  - apply (snapshot_stays_inside_count Ex.NCPU Ex.two_cores
             (fun _ => Ex.zero_entry) 12).
    vm_compute. discriminate.
Defined.

(** Three calls on a log whose counter is at its last value: the sequence
    numbers are 4294967295, 0 and 1. *)
Lemma sequence_numbers_wrap_witness :
  map seq (produced Ex.NCPU Ex2.near_wrap Ex.calls3)
  = map (fun i => (global_seq Ex2.near_wrap + Z.of_nat i) mod 2 ^ 32)
        (List.seq 0 (List.length Ex.calls3)).
Proof.
  apply (sequence_numbers_wrap Ex.NCPU Ex2.near_wrap Ex.calls3).
  - repeat constructor; vm_compute; discriminate.
  - vm_compute. split; [discriminate | reflexivity].
Defined.

Lemma klog_clear_effect_witness :
  head (cpu_logs (klog_clear Ex.NCPU Ex.two_cores) 1) = 0
  /\ dropped (cpu_logs (klog_clear Ex.NCPU Ex.two_cores) 1) = 0
  /\ seq (entries (cpu_logs (record Ex.NCPU (klog_clear Ex.NCPU Ex.two_cores)
                                    (Ex.say 1 "again")) 1) 0)
     = global_seq Ex.two_cores.
Proof.
  destruct (klog_clear_effect Ex.NCPU Ex.two_cores) as (H1 & _ & _ & H5).
  destruct (H1 1) as [Hh Hd]; [unfold valid_cpu, Ex.NCPU; lia|].
  split; [exact Hh|]. split; [exact Hd|].
  apply (H5 (Ex.say 1 "again")). unfold valid_cpu, Ex.NCPU. simpl. lia.
Defined.

(** A read of 200 bytes from the device: two whole records. *)
Lemma klogdev_read_whole_records_witness :
  let snap := klog_snapshot Ex.NCPU Ex.two_cores (fun _ => Ex.zero_entry) 64 in
  let m := Z.min (snd snap) (200 / 88) in
  let r := klogdev_read Ex.NCPU Ex.two_cores Ex.all_ok (fun _ => Ex.zero_entry)
                        4096 200 in
  0 <= m <= 64
  /\ snd (fst r) = m * 88
  /\ snd r = wire_records (fun k => u32 (4096 + k * 88)) (mem (snd (fst snap)))
                          (Z.to_nat m)
  /\ same_rings Ex.two_cores (fst (fst r)).
Proof.
  apply (klogdev_read_whole_records Ex.NCPU Ex.two_cores Ex.all_ok
           (fun _ => Ex.zero_entry) 4096 200).
  - intros va. reflexivity.
  - lia.
  - vm_compute. discriminate.
Defined.

(** A query for 64 records into a 64 KB process. *)
Lemma getklog_delivers_in_order_witness :
  let snap := klog_snapshot Ex.NCPU Ex.two_cores (fun _ => Ex.zero_entry)
                            (effective_max Ex.PGSIZE 64) in
  let r := sys_getklog Ex.NCPU Ex.PGSIZE Ex.two_cores (Some 4096) (Some 64) 65536
                       (Some (fun _ => Ex.zero_entry)) Ex.all_ok in
  exists m : nat,
    snd r = wire_records (getklog_addr 4096) (mem (snd (fst snap))) m
    /\ (forall k, (k < m)%nat ->
          Ex.all_ok (getklog_addr 4096 (Z.of_nat k)) sizeof_klog_entry = true)
    /\ ((snd (fst r) = snd snap /\ Z.of_nat m = snd snap)
        \/ (snd (fst r) = -1 /\ Z.of_nat m < snd snap
            /\ Ex.all_ok (getklog_addr 4096 (Z.of_nat m)) sizeof_klog_entry = false))
    /\ same_rings Ex.two_cores (fst (fst r))
    /\ global_seq (fst (fst r)) = global_seq Ex.two_cores.
Proof.
  apply (getklog_delivers_in_order Ex.NCPU Ex.PGSIZE Ex.two_cores 4096 64 65536
           (fun _ => Ex.zero_entry) Ex.all_ok).
  - lia.
  - lia.
  - unfold getklog_accepts. vm_compute. repeat split; discriminate.
  - vm_compute. discriminate.
Defined.

(** The decimal conversion of -1234 into a room of 16 bytes. *)
Lemma snprintf_int_stays_in_its_room_witness :
  0 <= snd (snprintf_int (fresh (fun _ => 0)) 10 16 (-1234)) <= 16 - 1
  /\ mem (fst (snprintf_int (fresh (fun _ => 0)) 10 16 (-1234)))
         (10 + snd (snprintf_int (fresh (fun _ => 0)) 10 16 (-1234))) = 0
  /\ touched (fresh (fun _ => 0))
             (fst (snprintf_int (fresh (fun _ => 0)) 10 16 (-1234)))
             10 (10 + 16 - 1)
  /\ (forall y, y < 10 \/ 10 + 16 <= y ->
        mem (fst (snprintf_int (fresh (fun _ => 0)) 10 16 (-1234))) y
        = mem (fresh (fun _ => 0)) y).
Proof.
  destruct (snprintf_int_stays_in_its_room (fresh (fun _ => 0)) 10 16 (-1234))
    as [_ H].
  apply H. lia.
Defined.

(** The hexadecimal conversion of 0xbeef into a room of 16 bytes. *)
Lemma snprintf_hex_stays_in_its_room_witness :
  2 <= snd (snprintf_hex (fresh (fun _ => 0)) 10 16 48879) <= 16 - 1
  /\ mem (fst (snprintf_hex (fresh (fun _ => 0)) 10 16 48879))
         (10 + snd (snprintf_hex (fresh (fun _ => 0)) 10 16 48879)) = 0
  /\ touched (fresh (fun _ => 0))
             (fst (snprintf_hex (fresh (fun _ => 0)) 10 16 48879))
             10 (10 + 16 - 1)
  /\ (forall y, y < 10 \/ 10 + 16 <= y ->
        mem (fst (snprintf_hex (fresh (fun _ => 0)) 10 16 48879)) y
        = mem (fresh (fun _ => 0)) y).
Proof.
  destruct (snprintf_hex_stays_in_its_room (fresh (fun _ => 0)) 10 16 48879)
    as [_ H].
  apply H. lia.
Defined.

(** -1234 into a room of 4 bytes: the first three characters. *)
Lemma snprintf_int_writes_decimal_witness :
  snd (snprintf_int (fresh (fun _ => 0)) 10 4 (-1234))
  = Z.min (Z.of_nat (List.length (Render.integer (-1234)))) (4 - 1)
  /\ slice (mem (fst (snprintf_int (fresh (fun _ => 0)) 10 4 (-1234)))) 10
           (Z.to_nat (snd (snprintf_int (fresh (fun _ => 0)) 10 4 (-1234))))
     = firstn (Z.to_nat (4 - 1)) (Render.integer (-1234)).
Proof.
  apply (snprintf_int_writes_decimal (fresh (fun _ => 0)) 10 4 (-1234)); lia.
Defined.

(** 0xbeef into a room of 16 bytes. *)
Lemma snprintf_hex_writes_hexadecimal_witness :
  snd (snprintf_hex (fresh (fun _ => 0)) 10 16 48879)
  = Z.min (Z.of_nat (List.length (Render.hexadecimal 48879))) (16 - 1)
  /\ slice (mem (fst (snprintf_hex (fresh (fun _ => 0)) 10 16 48879))) 10
           (Z.to_nat (snd (snprintf_hex (fresh (fun _ => 0)) 10 16 48879)))
     = firstn (Z.to_nat (16 - 1)) (Render.hexadecimal 48879).
Proof.
  apply (snprintf_hex_writes_hexadecimal (fresh (fun _ => 0)) 10 16 48879); lia.
Defined.

(** A template with a decimal directive. *)
Lemma format_msg_bounds_witness :
  0 <= fst (format_msg (fun _ => 0) Ex2.pid_fmt Ex2.pid_args) <= 63
  /\ forall x,
       In x (acc (snd (format_msg (fun _ => 0) Ex2.pid_fmt Ex2.pid_args))) ->
       0 <= x <= 63.
Proof.
  destruct (format_msg_bounds (fun _ => 0) Ex2.pid_fmt Ex2.pid_args) as [_ H].
  apply H. reflexivity.
Defined.

(** A call whose message fits the record. *)
Lemma short_message_stored_whole_witness :
  let slot := head (cpu_logs Ex.boot (cpuid (Ex.on_cpu 0))) mod KLOG_BUF_SIZE in
  let m0 := msg (entries (cpu_logs Ex.boot (cpuid (Ex.on_cpu 0))) slot) in
  let m := msg (entries (cpu_logs (klog_printf_level Ex.NCPU Ex.boot (Ex.on_cpu 0)
                                     KLOG_WARN Ex2.pid_fmt Ex2.pid_args)
                                  (cpuid (Ex.on_cpu 0)))
                        slot) in
  slice m 0 (Datatypes.S (List.length (Render.render Ex2.pid_fmt Ex2.pid_args)))
  = Render.render Ex2.pid_fmt Ex2.pid_args ++ [0]
  /\ (forall x,
        Z.of_nat (List.length (Render.render Ex2.pid_fmt Ex2.pid_args)) < x ->
        m x = m0 x).
Proof.
  apply (short_message_stored_whole Ex.NCPU Ex.boot (Ex.on_cpu 0) KLOG_WARN
           Ex2.pid_fmt Ex2.pid_args).
  - unfold valid_cpu, Ex.NCPU. simpl. lia.
  - intros n. unfold Ex2.pid_args, Ex.args_of.
    destruct n as [|[|n]]; simpl; lia.
  - vm_compute. lia.
  - reflexivity.
Defined.

(** One call on CPU 1 of a freshly booted log. *)
Lemma record_effect_witness :
  seq (entries (cpu_logs (record Ex.NCPU Ex.boot (Ex.say 1 "a")) 1) 0) = 0
  /\ head (cpu_logs (record Ex.NCPU Ex.boot (Ex.say 1 "a")) 1) = 1
  /\ global_seq (record Ex.NCPU Ex.boot (Ex.say 1 "a")) = 1.
Proof.
  destruct (record_effect Ex.NCPU Ex.boot (Ex.say 1 "a")) as [H _].
  destruct H as ((Hs & _) & Hh & Hg & _); [unfold valid_cpu, Ex.NCPU; simpl; lia|].
  split; [exact Hs|]. split; [exact Hh|exact Hg].
Defined.

(** Initialisation by CPU 0. *)
Lemma klog_init_effect_witness :
  let st' := klog_init Ex.NCPU Ex.boot (Ex.on_cpu 0) Ex.no_args in
  let r := entries (cpu_logs st' (cpuid (Ex.on_cpu 0))) 0 in
  head (cpu_logs st' (cpuid (Ex.on_cpu 0))) = 1
  /\ (forall c, valid_cpu Ex.NCPU c -> c <> cpuid (Ex.on_cpu 0) ->
        head (cpu_logs st' c) = 0)
  /\ (forall c, valid_cpu Ex.NCPU c -> dropped (cpu_logs st' c) = 0)
  /\ seq r = global_seq Ex.boot
  /\ global_seq st' = u32 (global_seq Ex.boot + 1)
  /\ level r = KLOG_INFO
  /\ slice (msg r) 0 36 = cstr "klog: logging subsystem initialized" ++ [0]
  /\ snd (klog_snapshot Ex.NCPU st' (fun _ => Ex.zero_entry) 64) = 1
  /\ mem (snd (fst (klog_snapshot Ex.NCPU st' (fun _ => Ex.zero_entry) 64))) 0 = r.
Proof.
  apply (klog_init_effect Ex.NCPU Ex.boot (Ex.on_cpu 0) Ex.no_args
           (fun _ => Ex.zero_entry) 64).
  - unfold valid_cpu, Ex.NCPU. simpl. lia.
  - intros n. simpl. lia.
  - lia.
Defined.

